(** * Starlight Shorts: the backend services of drama-platform, verified

    A shallow embedding of the scoring, caching, authentication and
    preference code of [drama-platform/backend/src], and the properties its
    specification states about it.

    Conventions of the embedding.
    - A JavaScript [number] is an exact rational ([Q]); equality of scores is
      [Qeq] ([==]).  The doubles of the program round: where a quotient or a
      rounded number is the subject, a statement leaves room for that
      rounding, or it compares two results of the same operations.  The
      infinities are outside the model, and so is [NaN] but for the one
      [parseInt] gives ([JS.integer]).
    - A string that the code stores, compares or appends to another is a
      [string]: the bytes of its UTF-8 encoding.  A string that the code
      measures, indexes or cuts is a [Text.t]: the list of its UTF-16 code
      units.  [toLowerCase] is a parameter of the code that calls it.
    - [async] functions are run to completion; an exception is the [Throw]
      outcome of the function that raises it.
    - [new Date ()] / [Date.now ()] is a parameter [now] of the function that
      reads the clock (milliseconds for the ranking code, seconds for the
      expiry of cache keys). *)

From Stdlib Require Import ZArith QArith Qminmax Qabs Qround Lqa Lia.
From Stdlib Require Import List String Ascii Permutation Sorted DecimalString DecimalNat.
From stdpp Require Import gmap strings list.
Import ListNotations.

(** ** JavaScript built-ins used by the services *)

Module JS.

Abbreviation number := Q (only parsing).

Definition Math_min (x y : number) : number := Qmin x y.
Definition Math_max (x y : number) : number := Qmax x y.
Definition Math_abs (x : number) : number := Qabs x.

(** [Math.round]: the nearest integer, halves towards plus infinity. *)
Definition Math_round (x : number) : number := inject_Z (Qfloor (x + (1 # 2))).

Definition of_nat (n : nat) : number := inject_Z (Z.of_nat n).

(** [s.startsWith (sub)] for a [sub] of ASCII characters. *)
Definition startsWith (s sub : string) : bool := String.prefix sub s.

(** [Array.prototype.sort (cmp)]: stable since ES2019, so for a comparator
    that is a total preorder it is the stable insertion sort below: [x]
    stays before [y] unless [cmp x y > 0]. *)
Fixpoint sort_insert {A : Type} (cmp : A -> A -> number) (x : A) (l : list A) : list A :=
  match l with
  | [] => [x]
  | y :: l' =>
      if Qle_bool (cmp x y) 0 then x :: y :: l' else y :: sort_insert cmp x l'
  end.

Fixpoint sort {A : Type} (cmp : A -> A -> number) (l : list A) : list A :=
  match l with
  | [] => []
  | x :: l' => sort_insert cmp x (sort cmp l')
  end.

(** [arr.slice (0, n)] for a count [n]. *)
Definition slice0 {A : Type} (n : nat) (l : list A) : list A := firstn n l.

(** What [parseInt] hands to a service: an integer (one that a double
    holds exactly; where its text is written, one of fewer than 22 digits,
    which is written in full), or [NaN] for a text that starts with no
    number. *)
Inductive integer := Int (n : Z) | NaN.

(** [arr.slice (0, end)] for such an [end]: a negative one counts from the
    end of the array, [NaN] counts as 0. *)
Definition slice_to {A : Type} (end_ : integer) (l : list A) : list A :=
  match end_ with
  | Int n =>
      if (n <? 0)%Z then firstn (length l - Z.to_nat (- n)) l else firstn (Z.to_nat n) l
  | NaN => []
  end.

(** [arr.find (p)] and [arr.findIndex (p)] ([None] for [undefined] / [-1]). *)
Definition find {A : Type} (p : A -> bool) (l : list A) : option A := List.find p l.

Fixpoint findIndex {A : Type} (p : A -> bool) (l : list A) : option nat :=
  match l with
  | [] => None
  | x :: l' => if p x then Some 0%nat else option_map S (findIndex p l')
  end.

(** [arr.map ((item, index) => f (item, index))] *)
Fixpoint map_index_from {A B : Type} (f : A -> nat -> B) (index : nat) (l : list A) : list B :=
  match l with
  | [] => []
  | item :: l' => f item index :: map_index_from f (S index) l'
  end.

Definition map_index {A B : Type} (f : A -> nat -> B) (l : list A) : list B :=
  map_index_from f 0 l.

(** Truthiness of an optional string: [undefined] and the empty string are
    falsy. *)
Definition truthy (o : option string) : option string :=
  match o with
  | Some EmptyString => None
  | _ => o
  end.

(** [x || 0] for an optional number. *)
Definition or_zero (o : option number) : number :=
  match o with
  | Some x => x
  | None => 0%Q
  end.

(** The value of a decimal digit. *)
Definition digit_value (c : ascii) : option nat :=
  let n := nat_of_ascii c in
  if ((48 <=? n) && (n <=? 57))%nat then Some (n - 48)%nat else None.

Fixpoint parse_digits (s : string) (acc : nat) : nat :=
  match s with
  | EmptyString => acc
  | String c s' =>
      match digit_value c with
      | Some d => parse_digits s' (10 * acc + d)
      | None => acc
      end
  end.

(** [parseInt (s)] on what the services hand it, a string that starts with
    decimal digits or not: the number its leading digits spell, [None]
    (for [NaN]) when there is none.  White space, signs and radix prefixes
    are read as no digit. *)
Definition parseInt (s : string) : option nat :=
  match s with
  | EmptyString => None
  | String c _ =>
      match digit_value c with
      | Some _ => Some (parse_digits s 0)
      | None => None
      end
  end.

(** [n.toString ()] for a count, and for [NaN]. *)
Definition toString (n : option nat) : string :=
  match n with
  | Some n => NilZero.string_of_uint (Nat.to_uint n)
  | None => "NaN"
  end.

(** The text of such a number in a template literal. *)
Definition integer_toString (i : integer) : string :=
  match i with
  | Int n => NilZero.string_of_int (Z.to_int n)
  | NaN => "NaN"
  end.

(** [s.endsWith (c)] for a one-unit suffix. *)
Fixpoint endsWith (s : string) (c : ascii) : bool :=
  match s with
  | EmptyString => false
  | String a EmptyString => Ascii.eqb a c
  | String _ s' => endsWith s' c
  end.

(** The comparator [(a, b) => key (b) - key (a)], and the order an array
    sorted with it is in. *)
Definition by_key_desc {A : Type} (key : A -> number) (a b : A) : number :=
  (key b - key a)%Q.

Definition descending {A : Type} (key : A -> number) (a b : A) : Prop :=
  (key b <= key a)%Q.

(** The white space and the line terminators of the language, each by the
    bytes of its UTF-8 encoding: U+0009 to U+000D, U+0020, U+00A0, U+1680,
    U+2000 to U+200A, U+2028, U+2029, U+202F, U+205F, U+3000 and U+FEFF. *)
Definition whiteSpace : list (list ascii) :=
  map (map ascii_of_nat)
    [ [9]; [10]; [11]; [12]; [13]; [32]; [194; 160]; [225; 154; 128];
      [226; 128; 128]; [226; 128; 129]; [226; 128; 130]; [226; 128; 131];
      [226; 128; 132]; [226; 128; 133]; [226; 128; 134]; [226; 128; 135];
      [226; 128; 136]; [226; 128; 137]; [226; 128; 138];
      [226; 128; 168]; [226; 128; 169]; [226; 128; 175]; [226; 129; 159];
      [227; 128; 128]; [239; 187; 191] ]%nat.

Fixpoint starts (sub l : list ascii) : bool :=
  match sub, l with
  | [], _ => true
  | c :: sub', d :: l' => Ascii.eqb c d && starts sub' l'
  | _ :: _, [] => false
  end.

(** [l] without the [patterns] it starts with, one after the other. *)
Fixpoint strip (fuel : nat) (patterns : list (list ascii)) (l : list ascii) : list ascii :=
  match fuel with
  | O => l
  | S fuel' =>
      match List.find (fun sub => starts sub l) patterns with
      | Some sub => strip fuel' patterns (skipn (length sub) l)
      | None => l
      end
  end.

(** [s.trim ()]: [s] without the white space at its two ends. *)
Definition trim (s : string) : string :=
  let l := list_ascii_of_string s in
  let l := strip (length l) whiteSpace l in
  let l := rev (strip (length l) (map (@rev ascii) whiteSpace) (rev l)) in
  string_of_list_ascii l.

(** [s.substring (start, end)] on the bytes of a string, for bounds that
    have ASCII characters before them or are at the end: negative bounds
    count as 0, bounds past the end as the length, and the bounds are
    swapped when [start > end]. *)
Definition substring (start end_ : Z) (s : string) : string :=
  let clamp (i : Z) := Z.to_nat (Z.min (Z.max 0 i) (Z.of_nat (String.length s))) in
  let a := Nat.min (clamp start) (clamp end_) in
  let b := Nat.max (clamp start) (clamp end_) in
  String.substring a (b - a) s.

End JS.

(** ** Strings by their code units *)

(** Where the code counts, indexes or cuts a string, the string is the
    sequence of its UTF-16 code units (numbers below 65536): [length],
    [charAt], [indexOf] and [substring] work on these. *)
Module Text.

Definition t : Type := list N.

(** The text of a literal of ASCII characters. *)
Definition of_string (s : string) : t := map N_of_ascii (list_ascii_of_string s).

(** Truthiness of an optional string: [undefined] and the empty string are
    falsy. *)
Definition truthy (o : option t) : option t :=
  match o with
  | Some [] => None
  | _ => o
  end.

(** [s.startsWith (sub)] *)
Fixpoint startsWith (s sub : t) : bool :=
  match sub, s with
  | [], _ => true
  | c :: sub', d :: s' => (c =? d)%N && startsWith s' sub'
  | _ :: _, [] => false
  end.

(** [s.includes (sub)]: [sub] starts at some position of [s]. *)
Fixpoint includes (s sub : t) : bool :=
  startsWith s sub ||
  match s with
  | [] => false
  | _ :: s' => includes s' sub
  end.

(** [s.indexOf (sub)]: the first position at which [sub] starts, [None]
    for [-1]. *)
Fixpoint indexOf (s sub : t) : option nat :=
  if startsWith s sub then Some 0%nat
  else
    match s with
    | [] => None
    | _ :: s' => option_map S (indexOf s' sub)
    end.

(** [s.charAt (i)], [None] standing for the empty string returned out of
    range. *)
Definition charAt (s : t) (i : nat) : option N := nth_error s i.

(** [s.substring (start, end)] for integers: negative bounds count as 0,
    bounds past the end as the length, and the bounds are swapped when
    [start > end]. *)
Definition substring (start end_ : Z) (s : t) : t :=
  let clamp (i : Z) := Z.to_nat (Z.min (Z.max 0 i) (Z.of_nat (length s))) in
  let a := Nat.min (clamp start) (clamp end_) in
  let b := Nat.max (clamp start) (clamp end_) in
  firstn (b - a) (skipn a s).

(** Texts of ASCII characters, and what [toLowerCase] does to them: the
    letters A to Z become a to z, the other characters stay. *)
Definition is_ascii (s : t) : bool := forallb (fun c => (c <? 128)%N) s.

Definition lower_unit (c : N) : N :=
  if ((65 <=? c) && (c <=? 90))%N then (c + 32)%N else c.

Definition lower_ascii (s : t) : t := map lower_unit s.

(** The surrogates: a code point past 65535 is a high one followed by a low
    one. *)
Definition is_high (c : N) : bool := ((55296 <=? c) && (c <? 56320))%N.
Definition is_low (c : N) : bool := ((56320 <=? c) && (c <? 57344))%N.

Definition byte (n : N) : ascii := ascii_of_N n.

(** U+FFFD, which stands for a surrogate that has no partner. *)
Definition replacement (rest : string) : string :=
  String (byte 239) (String (byte 191) (String (byte 189) rest)).

(** The bytes the client sends to the cache for a string: its UTF-8
    encoding. *)
Fixpoint utf8 (s : t) : string :=
  match s with
  | [] => EmptyString
  | c :: rest =>
      if (c <? 128)%N then String (byte c) (utf8 rest)
      else if (c <? 2048)%N then
        String (byte (192 + c / 64)) (String (byte (128 + c mod 64)) (utf8 rest))
      else if is_high c then
        match rest with
        | d :: rest' =>
            if is_low d then
              let point := (65536 + (c - 55296) * 1024 + (d - 56320))%N in
              String (byte (240 + point / 262144))
                (String (byte (128 + (point / 4096) mod 64))
                   (String (byte (128 + (point / 64) mod 64))
                      (String (byte (128 + point mod 64)) (utf8 rest'))))
            else replacement (utf8 rest)
        | [] => replacement EmptyString
        end
      else if is_low c then replacement (utf8 rest)
      else
        String (byte (224 + c / 4096))
          (String (byte (128 + (c / 64) mod 64))
             (String (byte (128 + c mod 64)) (utf8 rest)))
  end%N.

End Text.

(** ** Exceptions *)

(** The outcome of a call that may throw. *)
Inductive outcome (A : Type) : Type :=
| Ret (a : A)
| Throw (message : string).
Arguments Ret {A} a.
Arguments Throw {A} message.

Definition returned {A : Type} (o : outcome A) : bool :=
  match o with
  | Ret _ => true
  | Throw _ => false
  end.

(** ** [JSON.stringify] *)

(** What the cache-key builders serialize: strings, integers, booleans,
    arrays and objects; [Lit] is any other value by the text that stands for
    it (a number with a fraction, a date).  An object is the list of its
    properties in the order [JSON.stringify] visits them; a property whose
    value is [undefined] is not in the list.  The text is a string of code
    units. *)
Module JSON.
Local Open Scope list_scope.
Local Unset Elimination Schemes.
Inductive value :=
| Null
| Bool (b : bool)
| Num (n : Z)
| Str (s : Text.t)
| Lit (text : Text.t)
| Arr (items : list value)
| Obj (properties : list (Text.t * value)).
Local Set Elimination Schemes.

Definition quote : Text.t := [34%N].
Definition backslash : Text.t := [92%N].

Definition hex_digit (n : N) : N := if (n <? 10)%N then (48 + n)%N else (87 + n)%N.

(** [\uXXXX] *)
Definition escape_u (c : N) : Text.t :=
  backslash ++ Text.of_string "u"
  ++ [hex_digit (c / 4096); hex_digit ((c / 256) mod 16);
      hex_digit ((c / 16) mod 16); hex_digit (c mod 16)]%N.

(** The text of one code unit that is no surrogate inside a JSON string. *)
Definition escape_unit (c : N) : Text.t :=
  if (c =? 34)%N then backslash ++ quote
  else if (c =? 92)%N then backslash ++ backslash
  else if (c =? 8)%N then backslash ++ Text.of_string "b"
  else if (c =? 12)%N then backslash ++ Text.of_string "f"
  else if (c =? 10)%N then backslash ++ Text.of_string "n"
  else if (c =? 13)%N then backslash ++ Text.of_string "r"
  else if (c =? 9)%N then backslash ++ Text.of_string "t"
  else if (c <? 32)%N then escape_u c
  else [c].

(** A high surrogate and the low one after it stay; a surrogate that has
    no partner is written [\uXXXX]. *)
Fixpoint escape (s : Text.t) : Text.t :=
  match s with
  | [] => []
  | c :: rest =>
      if Text.is_high c then
        match rest with
        | d :: rest' =>
            if Text.is_low d then c :: d :: escape rest' else escape_u c ++ escape rest
        | [] => escape_u c
        end
      else if Text.is_low c then escape_u c ++ escape rest
      else escape_unit c ++ escape rest
  end.

Definition quoted (s : Text.t) : Text.t := quote ++ escape s ++ quote.

Definition number_text (n : Z) : Text.t := Text.of_string (NilZero.string_of_int (Z.to_int n)).

(** [texts.join (separator)] *)
Fixpoint join (separator : Text.t) (texts : list Text.t) : Text.t :=
  match texts with
  | [] => []
  | [x] => x
  | x :: rest => x ++ separator ++ join separator rest
  end.

Fixpoint stringify (v : value) : Text.t :=
  match v with
  | Null => Text.of_string "null"
  | Bool true => Text.of_string "true"
  | Bool false => Text.of_string "false"
  | Num n => number_text n
  | Str s => quoted s
  | Lit text => text
  | Arr items =>
      Text.of_string "[" ++ join (Text.of_string ",") (map stringify items)
      ++ Text.of_string "]"
  | Obj properties =>
      Text.of_string "{"
      ++ join (Text.of_string ",")
           (map (fun kv => quoted (fst kv) ++ Text.of_string ":" ++ stringify (snd kv))
                properties)
      ++ Text.of_string "}"
  end.

(** [{ ..., key: value, ... }] for a value that may be [undefined]. *)
Definition property (key : string) (o : option value) : list (Text.t * value) :=
  match o with
  | Some v => [(Text.of_string key, v)]
  | None => []
  end.

(** A number that [parseInt] gave: [NaN] is written [null]. *)
Definition integer (i : JS.integer) : value :=
  match i with
  | JS.Int n => Num n
  | JS.NaN => Null
  end.
End JSON.

(** ** types/drama.ts and types/search.ts: the documents *)

(** A content item as the services read it ([.lean ()] documents typed
    [any]): [tags] and [cast] may be missing, the counters may be missing. *)
Module Drama.
Record t := mk {
  _id : string;
  title : string;
  description : string;
  category : string;
  tags : option (list string);
  rating : JS.number;
  viewCount : JS.number;
  cast : option (list string);
  commentCount : option JS.number;
  favoriteCount : option JS.number;
  isHot : bool;
  isNewDrama : bool;
  updatedAt : Z                      (* milliseconds since the epoch *)
}.
End Drama.

(** An entry [{ category | tag | actor ; weight }] of a preference list; the
    three lists of the source differ only in the name of the first field. *)
Module Weighted.
Record t := mk { key : string; weight : JS.number }.
End Weighted.

Module UserPreference.
Record t := mk {
  userId : string;
  categories : list Weighted.t;
  tags : list Weighted.t;
  actors : list Weighted.t;
  ratingRange_min : JS.number;
  ratingRange_max : JS.number;
  ratingRange_preferred : JS.number;
  viewingTime_totalMinutes : JS.number;
  viewingTime_averageSession : JS.number;
  viewingTime_preferredDuration : JS.number;
  lastUpdated : Z
}.
End UserPreference.

(** ** models/Category, models/Drama: the collections *)

Module Category.
Record t := mk {
  _id : string;
  name : string;
  color : string;
  description : option string;
  sortOrder : Z;
  isActive : bool
}.
End Category.

(** ** types/user.ts, models/User, models/UserSession *)

Module User.
Inductive UserRole := USER | ADMIN | MODERATOR.
Inductive UserStatus := ACTIVE | INACTIVE | BANNED | PENDING.

Record t := mk {
  username : string;
  email : string;
  password : string;                 (* the bcrypt hash *)
  role : UserRole;
  status : UserStatus;
  lastLoginAt : option Z
}.

Definition is_active (u : t) : bool :=
  match status u with
  | ACTIVE => true
  | _ => false
  end.

Definition set_lastLoginAt (now : Z) (u : t) : t :=
  mk (username u) (email u) (password u) (role u) (status u) (Some now).
End User.

Module UserSession.
Record t := mk {
  userId : string;
  sessionId : string;
  refreshToken : string;
  ipAddress : option string;
  userAgent : option string;
  isActive : bool;
  expiresAt : Z
}.
End UserSession.

(** The document store as the services see it: the collections, and whether
    the connection is up (a query on a store that is down throws).
    Documents are keyed by [_id]; preference documents by their unique
    [userId]. *)
Module Mongo.
Record t := mk {
  connected : bool;
  dramas : list Drama.t;
  categories : gmap string Category.t;
  preferences : gmap string UserPreference.t;
  users : gmap string User.t;
  sessions : list UserSession.t
}.

Definition unavailable : string := "MongoNotConnectedError".

(** [Drama.find (query).lean ().exec ()] *)
Definition Drama_find (query : Drama.t -> bool) (db : t) : outcome (list Drama.t) :=
  if connected db then Ret (List.filter query (dramas db)) else Throw unavailable.

(** [Drama.countDocuments (query)] *)
Definition Drama_countDocuments (query : Drama.t -> bool) (db : t) : outcome nat :=
  if connected db then Ret (length (List.filter query (dramas db))) else Throw unavailable.

(** The strings Mongoose casts to an [ObjectId]: 24 hexadecimal digits. *)
Definition is_hex (c : ascii) : bool :=
  let n := nat_of_ascii c in
  ((48 <=? n) && (n <=? 57) || (65 <=? n) && (n <=? 70) || (97 <=? n) && (n <=? 102))%nat.

Definition isObjectId (id : string) : bool :=
  (String.length id =? 24)%nat && forallb is_hex (list_ascii_of_string id).

Definition quote : string := String (ascii_of_nat 34) EmptyString.

(** The message of the [CastError] Mongoose throws for an id it cannot
    cast. *)
Definition castError (value model : string) : string :=
  ("Cast to ObjectId failed for value " ++ quote ++ value ++ quote
   ++ " (type string) at path " ++ quote ++ "_id" ++ quote
   ++ " for model " ++ quote ++ model ++ quote)%string.

(** Whether [Model.findById (id)] gets past the cast of [id], which comes
    before the query is sent.  The [_id] of a stored document is an
    [ObjectId], so an id under which a document is [stored] here can be
    cast. *)
Definition castable (id : string) (stored : bool) : bool := isObjectId id || stored.

(** The text of an [ObjectId] has its digits in lower case. *)
Definition lower_hex (c : ascii) : ascii :=
  let n := nat_of_ascii c in
  if ((65 <=? n) && (n <=? 70))%nat then ascii_of_nat (n + 32) else c.

Definition objectIdText (id : string) : string :=
  string_of_list_ascii (map lower_hex (list_ascii_of_string id)).

(** Whether a document whose id is [_id] is the one a query for [id] asks
    for: [_id] is [id], or the text of the [ObjectId] that [id] is cast
    to. *)
Definition same_id (_id id : string) : bool :=
  String.eqb _id id || isObjectId id && String.eqb _id (objectIdText id).

(** The id of the category a query for [id] asks for. *)
Definition Category_id (id : string) (db : t) : string :=
  match categories db !! id with
  | Some _ => id
  | None => if isObjectId id then objectIdText id else id
  end.

(** [Category.findById (id)] *)
Definition Category_findById (id : string) (db : t) : outcome (option Category.t) :=
  if negb (castable id (bool_decide (is_Some (categories db !! id))))
  then Throw (castError id "Category")
  else if connected db then Ret (categories db !! Category_id id db) else Throw unavailable.

(** The removal of the category document found for [id]. *)
Definition Category_remove (id : string) (db : t) : outcome t :=
  if connected db
  then Ret (mk (connected db) (dramas db) (delete (Category_id id db) (categories db))
               (preferences db) (users db) (sessions db))
  else Throw unavailable.

(** [UserPreference.findOne ({ userId })] *)
Definition UserPreference_findOne (userId : string) (db : t) : outcome (option UserPreference.t) :=
  if connected db then Ret (preferences db !! userId) else Throw unavailable.

(** [preference.save ()] *)
Definition UserPreference_save (p : UserPreference.t) (db : t) : outcome t :=
  if connected db
  then Ret (mk (connected db) (dramas db) (categories db)
               (<[UserPreference.userId p := p]> (preferences db)) (users db) (sessions db))
  else Throw unavailable.

(** [User.findById (id)] *)
Definition User_findById (id : string) (db : t) : outcome (option User.t) :=
  if connected db then Ret (users db !! id) else Throw unavailable.

(** [User.findOne ({ email })]: the document and its [_id]. *)
Definition User_findOne_email (email : string) (db : t) : outcome (option (string * User.t)) :=
  if connected db
  then Ret (List.find (fun kv => String.eqb (User.email (snd kv)) email)
                      (map_to_list (users db)))
  else Throw unavailable.

(** [user.save ()] *)
Definition User_save (id : string) (u : User.t) (db : t) : outcome t :=
  if connected db
  then Ret (mk (connected db) (dramas db) (categories db) (preferences db)
               (<[id := u]> (users db)) (sessions db))
  else Throw unavailable.

(** [UserSessionModel.create (session)] *)
Definition UserSession_create (session : UserSession.t) (db : t) : outcome t :=
  if connected db
  then Ret (mk (connected db) (dramas db) (categories db) (preferences db)
               (users db) (session :: sessions db))
  else Throw unavailable.

(** [UserSessionModel.updateOne ({ refreshToken }, { isActive: false })]:
    the first session with the token is switched off. *)
Definition UserSession_deactivate (refreshToken : string) (db : t) : outcome t :=
  if connected db
  then
    let switch_off (s : UserSession.t) :=
      UserSession.mk (UserSession.userId s) (UserSession.sessionId s)
        (UserSession.refreshToken s) (UserSession.ipAddress s) (UserSession.userAgent s)
        false (UserSession.expiresAt s) in
    let sessions :=
      match JS.findIndex (fun s => String.eqb (UserSession.refreshToken s) refreshToken)
                         (sessions db) with
      | Some i => alter switch_off i (sessions db)
      | None => sessions db
      end in
    Ret (mk (connected db) (dramas db) (categories db) (preferences db) (users db) sessions)
  else Throw unavailable.

(** [User.findOne ({ username })] *)
Definition User_findOne_username (username : string) (db : t)
    : outcome (option (string * User.t)) :=
  if connected db
  then Ret (List.find (fun kv => String.eqb (User.username (snd kv)) username)
                      (map_to_list (users db)))
  else Throw unavailable.

Definition with_sessions (l : list UserSession.t) (db : t) : t :=
  mk (connected db) (dramas db) (categories db) (preferences db) (users db) l.

(** [UserSessionModel.findOne ({ refreshToken, isActive: true, expiresAt:
    { $gt: now } })]: the first such session and its place in the
    collection. *)
Definition UserSession_findOne_active (refreshToken : string) (now : Z) (db : t)
    : outcome (option (nat * UserSession.t)) :=
  if connected db
  then
    let wanted (s : UserSession.t) :=
      String.eqb (UserSession.refreshToken s) refreshToken
      && UserSession.isActive s && (now <? UserSession.expiresAt s)%Z in
    Ret (match JS.findIndex wanted (sessions db) with
         | Some i => option_map (fun s => (i, s)) (sessions db !! i)
         | None => None
         end)
  else Throw unavailable.

Definition duplicateKey : string := "E11000 duplicate key error".

(** [session.save ()] of the session found at place [i]: the unique
    index on [refreshToken] refuses a token another session holds. *)
Definition UserSession_save (i : nat) (session : UserSession.t) (db : t) : outcome t :=
  if connected db
  then
    if existsb (fun js => negb (fst js =? i)%nat
                          && String.eqb (UserSession.refreshToken (snd js))
                                        (UserSession.refreshToken session))
               (imap (fun j s => (j, s)) (sessions db))
    then Throw duplicateKey
    else Ret (with_sessions (<[i := session]> (sessions db)) db)
  else Throw unavailable.

Definition switch_off (s : UserSession.t) : UserSession.t :=
  UserSession.mk (UserSession.userId s) (UserSession.sessionId s)
    (UserSession.refreshToken s) (UserSession.ipAddress s) (UserSession.userAgent s)
    false (UserSession.expiresAt s).

(** [UserSessionModel.clearUserSessions (userId)]:
    [updateMany ({ userId, isActive: true }, { isActive: false })]. *)
Definition UserSession_clearUserSessions (userId : string) (db : t) : outcome t :=
  if connected db
  then Ret (with_sessions
              (map (fun s => if String.eqb (UserSession.userId s) userId
                                && UserSession.isActive s
                             then switch_off s else s)
                   (sessions db))
              db)
  else Throw unavailable.

(** [UserSessionModel.getActiveSessionCount (userId)] *)
Definition UserSession_getActiveSessionCount (userId : string) (db : t) : outcome nat :=
  if connected db
  then Ret (length (List.filter (fun s => String.eqb (UserSession.userId s) userId
                                           && UserSession.isActive s)
                                (sessions db)))
  else Throw unavailable.

(** [Drama.findById (id).lean ().exec ()] *)
Definition Drama_findById (id : string) (db : t) : outcome (option Drama.t) :=
  if negb (castable id (existsb (fun d => same_id (Drama._id d) id) (dramas db)))
  then Throw (castError id "Drama")
  else if connected db
       then Ret (List.find (fun d => same_id (Drama._id d) id) (dramas db))
       else Throw unavailable.

(** [.limit (n)] of a query: [0] stands for no limit. *)
Definition limit {A : Type} (n : nat) (l : list A) : list A :=
  if (n =? 0)%nat then l else firstn n l.

(** [.sort ({ first: -1, second: -1 })] of a query: by [first], then by
    [second], both descending; documents that tie on both stay in the order
    of the collection. *)
Definition sort_desc2 {A : Type} (first second : A -> JS.number) (l : list A) : list A :=
  JS.sort (fun a b => if Qeq_bool (first a) (first b)
                      then (second b - second a)%Q
                      else (first b - first a)%Q)
          l.

(** [.sort (...)] of a query in ascending order of [le], documents that
    tie staying in the order of the collection. *)
Fixpoint insert_by {A : Type} (le : A -> A -> bool) (x : A) (l : list A) : list A :=
  match l with
  | [] => [x]
  | y :: l' => if le x y then x :: y :: l' else y :: insert_by le x l'
  end.

Fixpoint sort_by {A : Type} (le : A -> A -> bool) (l : list A) : list A :=
  match l with
  | [] => []
  | x :: l' => insert_by le x (sort_by le l')
  end.

(** [{ sortOrder: 1, name: 1 }]: by sort order, then by name (strings
    compare unit by unit). *)
Definition by_sortOrder_name (a b : Category.t) : bool :=
  (Category.sortOrder a <? Category.sortOrder b)%Z
  || ((Category.sortOrder a =? Category.sortOrder b)%Z
      && String.leb (Category.name a) (Category.name b)).

(** [Category.find (query).sort ({ sortOrder: 1, name: 1 }).lean ().exec ()] *)
Definition Category_find_sorted (query : Category.t -> bool) (db : t)
    : outcome (list Category.t) :=
  if connected db
  then Ret (sort_by by_sortOrder_name
              (List.filter query (map snd (map_to_list (categories db)))))
  else Throw unavailable.

(** [category.save ()] of the document found for [id]; the stored
    documents pass the validators of the schema. *)
Definition Category_save (id : string) (c : Category.t) (db : t) : outcome t :=
  if connected db
  then Ret (mk (connected db) (dramas db) (<[Category_id id db := c]> (categories db))
               (preferences db) (users db) (sessions db))
  else Throw unavailable.

Definition with_viewCount (viewCount : JS.number) (d : Drama.t) : Drama.t :=
  Drama.mk (Drama._id d) (Drama.title d) (Drama.description d) (Drama.category d)
    (Drama.tags d) (Drama.rating d) viewCount (Drama.cast d) (Drama.commentCount d)
    (Drama.favoriteCount d) (Drama.isHot d) (Drama.isNewDrama d) (Drama.updatedAt d).

Definition with_updatedAt (updatedAt : Z) (d : Drama.t) : Drama.t :=
  Drama.mk (Drama._id d) (Drama.title d) (Drama.description d) (Drama.category d)
    (Drama.tags d) (Drama.rating d) (Drama.viewCount d) (Drama.cast d) (Drama.commentCount d)
    (Drama.favoriteCount d) (Drama.isHot d) (Drama.isNewDrama d) updatedAt.

(** [Drama.findByIdAndUpdate (id, { $inc: { viewCount: 1 } }, { new: true })]
    at the instant [now] (milliseconds).  The schema of the dramas has
    [timestamps: true], so the update sets [updatedAt] as well.  Nothing
    happens when no drama has the id. *)
Definition Drama_incViewCount (now : Z) (id : string) (db : t) : outcome t :=
  if negb (castable id (existsb (fun d => same_id (Drama._id d) id) (dramas db)))
  then Throw (castError id "Drama")
  else if connected db
  then
    let dramas :=
      match JS.findIndex (fun d => same_id (Drama._id d) id) (dramas db) with
      | Some i =>
          alter (fun d => with_updatedAt now (with_viewCount (Drama.viewCount d + 1)%Q d)) i
            (dramas db)
      | None => dramas db
      end in
    Ret (mk (connected db) dramas (categories db) (preferences db) (users db) (sessions db))
  else Throw unavailable.

End Mongo.

(** ** config/redis: the cache client *)

(** The cache holds strings under string keys, each with the instant (in
    seconds) at which it expires, if any.  The services other than
    [AuthService] store the JSON text of a result; [Redis.t] is therefore
    parametric in what a stored text stands for. *)
Module Redis.
Section Values.
Context {V : Type}.

Record t := mk {
  isConnected : bool;
  entries : gmap string (V * option Z)
}.

Definition notConnected : string := "Redis client not connected".

Definition isReady (r : t) : bool := isConnected r.

Definition live (now : Z) (e : V * option Z) : bool :=
  match snd e with
  | Some expiry => (now <? expiry)%Z
  | None => true
  end.

(** The value under [key] at time [now], expired entries being gone. *)
Definition lookup (now : Z) (key : string) (r : t) : option V :=
  match entries r !! key with
  | Some e => if live now e then Some (fst e) else None
  | None => None
  end.

(** [redis.get (key)] *)
Definition get (now : Z) (key : string) (r : t) : outcome (option V) :=
  if isReady r then Ret (lookup now key r) else Throw notConnected.

(** [redis.exists (key)] *)
Definition exists_ (now : Z) (key : string) (r : t) : outcome nat :=
  if isReady r
  then Ret (match lookup now key r with Some _ => 1%nat | None => 0%nat end)
  else Throw notConnected.

(** [redis.set (key, value, ttl)]: [setEx] when [ttl] is given and not
    zero, a plain [set] otherwise. *)
Definition set (now : Z) (key : string) (value : V) (ttl : option Z) (r : t) : outcome t :=
  if isReady r then
    let expiry :=
      match ttl with
      | Some n => if (n =? 0)%Z then None else Some (now + n)%Z
      | None => None
      end in
    Ret (mk (isConnected r) (<[key := (value, expiry)]> (entries r)))
  else Throw notConnected.

(** [redis.del (key)] *)
Definition del (key : string) (r : t) : outcome t :=
  if isReady r then Ret (mk (isConnected r) (delete key (entries r)))
  else Throw notConnected.

(** The [connect], [disconnect] and [error] events of the client: the flag
    follows the connection, what the server holds stays. *)
Definition with_isConnected (up : bool) (r : t) : t := mk up (entries r).

(** The cache after [redis.del] of each of [keys]. *)
Definition without_keys (keys : list string) (r : t) : t :=
  mk (isConnected r) (fold_left (fun m k => delete k m) keys (entries r)).

End Values.
Arguments t V : clear implicits.
End Redis.

(** ** Service code as state-and-exception computations *)

(** What a service call runs against: the document store and the cache. *)
Module World.
Record t (V : Type) := mk { mongo : Mongo.t; cache : Redis.t V }.
Arguments mk {V} mongo cache.
Arguments mongo {V} _.
Arguments cache {V} _.

(** The world once the connection to the cache is [up], or down. *)
Definition link {V : Type} (up : bool) (w : t V) : t V :=
  mk (mongo w) (Redis.with_isConnected up (cache w)).
End World.

(** A computation reads and updates the world and returns or throws; what it
    wrote before throwing stays written. *)
Module Eff.
Definition M (V A : Type) : Type := World.t V -> outcome A * World.t V.

Section Ops.
Context {V : Type}.

Definition ret {A : Type} (a : A) : M V A := fun w => (Ret a, w).

Definition throw {A : Type} (message : string) : M V A := fun w => (Throw message, w).

Definition bind {A B : Type} (m : M V A) (k : A -> M V B) : M V B :=
  fun w =>
    match m w with
    | (Ret a, w') => k a w'
    | (Throw e, w') => (Throw e, w')
    end.

(** [try { m } catch (error) { h }] *)
Definition try_catch {A : Type} (m : M V A) (h : string -> M V A) : M V A :=
  fun w =>
    match m w with
    | (Ret a, w') => (Ret a, w')
    | (Throw e, w') => h e w'
    end.

(** A read of the store or of the cache. *)
Definition ask_mongo {A : Type} (f : Mongo.t -> outcome A) : M V A :=
  fun w => (f (World.mongo w), w).

Definition ask_redis {A : Type} (f : Redis.t V -> outcome A) : M V A :=
  fun w => (f (World.cache w), w).

(** A write to the store or to the cache. *)
Definition write_mongo (f : Mongo.t -> outcome Mongo.t) : M V unit :=
  fun w =>
    match f (World.mongo w) with
    | Ret db => (Ret tt, World.mk db (World.cache w))
    | Throw e => (Throw e, w)
    end.

Definition write_redis (f : Redis.t V -> outcome (Redis.t V)) : M V unit :=
  fun w =>
    match f (World.cache w) with
    | Ret r => (Ret tt, World.mk (World.mongo w) r)
    | Throw e => (Throw e, w)
    end.

(** [redis.isReady ()] *)
Definition redis_isReady : M V bool := fun w => (Ret (Redis.isReady (World.cache w)), w).

(** [for (const x of l) { await body (x); }] *)
Fixpoint for_each {A : Type} (l : list A) (body : A -> M V unit) : M V unit :=
  match l with
  | [] => ret tt
  | x :: l' => bind (body x) (fun _ => for_each l' body)
  end.
End Ops.

Declare Scope eff_scope.
Delimit Scope eff_scope with eff.
Notation "'let*' x := m 'in' k" := (bind m (fun x => k))
  (at level 10, x name, m at level 100, k at level 200) : eff_scope.
End Eff.

(** ** services/SearchService: relevance of a search hit *)

Module SearchService.
Import JS.
Local Open Scope Q_scope.

Section Relevance.
(** [String.prototype.toLowerCase], a function from strings to strings. *)
Variable toLowerCase : Text.t -> Text.t.

(** The inner loop body of [levenshteinDistance]: the assignment to
    [matrix[i][j]], which extends row [i] (of which the cells [0..j-1] are
    there) by one cell; [prev] is row [i-1]. *)
Definition fillCell (str1 str2 : Text.t) (prev row : list nat) (i j : nat) : list nat :=
  row ++
    [ if decide (Text.charAt str2 (i - 1) = Text.charAt str1 (j - 1))
      then nth (j - 1) prev 0
      else Nat.min (Nat.min (nth (j - 1) prev 0 + 1) (nth (j - 1) row 0 + 1))
                   (nth j prev 0 + 1) ]%nat.

(** Row [i >= 1]: it starts as [[i]] (first loop) and the inner loop runs
    [j] from [1] to [str1.length]. *)
Definition fillRow (str1 str2 : Text.t) (prev : list nat) (i : nat) : list nat :=
  fold_left (fun row j => fillCell str1 str2 prev row i j)
            (seq 1 (length str1)) [i].

(** The matrix after the three loops: row [0] is [0, 1, .., str1.length]
    (second loop), rows [1..str2.length] are filled in order. *)
Definition levenshteinMatrix (str1 str2 : Text.t) : list (list nat) :=
  fold_left (fun matrix i => matrix ++ [fillRow str1 str2 (nth (i - 1) matrix []) i])
            (seq 1 (length str2))
            [seq 0 (S (length str1))].

Definition levenshteinDistance (str1 str2 : Text.t) : nat :=
  nth (length str1) (nth (length str2) (levenshteinMatrix str1 str2) []) 0%nat.

Definition calculateStringSimilarity (str1 str2 : Text.t) : number :=
  let longer := if (length str2 <? length str1)%nat then str1 else str2 in
  let shorter := if (length str2 <? length str1)%nat then str2 else str1 in
  if (length longer =? 0)%nat then 1
  else
    let editDistance := levenshteinDistance longer shorter in
    (of_nat (length longer) - of_nat editDistance) / of_nat (length longer).

Definition calculateRelevanceScore (query title : Text.t) (description : option Text.t)
    : number :=
  let score := 0 in
  let queryLower := toLowerCase query in
  let titleLower := toLowerCase title in
  let descLower := match description with
                   | Some d => toLowerCase d
                   | None => []                          (* [description?....|| ''] *)
                   end in
  let score :=
    if decide (titleLower = queryLower) then score + 100
    else if Text.includes titleLower queryLower then score + 80
    else if Text.startsWith titleLower queryLower then score + 60
    else score in
  let score := if Text.includes descLower queryLower then score + 20 else score in
  let score := score + calculateStringSimilarity queryLower titleLower * 40 in
  Math_min 100 score.

(** *** The formula of the specification *)

(** The Wagner-Fischer recurrence: the edit distance between the first [i]
    units of [a] and the first [j] units of [b]. *)
Fixpoint lev_prefix (a b : Text.t) (i j : nat) {struct i} : nat :=
  match i with
  | O => j
  | S i' =>
      (fix along (j : nat) : nat :=
         match j with
         | O => S i'
         | S j' =>
             if decide (nth_error a i' = nth_error b j')
             then lev_prefix a b i' j'
             else S (Nat.min (lev_prefix a b i' j')
                             (Nat.min (along j') (lev_prefix a b i' (S j'))))
         end) j
  end.

Definition levenshtein_spec (a b : Text.t) : nat :=
  lev_prefix a b (length a) (length b).

(** [1 - distance / max (len1, len2)], and [1] for two empty strings. *)
Definition normalizedStringSimilarity (a b : Text.t) : number :=
  let m := Nat.max (length a) (length b) in
  if (m =? 0)%nat then 1
  else 1 - of_nat (levenshtein_spec a b) / of_nat m.

(** The same with one division, as the code computes it:
    [(max (len1, len2) - distance) / max (len1, len2)]. *)
Definition similarity_ratio (a b : Text.t) : number :=
  let m := Nat.max (length a) (length b) in
  if (m =? 0)%nat then 1
  else (of_nat m - of_nat (levenshtein_spec a b)) / of_nat m.

Definition title_points (q t : Text.t) : number :=
  if decide (t = q) then 100
  else if Text.includes t q then 80
  else if Text.startsWith t q then 60
  else 0.

Definition description_points (q : Text.t) (d : option Text.t) : number :=
  match d with
  | Some d => if Text.includes (toLowerCase d) q then 20 else 0
  | None => if Text.includes [] q then 20 else 0
  end.

(** The score as the claim words it: the plain sum of the components, the
    similarity taken on the query and the title as given. *)
Definition claimed_relevance_score (query title : Text.t) (description : option Text.t)
    : number :=
  title_points (toLowerCase query) (toLowerCase title)
  + description_points (toLowerCase query) description
  + 40 * normalizedStringSimilarity query title.

(** The score the code computes: the components on the lower-cased strings,
    capped at 100. *)
Definition relevance_formula (query title : Text.t) (description : option Text.t) : number :=
  Qmin 100
    (title_points (toLowerCase query) (toLowerCase title)
     + description_points (toLowerCase query) description
     + similarity_ratio (toLowerCase query) (toLowerCase title) * 40).

End Relevance.

(** *** The cache in front of a search *)

Local Open Scope eff_scope.
Import Eff.

Definition CACHE_TTL : Z := 1800.
Definition CACHE_KEYS_SEARCH_RESULT : string := "search:result".

(** A search request: [filters] is the object the caller built,
    [undefined] when left out. *)
Record SearchRequest := mkRequest {
  query : Text.t;
  filters : option (list (Text.t * JSON.value));
  userId : option string
}.

Definition buildCacheKey (request : SearchRequest) : Text.t :=
  let filters := match filters request with
                 | Some f => f
                 | None => []                   (* [filters = {}] *)
                 end in
  let object :=
    JSON.Obj [(Text.of_string "query", JSON.Str (query request));
              (Text.of_string "filters", JSON.Obj filters)] in
  let key := (Text.of_string CACHE_KEYS_SEARCH_RESULT ++ Text.of_string ":"
              ++ JSON.stringify object)%list in
  Text.substring 0 250 key.

(** The result of a search: [found] is all of it but the time it took (the
    query, the total, the items of the page, the pagination, the filters,
    the suggestions and the facets). *)
Record SearchResult (Found : Type) := mkResult {
  r_found : Found;
  r_executionTime : Z
}.
Arguments mkResult {Found} r_found r_executionTime.
Arguments r_found {Found} _.
Arguments r_executionTime {Found} _.

Definition with_executionTime {Found : Type} (t : Z) (r : SearchResult Found)
    : SearchResult Found :=
  mkResult (r_found r) t.

Section Search.
Context {Found : Type}.
(** [performSearch], the cut of the page, [getSearchFacets] and
    [getSearchSuggestions]: what is found, computed from the document store
    alone. *)
Variable searching : SearchRequest -> Mongo.t -> outcome Found.
(** The clock, in seconds. *)
Variable now : Z.

(** The stored text of a result stands for the result.  The history of
    searches that [recordSearchHistory] adds to is not part of the store
    here; it catches its own errors. *)
Definition search (request : SearchRequest)
    : M (SearchResult Found) (SearchResult Found) :=
  try_catch
    (let cacheKey := buildCacheKey request in
     let* ready := redis_isReady in
     let* cached :=
       if ready then ask_redis (Redis.get now (Text.utf8 cacheKey)) else ret None in
     match cached with
     | Some result => ret (with_executionTime 0 result)
     | None =>
         let* found := ask_mongo (searching request) in
         let result := mkResult found 0 in
         let* ready := redis_isReady in
         let* _ :=
           if ready
           then write_redis (Redis.set now (Text.utf8 cacheKey) result (Some CACHE_TTL))
           else ret tt in
         ret result
     end)
    (fun error => throw error).
End Search.

(** *** The notions of the specification *)

(** The prefix and the serialized parameters of a search, before the
    cut. *)
Definition parameters (request : SearchRequest) : JSON.value :=
  JSON.Obj [(Text.of_string "query", JSON.Str (query request));
            (Text.of_string "filters",
             JSON.Obj (match filters request with Some f => f | None => [] end))].

Definition fullKey (request : SearchRequest) : Text.t :=
  (Text.of_string "search:result:" ++ JSON.stringify (parameters request))%list.

(** *** Highlights and the order of the hits *)

Section Highlights.
Variable toLowerCase : Text.t -> Text.t.

(** One turn of [for (const text of texts)]. *)
Definition addHighlight (query queryLower : Text.t) (highlights : list Text.t)
    (text : option Text.t) : list Text.t :=
  match Text.truthy text with
  | None => highlights                                      (* [continue] *)
  | Some text =>
      let textLower := toLowerCase text in
      match Text.indexOf textLower queryLower with
      | Some index =>
          let start := Z.max 0 (Z.of_nat index - 20) in
          let end_ := Z.min (Z.of_nat (length text))
                            (Z.of_nat index + Z.of_nat (length query) + 20) in
          let highlight := Text.substring start end_ text in
          let highlight :=
            if (0 <? start)%Z then (Text.of_string "..." ++ highlight)%list else highlight in
          let highlight :=
            if (end_ <? Z.of_nat (length text))%Z
            then (highlight ++ Text.of_string "...")%list
            else highlight in
          (highlights ++ [highlight])%list
      | None => highlights
      end
  end.

Definition generateHighlights (query : Text.t) (texts : list (option Text.t))
    : list Text.t :=
  let queryLower := toLowerCase query in
  fold_left (addHighlight query queryLower) texts [].

(** The texts the query occurs in, whatever the case of the letters. *)
Definition mentions (query : Text.t) (text : option Text.t) : bool :=
  match Text.truthy text with
  | Some text => Text.includes (toLowerCase text) (toLowerCase query)
  | None => false
  end.

End Highlights.

Inductive SearchType := ALL | DRAMA | USER | CATEGORY.
Inductive SortBy := RELEVANCE | RATING | VIEW_COUNT | RELEASE_DATE | CREATED_AT | UPDATED_AT.
Inductive SortOrder := ASC | DESC.

(** The [metadata] of a hit, as far as [sortResults] reads it (the release
    date in milliseconds). *)
Record Metadata := mkMetadata {
  md_rating : option number;
  md_viewCount : option number;
  md_releaseDate : option Z
}.

Record SearchResultItem := mkResultItem {
  i_id : string;
  i_type : SearchType;
  i_title : string;
  i_description : option string;
  i_thumbnail : option string;
  i_score : number;
  i_highlights : list string;
  i_metadata : option Metadata
}.

(** [a.metadata?.field || 0] *)
Definition metadata_or_zero (field : Metadata -> option number) (a : SearchResultItem) : number :=
  match i_metadata a with
  | Some m => or_zero (field m)
  | None => 0
  end.

(** [new Date (a.metadata?.releaseDate || 0).getTime ()] *)
Definition releaseTime (a : SearchResultItem) : number :=
  match i_metadata a with
  | Some m => match md_releaseDate m with Some t => inject_Z t | None => 0 end
  | None => 0
  end.

(** The comparator of [sortResults]. *)
Definition compareResults (sortBy : SortBy) (sortOrder : SortOrder) (a b : SearchResultItem)
    : number :=
  let comparison :=
    match sortBy with
    | RELEVANCE => i_score a - i_score b
    | RATING => metadata_or_zero md_rating a - metadata_or_zero md_rating b
    | VIEW_COUNT => metadata_or_zero md_viewCount a - metadata_or_zero md_viewCount b
    | RELEASE_DATE => releaseTime a - releaseTime b
    | _ => i_score a - i_score b
    end in
  match sortOrder with
  | ASC => comparison
  | DESC => - comparison
  end.

(** [filters.sortBy] and [filters.sortOrder] may be missing. *)
Definition sortResults (results : list SearchResultItem) (filters_sortBy : option SortBy)
    (filters_sortOrder : option SortOrder) : list SearchResultItem :=
  let sortBy := match filters_sortBy with Some s => s | None => RELEVANCE end in
  let sortOrder := match filters_sortOrder with Some o => o | None => DESC end in
  sort (compareResults sortBy sortOrder) results.

(** The number [sortResults] orders the hits by. *)
Definition sortKey (sortBy : option SortBy) (a : SearchResultItem) : number :=
  match sortBy with
  | Some RATING => metadata_or_zero md_rating a
  | Some VIEW_COUNT => metadata_or_zero md_viewCount a
  | Some RELEASE_DATE => releaseTime a
  | _ => i_score a
  end.

End SearchService.

(** ** services/RecommendationService: the two scorers *)

Module RecommendationService.
Import JS.
Local Open Scope Q_scope.

(** [list.find (e => e.key === name)] *)
Definition findEntry (l : list Weighted.t) (name : string) : option Weighted.t :=
  find (fun e => String.eqb (Weighted.key e) name) l.

(** One turn of [for (const tag of drama.tags)]: the weight of the matching
    entry, times [factor], is added to [score]. *)
Definition addMatch (l : list Weighted.t) (factor : number) (score : number) (name : string) : number :=
  match findEntry l name with
  | Some m => score + Weighted.weight m * factor
  | None => score
  end.

Definition calculatePersonalizedScore (drama : Drama.t) (userPreference : UserPreference.t) : number :=
  let score := 0 in
  let score :=
    match findEntry (UserPreference.categories userPreference) (Drama.category drama) with
    | Some categoryMatch => score + Weighted.weight categoryMatch * 40
    | None => score
    end in
  let score :=
    match Drama.tags drama with
    | Some tags => fold_left (addMatch (UserPreference.tags userPreference) 20) tags score
    | None => score
    end in
  let score :=
    match Drama.cast drama with
    | Some cast => fold_left (addMatch (UserPreference.actors userPreference) 15) cast score
    | None => score
    end in
  let ratingDiff :=
    Math_abs (Drama.rating drama - UserPreference.ratingRange_preferred userPreference) in
  let score := score + Math_max 0 (25 - ratingDiff * 5) in
  Math_min 100 score.

(** [arr.includes (x)] on strings. *)
Definition arr_includes (arr : list string) (x : string) : bool :=
  existsb (String.eqb x) arr.

(** [a.filter (x => b.includes (x))] *)
Definition common (a b : list string) : list string :=
  List.filter (fun x => arr_includes b x) a.

Definition calculateSimilarityScore (baseDrama targetDrama : Drama.t) : number :=
  let score := 0 in
  let score :=
    if String.eqb (Drama.category baseDrama) (Drama.category targetDrama)
    then score + 30 else score in
  let score :=
    match Drama.tags baseDrama, Drama.tags targetDrama with
    | Some baseTags, Some targetTags =>
        let commonTags := common baseTags targetTags in
        score + of_nat (length commonTags) * 10
    | _, _ => score
    end in
  let score :=
    match Drama.cast baseDrama, Drama.cast targetDrama with
    | Some baseCast, Some targetCast =>
        let commonCast := common baseCast targetCast in
        score + of_nat (length commonCast) * 15
    | _, _ => score
    end in
  let ratingDiff := Math_abs (Drama.rating baseDrama - Drama.rating targetDrama) in
  let score := score + Math_max 0 (20 - ratingDiff * 4) in
  Math_min 100 score.

(** *** The formulas of the specification *)

(** The weight the list stores for a name: that of its entry of exactly
    that name (of the first one, should the list repeat the name), 0 when it
    has none. *)
Fixpoint storedWeight (l : list Weighted.t) (name : string) : number :=
  match l with
  | [] => 0
  | entry :: rest =>
      if decide (Weighted.key entry = name) then Weighted.weight entry
      else storedWeight rest name
  end.

(** A sum taken term by term from the left, as a loop adds it up. *)
Fixpoint sum_from (start : number) (terms : list number) : number :=
  match terms with
  | [] => start
  | x :: rest => sum_from (start + x) rest
  end.

Definition names (o : option (list string)) : list string :=
  match o with
  | Some l => l
  | None => []
  end.

(** The category term, then the terms of the tags, then those of the
    cast, then the rating term, capped at 100. *)
Definition personalized_formula (drama : Drama.t) (p : UserPreference.t) : number :=
  let categoryTerm := storedWeight (UserPreference.categories p) (Drama.category drama) * 40 in
  let tagTerms :=
    map (fun tag => storedWeight (UserPreference.tags p) tag * 20) (names (Drama.tags drama)) in
  let actorTerms :=
    map (fun actor => storedWeight (UserPreference.actors p) actor * 15)
        (names (Drama.cast drama)) in
  let ratingTerm :=
    Qmax 0 (25 - 5 * Qabs (Drama.rating drama - UserPreference.ratingRange_preferred p)) in
  Qmin 100 (sum_from (sum_from categoryTerm tagTerms) actorTerms + ratingTerm).

(** Every name of the seed's list is in the candidate's list, and back. *)
Definition full_overlap (a b : option (list string)) : Prop :=
  exists la lb, a = Some la /\ b = Some lb /\ forall x, In x la <-> In x lb.

(** No name of the seed's list is in the candidate's list. *)
Definition no_overlap (a b : option (list string)) : Prop :=
  forall la lb, a = Some la -> b = Some lb -> forall x, In x la -> ~ In x lb.

(** *** The cache in front of the strategies *)

Local Open Scope eff_scope.
Import Eff.

Definition CACHE_TTL : Z := 3600.
Definition CACHE_KEYS_RECOMMENDATION : string := "recommendation".

Inductive RecommendationType :=
| PERSONALIZED | SIMILAR | TRENDING | HOT | NEW | CATEGORY_BASED | COLLABORATIVE
| CONTENT_BASED.

(** The string value of the enum member. *)
Definition typeValue (t : RecommendationType) : string :=
  match t with
  | PERSONALIZED => "personalized"
  | SIMILAR => "similar"
  | TRENDING => "trending"
  | HOT => "hot"
  | NEW => "new"
  | CATEGORY_BASED => "category_based"
  | COLLABORATIVE => "collaborative"
  | CONTENT_BASED => "content_based"
  end.

Record RecommendationRequest := mkRequest {
  userId : option Text.t;
  dramaId : option Text.t;
  type : RecommendationType;
  limit : option integer;
  excludeWatched : option bool;
  categories : option (list Text.t)
}.

Record RecommendationItem := mkItem {
  i_drama : Drama.t;
  i_score : number;
  i_reason : string;
  i_type : RecommendationType
}.

Record RecommendationResult := mkResult {
  r_type : RecommendationType;
  r_items : list RecommendationItem;
  r_total : nat;
  r_userId : option Text.t;
  r_generatedAt : Z;
  r_algorithm : string;
  r_executionTime : Z
}.

Definition with_executionTime (t : Z) (r : RecommendationResult) : RecommendationResult :=
  mkResult (r_type r) (r_items r) (r_total r) (r_userId r) (r_generatedAt r)
    (r_algorithm r) t.

Definition buildCacheKey (request : RecommendationRequest) : Text.t :=
  let object :=
    JSON.Obj
      (JSON.property "userId" (option_map JSON.Str (userId request))
       ++ JSON.property "dramaId" (option_map JSON.Str (dramaId request))
       ++ JSON.property "type" (Some (JSON.Str (Text.of_string (typeValue (type request)))))
       ++ JSON.property "limit" (option_map JSON.integer (limit request))
       ++ JSON.property "excludeWatched" (option_map JSON.Bool (excludeWatched request))
       ++ JSON.property "categories"
            (option_map (fun l => JSON.Arr (map JSON.Str l)) (categories request))) in
  let key := (Text.of_string CACHE_KEYS_RECOMMENDATION ++ Text.of_string ":"
              ++ JSON.stringify object)%list in
  Text.substring 0 250 key.

Section Cache.
(** The [switch (type)] over the strategies: the items and the name of
    the algorithm, computed from the document store alone. *)
Variable strategies :
  RecommendationRequest -> Mongo.t -> outcome (list RecommendationItem * string).
(** The clock, in seconds. *)
Variable now : Z.

(** The stored text of a result stands for the result: [JSON.parse] of
    [JSON.stringify (result)]. *)
Definition getRecommendations (request : RecommendationRequest)
    : M RecommendationResult RecommendationResult :=
  try_catch
    (let cacheKey := buildCacheKey request in
     let* ready := redis_isReady in
     let* cached :=
       if ready then ask_redis (Redis.get now (Text.utf8 cacheKey)) else ret None in
     match cached with
     | Some result => ret (with_executionTime 0 result)
     | None =>
         let* computed := ask_mongo (strategies request) in
         let result :=
           mkResult (type request) (fst computed) (length (fst computed))
             (userId request) now (snd computed) 0 in
         let* ready := redis_isReady in
         let* _ :=
           if ready
           then write_redis (Redis.set now (Text.utf8 cacheKey) result (Some CACHE_TTL))
           else ret tt in
         ret result
     end)
    (fun error => throw error).
End Cache.

(** *** The notions of the specification *)

(** The serialized parameters of a request: the six properties in the
    order of the code, those that are [undefined] left out; and the prefix
    with them, before the cut. *)
Definition parameters (request : RecommendationRequest) : JSON.value :=
  JSON.Obj
    (match userId request with
     | Some u => [(Text.of_string "userId", JSON.Str u)]
     | None => []
     end
     ++ match dramaId request with
        | Some d => [(Text.of_string "dramaId", JSON.Str d)]
        | None => []
        end
     ++ [(Text.of_string "type", JSON.Str (Text.of_string (typeValue (type request))))]
     ++ match limit request with
        | Some (Int n) => [(Text.of_string "limit", JSON.Num n)]
        | Some NaN => [(Text.of_string "limit", JSON.Null)]
        | None => []
        end
     ++ match excludeWatched request with
        | Some b => [(Text.of_string "excludeWatched", JSON.Bool b)]
        | None => []
        end
     ++ match categories request with
        | Some names => [(Text.of_string "categories", JSON.Arr (map JSON.Str names))]
        | None => []
        end)%list.

Definition fullKey (request : RecommendationRequest) : Text.t :=
  (Text.of_string "recommendation:" ++ JSON.stringify (parameters request))%list.

(** The result computed for a request whose key is not in the cache. *)
Definition fresh_result (now : Z) (request : RecommendationRequest)
    (computed : list RecommendationItem * string) : RecommendationResult :=
  mkResult (type request) (fst computed) (length (fst computed)) (userId request) now
    (snd computed) 0.

(** The cache once [result] is stored under [key] at [now]. *)
Definition cached_under (now : Z) (key : string) (result : RecommendationResult)
    (r : Redis.t RecommendationResult) : Redis.t RecommendationResult :=
  Redis.mk (Redis.isConnected r)
    (<[key := (result, Some (now + CACHE_TTL)%Z)]> (Redis.entries r)).

(** *** The strategies *)

Definition REASON_HOT : string := "热门推荐，高评分高人气".

(** [reasons.join ('，')] *)
Definition join_reasons (reasons : list string) : string := String.concat "，" reasons.

Definition generatePersonalizedReason (drama : Drama.t) (userPreference : UserPreference.t)
    : string :=
  let reasons := [] in
  let categoryMatch := findEntry (UserPreference.categories userPreference)
                                 (Drama.category drama) in
  let reasons :=
    match categoryMatch with
    | Some m =>
        if negb (Qle_bool (Weighted.weight m) (5 # 10))
        then reasons ++ [("您喜欢" ++ Drama.category drama ++ "类型")%string]
        else reasons
    | None => reasons
    end in
  let reasons :=
    if Qle_bool (UserPreference.ratingRange_preferred userPreference) (Drama.rating drama)
    then reasons ++ ["高评分作品"%string]
    else reasons in
  let reasons := if (length reasons =? 0)%nat then reasons ++ ["为您推荐"%string] else reasons in
  join_reasons reasons.

Definition generateSimilarityReason (baseDrama targetDrama : Drama.t) : string :=
  let reasons := [] in
  let reasons :=
    if String.eqb (Drama.category baseDrama) (Drama.category targetDrama)
    then reasons ++ [("同为" ++ Drama.category baseDrama ++ "类型")%string]
    else reasons in
  let reasons :=
    match Drama.cast baseDrama, Drama.cast targetDrama with
    | Some baseCast, Some targetCast =>
        match common baseCast targetCast with
        | first :: _ => reasons ++ [("相同演员：" ++ first)%string]
        | [] => reasons
        end
    | _, _ => reasons
    end in
  let reasons :=
    if (length reasons =? 0)%nat then reasons ++ ["相似内容推荐"%string] else reasons in
  join_reasons reasons.

(** [{ field: { $in: values } }] on an array field: some element of the
    array is one of the values; a document without the field does not
    match. *)
Definition array_in (field : option (list string)) (values : list string) : bool :=
  match field with
  | Some elements => existsb (arr_includes values) elements
  | None => false
  end.

(** [(a, b) => b.score - a.score] *)
Definition by_score_desc (a b : RecommendationItem) : number := i_score b - i_score a.

Section Strategies.
Variable log10 : number -> number.

(** The query of the hot strategy. *)
Definition hotQuery (categories : option (list string)) (d : Drama.t) : bool :=
  Drama.isHot d
  && match categories with
     | Some (c :: cs) => arr_includes (c :: cs) (Drama.category d)
     | _ => true
     end.

Definition getHotRecommendations (limit : nat) (categories : option (list string))
    (db : Mongo.t) : list RecommendationItem :=
  match Mongo.Drama_find (hotQuery categories) db with
  | Throw _ => []                               (* catch: log, return [] *)
  | Ret dramas =>
      let dramas := Mongo.limit limit (Mongo.sort_desc2 Drama.rating Drama.viewCount dramas) in
      map (fun drama =>
             mkItem drama (Drama.rating drama * 10 + log10 (Drama.viewCount drama + 1))
               REASON_HOT HOT)
          dramas
  end.

(** The names of the entries that weigh more than 0.3. *)
Definition preferred (l : list Weighted.t) : list string :=
  map Weighted.key (List.filter (fun e => negb (Qle_bool (Weighted.weight e) (3 # 10))) l).

(** The query built from the stored preference. *)
Definition personalizedQuery (userPreference : UserPreference.t) (d : Drama.t) : bool :=
  match preferred (UserPreference.categories userPreference) with
  | [] => true
  | preferredCategories => arr_includes preferredCategories (Drama.category d)
  end
  && (if negb (Qle_bool (UserPreference.ratingRange_preferred userPreference) 0)
      then Qle_bool (Math_max 0 (UserPreference.ratingRange_preferred userPreference - 1))
                    (Drama.rating d)
      else true)
  && match preferred (UserPreference.tags userPreference) with
     | [] => true
     | preferredTags => array_in (Drama.tags d) preferredTags
     end.

Definition getPersonalizedRecommendations (userId : string) (limit : nat)
    (excludeWatched : bool) (db : Mongo.t) : list RecommendationItem :=
  match Mongo.UserPreference_findOne userId db with
  | Throw _ => getHotRecommendations limit None db          (* catch *)
  | Ret None => getHotRecommendations limit None db
  | Ret (Some userPreference) =>
      match Mongo.Drama_find (personalizedQuery userPreference) db with
      | Throw _ => getHotRecommendations limit None db      (* catch *)
      | Ret dramas =>
          let dramas := Mongo.limit (limit * 2) dramas in
          let scoredDramas :=
            map (fun drama =>
                   mkItem drama (calculatePersonalizedScore drama userPreference)
                     (generatePersonalizedReason drama userPreference) PERSONALIZED)
                dramas in
          slice0 limit (sort by_score_desc scoredDramas)
      end
  end.

(** The query of the similar strategy. *)
Definition similarQuery (dramaId : string) (baseDrama : Drama.t) (d : Drama.t) : bool :=
  negb (Mongo.same_id (Drama._id d) dramaId)
  && (String.eqb (Drama.category d) (Drama.category baseDrama)
      || array_in (Drama.tags d) (names (Drama.tags baseDrama))
      || array_in (Drama.cast d) (names (Drama.cast baseDrama))).

Definition getSimilarRecommendations (dramaId : string) (limit : nat) (db : Mongo.t)
    : list RecommendationItem :=
  match Mongo.Drama_findById dramaId db with
  | Throw _ => []                               (* catch: log, return [] *)
  | Ret None => []
  | Ret (Some baseDrama) =>
      match Mongo.Drama_find (similarQuery dramaId baseDrama) db with
      | Throw _ => []
      | Ret similarDramas =>
          let similarDramas := Mongo.limit (limit * 2) similarDramas in
          let scoredDramas :=
            map (fun drama =>
                   mkItem drama (calculateSimilarityScore baseDrama drama)
                     (generateSimilarityReason baseDrama drama) SIMILAR)
                similarDramas in
          slice0 limit (sort by_score_desc scoredDramas)
      end
  end.

End Strategies.

End RecommendationService.

(** ** services/RankingService *)

Module RankingService.
Import JS.
Local Open Scope Q_scope.

Inductive RankingType := DAILY | WEEKLY | MONTHLY | ALL_TIME.

Record Period := mkPeriod { start : Z; end_ : Z }.

Record Weights := mkWeights {
  w_viewCount : number;
  w_rating : number;
  w_commentCount : number;
  w_favoriteCount : number
}.

Record Metrics := mkMetrics {
  m_viewCount : number;
  m_rating : number;
  m_commentCount : number;
  m_favoriteCount : number
}.

Record Scored := mkScored {
  s_drama : Drama.t;
  s_score : number;
  s_metrics : Metrics
}.

Record RankingItem := mkItem {
  rank : nat;
  drama : Drama.t;
  score : number;
  change : Z;
  metrics : Metrics
}.

(** The weights after the [switch (type)] that adjusts the defaults. *)
Definition weightsFor (type : RankingType) : Weights :=
  match type with
  | DAILY | WEEKLY => mkWeights (5 # 10) (1 # 10) (2 # 10) (2 # 10)
  | MONTHLY => mkWeights (4 # 10) (3 # 10) (15 # 100) (15 # 100)
  | ALL_TIME => mkWeights (2 # 10) (4 # 10) (1 # 10) (3 # 10)
  end.

Definition calculateTimeDecay (now updatedAt : Z) (type : RankingType) : number :=
  let hoursDiff := inject_Z (now - updatedAt) / inject_Z (1000 * 60 * 60) in
  match type with
  | DAILY => Math_max (5 # 10) (1 - hoursDiff / 48)
  | WEEKLY => Math_max (7 # 10) (1 - hoursDiff / inject_Z (7 * 24 * 2))
  | _ => 1
  end.

Section WithLog10.
(** [Math.log10], which has no rational values to compute with. *)
Variable log10 : number -> number.

Definition calculateRankingScore (now : Z) (drama : Drama.t) (type : RankingType) : number :=
  let score := 0 in
  let weights := weightsFor type in
  let score := score + log10 (Drama.viewCount drama + 1) * w_viewCount weights * 20 in
  let score := score + Drama.rating drama * w_rating weights * 10 in
  let score :=
    score + log10 (or_zero (Drama.commentCount drama) + 1) * w_commentCount weights * 15 in
  let score :=
    score + log10 (or_zero (Drama.favoriteCount drama) + 1) * w_favoriteCount weights * 15 in
  let score :=
    match type with
    | DAILY | WEEKLY =>
        let timeDecay := calculateTimeDecay now (Drama.updatedAt drama) type in
        score * timeDecay
    | _ => score
    end in
  let score := if Drama.isHot drama then score * (11 # 10) else score in
  let score := if Drama.isNewDrama drama then score * (105 # 100) else score in
  Math_round (score * 100) / 100.

(** The query of [calculateRanking]: the category when one is given, and
    the window unless the ranking is all-time. *)
Definition rankingQuery (type : RankingType) (period : Period) (category : option string)
    (d : Drama.t) : bool :=
  match truthy category with
  | Some c => String.eqb (Drama.category d) c
  | None => true
  end
  &&
  match type with
  | ALL_TIME => true
  | _ => (start period <=? Drama.updatedAt d)%Z && (Drama.updatedAt d <=? end_ period)%Z
  end.

Definition calculateRanking (now : Z) (db : Mongo.t) (type : RankingType) (period : Period)
    (category : option string) (limit : integer) : list RankingItem :=
  match Mongo.Drama_find (rankingQuery type period category) db with
  | Throw _ => []                            (* catch: log, return [] *)
  | Ret dramas =>
      let scoredDramas :=
        map (fun drama =>
               mkScored drama (calculateRankingScore now drama type)
                 (mkMetrics (Drama.viewCount drama) (Drama.rating drama)
                    (or_zero (Drama.commentCount drama))
                    (or_zero (Drama.favoriteCount drama))))
            dramas in
      let scoredDramas := sort (fun a b => s_score b - s_score a) scoredDramas in
      map_index (fun item index =>
                   mkItem (index + 1) (s_drama item) (s_score item) 0 (s_metrics item))
                (slice_to limit scoredDramas)
  end.

(** *** The formulas of the specification *)

Definition hoursSinceUpdate (now : Z) (d : Drama.t) : number :=
  inject_Z (now - Drama.updatedAt d) / 3600000.

(** The weighted blend of views, rating, comments and favourites. *)
Definition blend (d : Drama.t) (type : RankingType) : number :=
  let w := weightsFor type in
  log10 (Drama.viewCount d + 1) * w_viewCount w * 20
  + Drama.rating d * w_rating w * 10
  + log10 (or_zero (Drama.commentCount d) + 1) * w_commentCount w * 15
  + log10 (or_zero (Drama.favoriteCount d) + 1) * w_favoriteCount w * 15.

Definition boost (d : Drama.t) : number :=
  (if Drama.isHot d then 11 # 10 else 1) * (if Drama.isNewDrama d then 105 # 100 else 1).

(** The ranks as the claim words them: [1, .., min (limit, candidates)]. *)
Definition claimed_ranks (limit : Z) (candidates : nat) : list nat :=
  seq 1 (Z.to_nat (Z.min limit (Z.of_nat candidates))).

(** The documents the ranking query returned (none when it failed). *)
Definition candidates (db : Mongo.t) (type : RankingType) (period : Period)
    (category : option string) : list Drama.t :=
  match Mongo.Drama_find (rankingQuery type period category) db with
  | Ret dramas => dramas
  | Throw _ => []
  end.

End WithLog10.
(** The callback of the final [map] of [calculateRanking]: the item of rank
    [index + 1]. *)
Definition rankItem (item : Scored) (index : nat) : RankingItem :=
  mkItem (index + 1) (s_drama item) (s_score item) 0 (s_metrics item).

(** *** The cache in front of the ranking *)

Import Eff.
Local Open Scope eff_scope.

Definition CACHE_TTL : Z := 7200.
Definition CACHE_KEYS_RANKING : string := "ranking".
Definition CACHE_KEYS_CATEGORY_RANKING : string := "ranking:category".

(** The string value of the enum member. *)
Definition typeValue (type : RankingType) : string :=
  match type with
  | DAILY => "daily"
  | WEEKLY => "weekly"
  | MONTHLY => "monthly"
  | ALL_TIME => "all_time"
  end.

Record RankingResult := mkResult {
  r_type : RankingType;
  r_category : option string;
  r_items : list RankingItem;
  r_generatedAt : Z;
  r_period : Period
}.

(** The cache key of [getRanking]. *)
Definition rankingCacheKey (type : RankingType) (category : option string) (limit : integer)
    : string :=
  (CACHE_KEYS_RANKING ++ ":" ++ typeValue type ++ ":"
   ++ match truthy category with Some c => c | None => "all" end
   ++ ":" ++ integer_toString limit)%string.

Section Cache.
Variable log10 : number -> number.
(** [calculatePeriod]: the window that ends at the given instant, by the
    calendar of the server. *)
Variable calculatePeriod : Z -> RankingType -> Period.
(** The clock, in milliseconds; the cache counts in seconds. *)
Variable now : Z.

(** The stored text of a result stands for the result. *)
Definition getRanking (type : RankingType) (category : option string)
    (limit : option integer) : M RankingResult RankingResult :=
  let limit := match limit with Some n => n | None => Int 20 end in
  try_catch
    (let cacheKey := rankingCacheKey type category limit in
     let* ready := redis_isReady in
     let* cached :=
       if ready then ask_redis (Redis.get (now / 1000) cacheKey) else ret None in
     match cached with
     | Some result => ret result
     | None =>
         let period := calculatePeriod now type in
         let* items :=
           (fun w => (Ret (calculateRanking log10 now (World.mongo w) type period category
                             limit), w)) in
         let result := mkResult type category items now period in
         let* ready := redis_isReady in
         let* _ :=
           if ready
           then write_redis (Redis.set (now / 1000) cacheKey result (Some CACHE_TTL))
           else ret tt in
         ret result
     end)
    (fun error => throw error).

End Cache.

(** The keys [clearRankingCache] deletes. *)
Definition keyPatterns : list string :=
  [ (CACHE_KEYS_RANKING ++ ":daily")%string;
    (CACHE_KEYS_RANKING ++ ":weekly")%string;
    (CACHE_KEYS_RANKING ++ ":monthly")%string;
    (CACHE_KEYS_RANKING ++ ":all_time")%string;
    (CACHE_KEYS_CATEGORY_RANKING ++ ":daily")%string;
    (CACHE_KEYS_CATEGORY_RANKING ++ ":weekly")%string;
    (CACHE_KEYS_CATEGORY_RANKING ++ ":monthly")%string;
    (CACHE_KEYS_CATEGORY_RANKING ++ ":all_time")%string ].

Definition clearRankingCache {V : Type} : M V unit :=
  let* ready := redis_isReady in
  if negb ready then ret tt
  else
    try_catch
      (for_each keyPatterns (fun key => write_redis (Redis.del key)))
      (fun _ => ret tt).

(** A drama with another rating. *)
Definition with_rating (rating : number) (d : Drama.t) : Drama.t :=
  Drama.mk (Drama._id d) (Drama.title d) (Drama.description d) (Drama.category d)
    (Drama.tags d) rating (Drama.viewCount d) (Drama.cast d) (Drama.commentCount d)
    (Drama.favoriteCount d) (Drama.isHot d) (Drama.isNewDrama d) (Drama.updatedAt d).

End RankingService.

(** ** services/CategoryService and the [deleteOne] hook of models/Category *)

Module CategoryService.
Import Eff.
Local Open Scope eff_scope.

Definition CACHE_KEYS : list string :=
  ["categories:active"; "categories:all"; "categories:stats"]%string.

Definition quote : string := String (ascii_of_nat 34) EmptyString.

Definition string_of_nat (n : nat) : string := NilZero.string_of_uint (Nat.to_uint n).

Definition inUseMessage (name : string) (dramaCount : nat) : string :=
  ("无法删除分类 " ++ quote ++ name ++ quote ++ "，因为还有 "
   ++ string_of_nat dramaCount ++ " 部短剧使用此分类")%string.

(** [{ category: name }] *)
Definition references (name : string) (d : Drama.t) : bool :=
  String.eqb (Drama.category d) name.

(** [CategorySchema.pre ('deleteOne', ...)]: the document middleware that
    refuses the deletion while a drama uses the category. *)
Definition preDeleteOne {V : Type} (this : Category.t) : M V unit :=
  let* dramaCount :=
    ask_mongo (Mongo.Drama_countDocuments (references (Category.name this))) in
  if (0 <? dramaCount)%nat
  then throw (inUseMessage (Category.name this) dramaCount)
  else ret tt.

(** [category.deleteOne ()] on the document found under [id]. *)
Definition deleteOne {V : Type} (id : string) (this : Category.t) : M V unit :=
  let* _ := preDeleteOne this in
  write_mongo (Mongo.Category_remove id).

Definition clearCache {V : Type} : M V unit :=
  let* ready := redis_isReady in
  if negb ready then ret tt
  else
    try_catch
      (for_each CACHE_KEYS (fun key => write_redis (Redis.del key)))
      (fun _ => ret tt).

Definition deleteCategory {V : Type} (id : string) : M V bool :=
  try_catch
    (let* category := ask_mongo (Mongo.Category_findById id) in
     match category with
     | None => ret false
     | Some category =>
         let* _ := deleteOne id category in
         let* _ := clearCache in
         ret true
     end)
    (fun error => throw error).

(** *** The notions of the specification *)

(** Some content item's category field is the name of [c]. *)
Definition referenced {V : Type} (w : World.t V) (c : Category.t) : Prop :=
  exists d, In d (Mongo.dramas (World.mongo w)) /\ Drama.category d = Category.name c.

(** The number of content items that use the category's name. *)
Definition uses {V : Type} (w : World.t V) (c : Category.t) : nat :=
  length (List.filter (references (Category.name c)) (Mongo.dramas (World.mongo w))).

(** The world once the category document [id] is removed. *)
Definition without_category {V : Type} (id : string) (w : World.t V) : World.t V :=
  World.mk
    (Mongo.mk (Mongo.connected (World.mongo w)) (Mongo.dramas (World.mongo w))
       (delete id (Mongo.categories (World.mongo w)))
       (Mongo.preferences (World.mongo w)) (Mongo.users (World.mongo w))
       (Mongo.sessions (World.mongo w)))
    (World.cache w).

(** *** Reading through the cache, and the switch of a category *)

Definition CACHE_TTL : Z := 3600.
Definition CACHE_KEYS_ACTIVE_CATEGORIES : string := "categories:active".
Definition CACHE_KEYS_ALL_CATEGORIES : string := "categories:all".

Section Lists.
(** The clock, in seconds. *)
Variable now : Z.

(** The stored text of a list stands for the list. *)
Definition getActiveCategories : M (list Category.t) (list Category.t) :=
  try_catch
    (let cacheKey := CACHE_KEYS_ACTIVE_CATEGORIES in
     let* ready := redis_isReady in
     let* cached := if ready then ask_redis (Redis.get now cacheKey) else ret None in
     match cached with
     | Some categories => ret categories
     | None =>
         let* categories := ask_mongo (Mongo.Category_find_sorted Category.isActive) in
         let* ready := redis_isReady in
         let* _ :=
           if ready then write_redis (Redis.set now cacheKey categories (Some CACHE_TTL))
           else ret tt in
         ret categories
     end)
    (fun error => throw error).

Definition getAllCategories : M (list Category.t) (list Category.t) :=
  try_catch
    (let cacheKey := CACHE_KEYS_ALL_CATEGORIES in
     let* ready := redis_isReady in
     let* cached := if ready then ask_redis (Redis.get now cacheKey) else ret None in
     match cached with
     | Some categories => ret categories
     | None =>
         let* categories := ask_mongo (Mongo.Category_find_sorted (fun _ => true)) in
         let* ready := redis_isReady in
         let* _ :=
           if ready then write_redis (Redis.set now cacheKey categories (Some CACHE_TTL))
           else ret tt in
         ret categories
     end)
    (fun error => throw error).

End Lists.

Definition with_isActive (isActive : bool) (c : Category.t) : Category.t :=
  Category.mk (Category._id c) (Category.name c) (Category.color c) (Category.description c)
    (Category.sortOrder c) isActive.

Definition toggleCategoryStatus {V : Type} (id : string) : M V (option Category.t) :=
  try_catch
    (let* category := ask_mongo (Mongo.Category_findById id) in
     match category with
     | None => ret None
     | Some category =>
         let category := with_isActive (negb (Category.isActive category)) category in
         let* _ := write_mongo (Mongo.Category_save id category) in
         let* _ := clearCache in
         ret (Some category)
     end)
    (fun error => throw error).

(** The active categories of the store, as a query for them returns them. *)
Definition activeCategories (db : Mongo.t) : list Category.t :=
  Mongo.sort_by Mongo.by_sortOrder_name
    (List.filter Category.isActive (map snd (map_to_list (Mongo.categories db)))).

(** All the categories of the store, as a query for them returns them. *)
Definition allCategories (db : Mongo.t) : list Category.t :=
  Mongo.sort_by Mongo.by_sortOrder_name
    (List.filter (fun _ => true) (map snd (map_to_list (Mongo.categories db)))).

(** The world after [clearCache]. *)
Definition cleared {V : Type} (w : World.t V) : World.t V :=
  if Redis.isReady (World.cache w)
  then World.mk (World.mongo w) (Redis.without_keys CACHE_KEYS (World.cache w))
  else w.

(** The world after a category was saved under [id] and the cache
    cleared. *)
Definition saved {V : Type} (id : string) (c : Category.t) (w : World.t V) : World.t V :=
  cleared
    (World.mk
       (Mongo.mk (Mongo.connected (World.mongo w)) (Mongo.dramas (World.mongo w))
          (<[id := c]> (Mongo.categories (World.mongo w)))
          (Mongo.preferences (World.mongo w)) (Mongo.users (World.mongo w))
          (Mongo.sessions (World.mongo w)))
       (World.cache w)).

End CategoryService.

(** ** services/DramaService: the detail of a drama and its view count *)

Module DramaService.
Import JS Eff.
Local Open Scope eff_scope.

Definition CACHE_TTL : Z := 1800.
Definition CACHE_KEYS_DRAMA_LIST : string := "drama:list".
Definition CACHE_KEYS_DRAMA_DETAIL : string := "drama:detail".
Definition CACHE_KEYS_HOT_DRAMAS : string := "drama:hot".
Definition CACHE_KEYS_NEW_DRAMAS : string := "drama:new".
Definition CACHE_KEYS_TRENDING_DRAMAS : string := "drama:trending".

(** The cache key of [getDramaById]. *)
Definition detailCacheKey (id : string) : string :=
  (CACHE_KEYS_DRAMA_DETAIL ++ ":" ++ id)%string.

(** The cache key of [getDramas]: [JSON.stringify] of the object
    [{ query, sort, skip, limit }]. *)
Definition listCacheKey (parameters : list (Text.t * JSON.value)) : string :=
  Text.utf8 (Text.of_string CACHE_KEYS_DRAMA_LIST ++ Text.of_string ":"
             ++ JSON.stringify (JSON.Obj parameters))%list.

(** The cache keys of [getNewDramas] and [getTrendingDramas]. *)
Definition newCacheKey (limit : nat) : string :=
  (CACHE_KEYS_NEW_DRAMAS ++ ":" ++ toString (Some limit))%string.

Definition trendingCacheKey (limit : nat) : string :=
  (CACHE_KEYS_TRENDING_DRAMAS ++ ":" ++ toString (Some limit))%string.

Section Service.
(** The clock, in seconds. *)
Variable now : Z.

(** The stored text of a drama stands for the drama. *)
Definition getDramaById (id : string) : M Drama.t (option Drama.t) :=
  try_catch
    (let cacheKey := detailCacheKey id in
     let* ready := redis_isReady in
     let* cached := if ready then ask_redis (Redis.get now cacheKey) else ret None in
     match cached with
     | Some drama => ret (Some drama)
     | None =>
         let* drama := ask_mongo (Mongo.Drama_findById id) in
         let* _ :=
           match drama with
           | Some d =>
               let* ready := redis_isReady in
               if ready then write_redis (Redis.set now cacheKey d (Some CACHE_TTL))
               else ret tt
           | None => ret tt
           end in
         ret drama
     end)
    (fun error => throw error).

End Service.

(** The keys [incrementViewCount] deletes. *)
Definition patterns (id : string) : list string :=
  [ (CACHE_KEYS_DRAMA_DETAIL ++ ":" ++ id)%string;
    (CACHE_KEYS_DRAMA_LIST ++ ":*")%string;
    (CACHE_KEYS_HOT_DRAMAS ++ ":*")%string;
    (CACHE_KEYS_TRENDING_DRAMAS ++ ":*")%string ].

(** [now] is the clock, in seconds. *)
Definition incrementViewCount {V : Type} (now : Z) (id : string) : M V unit :=
  try_catch
    (let* _ := write_mongo (Mongo.Drama_incViewCount (now * 1000) id) in
     let* ready := redis_isReady in
     if ready
     then for_each (patterns id) (fun pattern => write_redis (Redis.del pattern))
     else ret tt)
    (fun error => throw error).

End DramaService.

(** ** models/UserPreference: the update methods *)

Module UserPreferenceModel.
Import JS Eff.
Local Open Scope Q_scope.
Local Open Scope eff_scope.

Definition with_categories (l : list Weighted.t) (p : UserPreference.t) : UserPreference.t :=
  UserPreference.mk (UserPreference.userId p) l (UserPreference.tags p)
    (UserPreference.actors p) (UserPreference.ratingRange_min p)
    (UserPreference.ratingRange_max p) (UserPreference.ratingRange_preferred p)
    (UserPreference.viewingTime_totalMinutes p) (UserPreference.viewingTime_averageSession p)
    (UserPreference.viewingTime_preferredDuration p) (UserPreference.lastUpdated p).

Definition with_tags (l : list Weighted.t) (p : UserPreference.t) : UserPreference.t :=
  UserPreference.mk (UserPreference.userId p) (UserPreference.categories p) l
    (UserPreference.actors p) (UserPreference.ratingRange_min p)
    (UserPreference.ratingRange_max p) (UserPreference.ratingRange_preferred p)
    (UserPreference.viewingTime_totalMinutes p) (UserPreference.viewingTime_averageSession p)
    (UserPreference.viewingTime_preferredDuration p) (UserPreference.lastUpdated p).

Definition with_actors (l : list Weighted.t) (p : UserPreference.t) : UserPreference.t :=
  UserPreference.mk (UserPreference.userId p) (UserPreference.categories p)
    (UserPreference.tags p) l (UserPreference.ratingRange_min p)
    (UserPreference.ratingRange_max p) (UserPreference.ratingRange_preferred p)
    (UserPreference.viewingTime_totalMinutes p) (UserPreference.viewingTime_averageSession p)
    (UserPreference.viewingTime_preferredDuration p) (UserPreference.lastUpdated p).

Definition with_lastUpdated (now : Z) (p : UserPreference.t) : UserPreference.t :=
  UserPreference.mk (UserPreference.userId p) (UserPreference.categories p)
    (UserPreference.tags p) (UserPreference.actors p) (UserPreference.ratingRange_min p)
    (UserPreference.ratingRange_max p) (UserPreference.ratingRange_preferred p)
    (UserPreference.viewingTime_totalMinutes p) (UserPreference.viewingTime_averageSession p)
    (UserPreference.viewingTime_preferredDuration p) now.

(** [e => e.key === name] *)
Definition has_key (name : string) (e : Weighted.t) : bool :=
  String.eqb (Weighted.key e) name.

Definition set_weight (w : number) (e : Weighted.t) : Weighted.t :=
  Weighted.mk (Weighted.key e) w.

(** [(a, b) => b.weight - a.weight] *)
Definition by_weight_desc (a b : Weighted.t) : number :=
  Weighted.weight b - Weighted.weight a.

(** The first half of [updateCategoryPreference] and [updateTagPreference]:
    the entry of [name] gets the clamped weight, a new entry is pushed when
    there is none.  The schema declares the names [trim: true], so the
    entry pushed holds the name trimmed. *)
Definition putWeight (name : string) (weight : number) (l : list Weighted.t) : list Weighted.t :=
  let existingIndex := findIndex (has_key name) l in
  match existingIndex with
  | Some i => alter (set_weight (Math_min 1 (Math_max 0 weight))) i l
  | None => l ++ [Weighted.mk (trim name) (Math_min 1 (Math_max 0 weight))]
  end.

(** The second half: [if (l.length > n) { l.sort (...); l = l.slice (0, n) }]. *)
Definition keepTop (n : nat) (l : list Weighted.t) : list Weighted.t :=
  if (n <? length l)%nat then slice0 n (sort by_weight_desc l) else l.

Definition updateCategoryPreference (now : Z) (category : string) (weight : number)
    (this : UserPreference.t) : UserPreference.t :=
  let categories := putWeight category weight (UserPreference.categories this) in
  let categories := keepTop 10 categories in
  with_lastUpdated now (with_categories categories this).

Definition updateTagPreference (now : Z) (tag : string) (weight : number)
    (this : UserPreference.t) : UserPreference.t :=
  let tags := putWeight tag weight (UserPreference.tags this) in
  let tags := keepTop 20 tags in
  with_lastUpdated now (with_tags tags this).

Inductive Action := view | like | favorite | complete.

Definition actionWeights (action : Action) : number :=
  match action with
  | view => 1 # 10
  | like => 3 # 10
  | favorite => 5 # 10
  | complete => 7 # 10
  end.

(** One turn of [drama.cast.forEach]. *)
Definition bumpActor (weight : number) (actors : list Weighted.t) (actor : string)
    : list Weighted.t :=
  let existingIndex := findIndex (has_key actor) actors in
  match existingIndex with
  | Some i =>
      alter (fun e => set_weight (Math_min 1 (Weighted.weight e + weight * (6 # 10))) e) i actors
  | None => actors ++ [Weighted.mk (trim actor) (weight * (6 # 10))]
  end.

(** The body of [updatePreferenceFromDrama] between the load and the save. *)
Definition applyDrama (now : Z) (drama : Drama.t) (action : Action)
    (preference : UserPreference.t) : UserPreference.t :=
  let weight := actionWeights action in
  let preference :=
    match Drama.category drama with
    | EmptyString => preference
    | category => updateCategoryPreference now category weight preference
    end in
  let preference :=
    match Drama.tags drama with
    | Some tags =>
        fold_left (fun p tag => updateTagPreference now tag (weight * (8 # 10)) p)
                  tags preference
    | None => preference
    end in
  match Drama.cast drama with
  | Some cast =>
      let actors := fold_left (bumpActor weight) cast (UserPreference.actors preference) in
      with_actors (keepTop 15 actors) preference
  | None => preference
  end.

Definition fresh (now : Z) (userId : string) : UserPreference.t :=
  UserPreference.mk userId [] [] [] 0 10 8 0 0 30 now.

Definition getOrCreateUserPreference {V : Type} (now : Z) (userId : string)
    : M V UserPreference.t :=
  let* preference := ask_mongo (Mongo.UserPreference_findOne userId) in
  match preference with
  | Some preference => ret preference
  | None =>
      let preference := fresh now userId in
      let* _ := write_mongo (Mongo.UserPreference_save preference) in
      ret preference
  end.

Definition updatePreferenceFromDrama {V : Type} (now : Z) (userId : string)
    (drama : Drama.t) (action : Action) : M V UserPreference.t :=
  let* preference := getOrCreateUserPreference now userId in
  let preference := applyDrama now drama action preference in
  let* _ := write_mongo (Mongo.UserPreference_save preference) in
  ret preference.

(** *** The invariant of the specification *)

Definition weights_in_range (l : list Weighted.t) : Prop :=
  Forall (fun e => 0 <= Weighted.weight e /\ Weighted.weight e <= 1) l.

Definition invariant (p : UserPreference.t) : Prop :=
  weights_in_range (UserPreference.categories p)
  /\ weights_in_range (UserPreference.tags p)
  /\ weights_in_range (UserPreference.actors p)
  /\ (length (UserPreference.categories p) <= 10)%nat
  /\ (length (UserPreference.tags p) <= 20)%nat
  /\ (length (UserPreference.actors p) <= 15)%nat.

(** [after] is [before] without some entries, none of which weighs more
    than an entry that stayed. *)
Definition kept_highest (before after : list Weighted.t) : Prop :=
  exists dropped,
    Permutation (after ++ dropped) before
    /\ forall k d, In k after -> In d dropped -> Weighted.weight d <= Weighted.weight k.

(** The preference after the category and tag steps of [applyDrama]. *)
Definition afterCategoryAndTags (now : Z) (drama : Drama.t) (action : Action)
    (p : UserPreference.t) : UserPreference.t :=
  let p1 :=
    match Drama.category drama with
    | EmptyString => p
    | category => updateCategoryPreference now category (actionWeights action) p
    end in
  match Drama.tags drama with
  | Some tags =>
      fold_left (fun p tag =>
                   updateTagPreference now tag (actionWeights action * (8 # 10)) p)
                tags p1
  | None => p1
  end.

(** The world once [p] is saved. *)
Definition stored {V : Type} (p : UserPreference.t) (w : World.t V) : World.t V :=
  World.mk
    (Mongo.mk (Mongo.connected (World.mongo w)) (Mongo.dramas (World.mongo w))
       (Mongo.categories (World.mongo w))
       (<[UserPreference.userId p := p]> (Mongo.preferences (World.mongo w)))
       (Mongo.users (World.mongo w)) (Mongo.sessions (World.mongo w)))
    (World.cache w).

(** *** The viewing time *)

Definition with_viewingTime (totalMinutes averageSession preferredDuration : number)
    (p : UserPreference.t) : UserPreference.t :=
  UserPreference.mk (UserPreference.userId p) (UserPreference.categories p)
    (UserPreference.tags p) (UserPreference.actors p) (UserPreference.ratingRange_min p)
    (UserPreference.ratingRange_max p) (UserPreference.ratingRange_preferred p)
    totalMinutes averageSession preferredDuration (UserPreference.lastUpdated p).

Definition updateViewingTime (now : Z) (sessionMinutes : number) (this : UserPreference.t)
    : UserPreference.t :=
  let totalMinutes := UserPreference.viewingTime_totalMinutes this + sessionMinutes in
  let sessionCount := Math_max 1 (totalMinutes / 30) in
  let averageSession := totalMinutes / sessionCount in
  let preferredDuration :=
    if negb (Qle_bool sessionMinutes 0)
    then UserPreference.viewingTime_preferredDuration this * (8 # 10)
         + sessionMinutes * (2 # 10)
    else UserPreference.viewingTime_preferredDuration this in
  with_lastUpdated now (with_viewingTime totalMinutes averageSession preferredDuration this).

End UserPreferenceModel.

(** ** services/AuthService *)

Module AuthService.
Import JS Eff.
Local Open Scope eff_scope.

Definition TOKEN_BLACKLIST_PREFIX : string := "blacklist:token:".
Definition FAILED_LOGIN_PREFIX : string := "failed_login:".
Definition MAX_LOGIN_ATTEMPTS : nat := 5.
Definition LOCKOUT_DURATION : Z := 15 * 60.

Record JWTPayload := mkPayload { p_userId : string; p_email : string; p_role : User.UserRole }.

Record LoginData := mkLogin { email : string; password : string; rememberMe : bool }.

Record AuthResult := mkAuth {
  user : User.t;                        (* [toSafeObject]: the password is gone *)
  accessToken : string;
  refreshToken : string;
  expiresIn : option nat
}.

(** The libraries the service calls: [jsonwebtoken], [bcryptjs], [crypto]. *)
Record Libraries := mkLibraries {
  jwt_verify : string -> string -> outcome JWTPayload;      (* token, secret *)
  bcrypt_compare : string -> string -> outcome bool;        (* candidate, hash *)
  generateAuthToken : string -> User.t -> string;           (* [_id], document *)
  generateRefreshToken : string -> User.t -> string;
  randomUUID : string
}.

(** [process.env] *)
Record Env := mkEnv { JWT_SECRET : option string; JWT_EXPIRES_IN : option string }.

Definition MSG_INVALID : string := "邮箱或密码错误".
Definition MSG_DISABLED : string := "账户已被禁用或未激活".
Definition MSG_LOCKOUT : string :=
  ("登录失败次数过多，请" ++ toString (Some (Z.to_nat (LOCKOUT_DURATION / 60)))
   ++ "分钟后再试")%string.

Definition failedLoginKey (email : string) : string :=
  (FAILED_LOGIN_PREFIX ++ email)%string.

Definition blacklistKey (token : string) : string :=
  (TOKEN_BLACKLIST_PREFIX ++ token)%string.

Section Service.
Variable lib : Libraries.
Variable env : Env.
(** The clock, in seconds. *)
Variable now : Z.

Definition checkLoginAttempts (email : string) : M string unit :=
  let* ready := redis_isReady in
  if negb ready then ret tt
  else
    let key := failedLoginKey email in
    let* attempts := ask_redis (Redis.get now key) in
    match truthy attempts with
    | Some attempts =>
        match parseInt attempts with
        | Some n =>
            if (MAX_LOGIN_ATTEMPTS <=? n)%nat then throw MSG_LOCKOUT else ret tt
        | None => ret tt                    (* NaN >= 5 is false *)
        end
    | None => ret tt
    end.

Definition recordFailedLogin (email : string) : M string unit :=
  let* ready := redis_isReady in
  if negb ready then ret tt
  else
    let key := failedLoginKey email in
    let* current := ask_redis (Redis.get now key) in
    let attempts :=
      match truthy current with
      | Some current => option_map S (parseInt current)
      | None => Some 1%nat
      end in
    write_redis (Redis.set now key (toString attempts) (Some LOCKOUT_DURATION)).

Definition clearFailedLogins (email : string) : M string unit :=
  let* ready := redis_isReady in
  if negb ready then ret tt
  else
    let key := failedLoginKey email in
    write_redis (Redis.del key).

(** [user.comparePassword]: an error of [bcrypt.compare] counts as a
    mismatch. *)
Definition comparePassword (u : User.t) (candidatePassword : string) : bool :=
  match bcrypt_compare lib candidatePassword (User.password u) with
  | Ret b => b
  | Throw _ => false
  end.

Definition toSafeObject (u : User.t) : User.t :=
  User.mk (User.username u) (User.email u) EmptyString (User.role u) (User.status u)
    (User.lastLoginAt u).

Definition getTokenExpirationTime : option nat :=
  let expiresIn := match truthy (JWT_EXPIRES_IN env) with
                   | Some s => s
                   | None => "7d"%string
                   end in
  if endsWith expiresIn "d" then option_map (fun n => n * 24 * 60 * 60)%nat (parseInt expiresIn)
  else if endsWith expiresIn "h" then option_map (fun n => n * 60 * 60)%nat (parseInt expiresIn)
  else if endsWith expiresIn "m" then option_map (fun n => n * 60)%nat (parseInt expiresIn)
  else parseInt expiresIn.

Definition createUserSession (userId refreshToken : string)
    (ipAddress userAgent : option string) : M string unit :=
  let sessionId := randomUUID lib in
  let expiresAt := (now * 1000 + 30 * 24 * 60 * 60 * 1000)%Z in
  write_mongo
    (Mongo.UserSession_create
       (UserSession.mk userId sessionId refreshToken ipAddress userAgent true expiresAt)).

Definition login (loginData : LoginData) (ipAddress userAgent : option string)
    : M string AuthResult :=
  try_catch
    (let email := email loginData in
     let password := password loginData in
     let* _ := checkLoginAttempts email in
     let* found := ask_mongo (Mongo.User_findOne_email email) in
     match found with
     | None =>
         let* _ := recordFailedLogin email in
         throw MSG_INVALID
     | Some (id, user) =>
         if negb (User.is_active user) then throw MSG_DISABLED
         else if negb (comparePassword user password) then
           let* _ := recordFailedLogin email in
           throw MSG_INVALID
         else
           let* _ := clearFailedLogins email in
           let accessToken := generateAuthToken lib id user in
           let refreshToken := generateRefreshToken lib id user in
           let* _ := createUserSession id refreshToken ipAddress userAgent in
           let user := User.set_lastLoginAt (now * 1000) user in
           let* _ := write_mongo (Mongo.User_save id user) in
           ret (mkAuth (toSafeObject user) accessToken refreshToken getTokenExpirationTime)
     end)
    (fun error => throw error).

Definition logout (refreshToken : string) : M string unit :=
  try_catch
    (let* ready := redis_isReady in
     let* _ :=
       if ready
       then write_redis (Redis.set now (blacklistKey refreshToken) "blacklisted"
                           (Some (24 * 60 * 60)%Z))
       else ret tt in
     write_mongo (Mongo.UserSession_deactivate refreshToken))
    (fun error => throw error).

Definition verifyAccessToken (token : string) : M string (option User.t) :=
  try_catch
    (let* ready := redis_isReady in
     let* isBlacklisted :=
       if ready then ask_redis (Redis.exists_ now (blacklistKey token)) else ret 0%nat in
     if (0 <? isBlacklisted)%nat then ret None
     else
       let secret := match truthy (JWT_SECRET env) with
                     | Some s => s
                     | None => "default-secret"%string
                     end in
       let* decoded := (fun w => (jwt_verify lib token secret, w)) in
       let* user := ask_mongo (Mongo.User_findById (p_userId decoded)) in
       match user with
       | None => ret None
       | Some user => if negb (User.is_active user) then ret None else ret (Some user)
       end)
    (fun _ => ret None).

End Service.

(** *** The notions of the specification *)

(** The token has a live entry in the logout blacklist. *)
Definition onBlacklist (now : Z) (token : string) (r : Redis.t string) : Prop :=
  Redis.lookup now (blacklistKey token) r <> None.

(** One login attempt for [email]: when it is made, with which password,
    and against which state of the user collection. *)
Record Attempt := mkAttempt { at_time : Z; at_password : string; at_store : Mongo.t }.

(** The attempt run on the cache [r]: its outcome and the cache after it. *)
Definition attempt (lib : Libraries) (env : Env) (email : string) (a : Attempt)
    (r : Redis.t string) : outcome AuthResult * Redis.t string :=
  let (o, w) := login lib env (at_time a) (mkLogin email (at_password a) false) None None
                      (World.mk (at_store a) r) in
  (o, World.cache w).

(** Attempts made one after the other: the outcomes, and the cache at the
    end. *)
Fixpoint attempts (lib : Libraries) (env : Env) (email : string) (l : list Attempt)
    (r : Redis.t string) : list (outcome AuthResult) * Redis.t string :=
  match l with
  | [] => ([], r)
  | a :: l' =>
      let (o, r1) := attempt lib env email a r in
      let (os, r2) := attempts lib env email l' r1 in
      (o :: os, r2)
  end.

(** Each attempt after the first comes before the counter written by the
    one before it expires. *)
Fixpoint within_window (previous : Z) (l : list Attempt) : Prop :=
  match l with
  | [] => True
  | a :: l' => (at_time a < previous + LOCKOUT_DURATION)%Z /\ within_window (at_time a) l'
  end.

(** Attempts that each come before the counter written by the one before
    expires (nothing is asked of the first). *)
Definition spaced (l : list Attempt) : Prop :=
  match l with
  | [] => True
  | a :: l' => within_window (at_time a) l'
  end.

(** What the counter key holds was written by [recordFailedLogin]. *)
Definition counter_wellformed (email : string) (r : Redis.t string) : Prop :=
  forall v e, Redis.entries r !! failedLoginKey email = Some (v, e) ->
              exists n, v = toString (Some n).

(** The secret the tokens are verified with. *)
Definition secretOf (env : Env) : string :=
  match truthy (JWT_SECRET env) with
  | Some s => s
  | None => "default-secret"%string
  end.

(** The answer, case by case. *)
Definition verified (lib : Libraries) (env : Env) (now : Z) (token : string)
    (w : World.t string) : option User.t :=
  if Redis.isReady (World.cache w)
     && match Redis.lookup now (blacklistKey token) (World.cache w) with
        | Some _ => true
        | None => false
        end
  then None
  else
    match jwt_verify lib token (secretOf env) with
    | Throw _ => None
    | Ret decoded =>
        match Mongo.User_findById (p_userId decoded) (World.mongo w) with
        | Ret (Some u) => if User.is_active u then Some u else None
        | _ => None
        end
    end.

(** The time of the last attempt of [l], [t] when there is none. *)
Definition last_time (t : Z) (l : list Attempt) : Z :=
  fold_left (fun _ a => at_time a) l t.

Section Counter.
(** The email whose failed logins are counted. *)
Variable email : string.

(** What [checkLoginAttempts] decides, [recordFailedLogin] writes and
    [clearFailedLogins] removes, on a cache that is up. *)
Definition locked (now : Z) (r : Redis.t string) : bool :=
  match truthy (Redis.lookup now (failedLoginKey email) r) with
  | Some attempts =>
      match parseInt attempts with
      | Some n => (5 <=? n)%nat
      | None => false
      end
  | None => false
  end.

Definition nextCount (now : Z) (r : Redis.t string) : option nat :=
  match truthy (Redis.lookup now (failedLoginKey email) r) with
  | Some current => option_map S (parseInt current)
  | None => Some 1%nat
  end.

Definition recorded (now : Z) (r : Redis.t string) : Redis.t string :=
  Redis.mk (Redis.isConnected r)
    (<[failedLoginKey email := (toString (nextCount now r), Some (now + LOCKOUT_DURATION)%Z)]>
       (Redis.entries r)).

Definition cleared (r : Redis.t string) : Redis.t string :=
  Redis.mk (Redis.isConnected r) (delete (failedLoginKey email) (Redis.entries r)).

(** How one attempt on a cache that is up ends, and what it leaves in the
    cache: rejected by the lockout, failed for another reason than the
    credentials, failed on the credentials, or logged in. *)
Inductive Step (now : Z) (r : Redis.t string) : outcome AuthResult -> Redis.t string -> Prop :=
| step_locked :
    locked now r = true -> Step now r (Throw MSG_LOCKOUT) r
| step_other e :
    locked now r = false -> e <> MSG_LOCKOUT -> e <> MSG_INVALID -> Step now r (Throw e) r
| step_failed :
    locked now r = false -> Step now r (Throw MSG_INVALID) (recorded now r)
| step_ok res :
    locked now r = false -> Step now r (Ret res) (cleared r).

(** The count the service reads at [now]: 0 when the key is absent or has
    expired. *)
Definition count (now : Z) (r : Redis.t string) : nat :=
  match Redis.lookup now (failedLoginKey email) r with
  | Some v => match parseInt v with Some n => n | None => 0 end
  | None => 0
  end.

(** The key holds a count of at least [k] that lives until [t] plus the
    lockout duration. *)
Definition armed (k : nat) (t : Z) (r : Redis.t string) : Prop :=
  exists m, (k <= m)%nat
            /\ Redis.entries r !! failedLoginKey email
               = Some (toString (Some m), Some (t + LOCKOUT_DURATION)%Z).

(** Whatever the key holds is a count of at most [n]. *)
Definition bound (n : nat) (r : Redis.t string) : Prop :=
  forall v e, Redis.entries r !! failedLoginKey email = Some (v, e) ->
              exists m, v = toString (Some m) /\ (m <= n)%nat.

End Counter.

(** *** Sessions: refresh and logout from every device *)

Definition MSG_NO_SESSION : string := "无效的刷新令牌".
Definition MSG_NO_USER : string := "用户不存在或已被禁用".
Definition MSG_REFRESH_FAILED : string := "刷新令牌失败".

(** How long a session lives, in milliseconds. *)
Definition SESSION_LIFETIME : Z := 30 * 24 * 60 * 60 * 1000.

Definition with_token (refreshToken : string) (expiresAt : Z) (s : UserSession.t)
    : UserSession.t :=
  UserSession.mk (UserSession.userId s) (UserSession.sessionId s) refreshToken
    (UserSession.ipAddress s) (UserSession.userAgent s) (UserSession.isActive s) expiresAt.

Section Sessions.
Variable lib : Libraries.
Variable env : Env.
(** [process.env.JWT_REFRESH_SECRET] *)
Variable JWT_REFRESH_SECRET : option string.
(** The clock, in seconds. *)
Variable now : Z.

(** [refreshToken (refreshToken)]; the method shares its name with the
    field of [AuthResult]. *)
Definition refreshToken_ (refreshToken : string) : M string AuthResult :=
  try_catch
    (let secret := match truthy JWT_REFRESH_SECRET with
                   | Some s => s
                   | None => "default-refresh-secret"%string
                   end in
     let* decoded := (fun w => (jwt_verify lib refreshToken secret, w)) in
     let* session :=
       ask_mongo (Mongo.UserSession_findOne_active refreshToken (now * 1000)) in
     match session with
     | None => throw MSG_NO_SESSION
     | Some (place, session) =>
         let* user := ask_mongo (Mongo.User_findById (p_userId decoded)) in
         match user with
         | None => throw MSG_NO_USER
         | Some user =>
             if negb (User.is_active user) then throw MSG_NO_USER
             else
               let newAccessToken := generateAuthToken lib (p_userId decoded) user in
               let newRefreshToken := generateRefreshToken lib (p_userId decoded) user in
               let session :=
                 with_token newRefreshToken (now * 1000 + SESSION_LIFETIME) session in
               let* _ := write_mongo (Mongo.UserSession_save place session) in
               ret (mkAuth (toSafeObject user) newAccessToken newRefreshToken
                      (getTokenExpirationTime env))
         end
     end)
    (fun _ => throw MSG_REFRESH_FAILED).

Definition logoutAllDevices (userId : string) : M string unit :=
  try_catch
    (write_mongo (Mongo.UserSession_clearUserSessions userId))
    (fun error => throw error).

End Sessions.

(** The refresh tokens of the stored sessions are pairwise different, as
    the unique index makes them. *)
Definition tokens_unique (db : Mongo.t) : Prop :=
  NoDup (map UserSession.refreshToken (Mongo.sessions db)).

(** A session that [refreshToken] accepts for the token at [now]
    (milliseconds). *)
Definition usable (refreshToken : string) (now : Z) (s : UserSession.t) : bool :=
  String.eqb (UserSession.refreshToken s) refreshToken
  && UserSession.isActive s && (now <? UserSession.expiresAt s)%Z.

(** No stored session can be refreshed with the token, now or later. *)
Definition revoked (refreshToken : string) (db : Mongo.t) : Prop :=
  forall s, In s (Mongo.sessions db) ->
            String.eqb (UserSession.refreshToken s) refreshToken && UserSession.isActive s
            = false.

(** *** Registration *)

Record RegisterData := mkRegister {
  reg_username : string;
  reg_email : string;
  reg_password : string;
  reg_confirmPassword : string;
  reg_nickname : option string
}.

Definition MSG_CONFIRM : string := "密码确认不匹配".
Definition MSG_USERNAME_TAKEN : string := "用户名已存在".
Definition MSG_EMAIL_TAKEN : string := "邮箱已被注册".

Section Registration.
Variable lib : Libraries.
Variable env : Env.
(** The clock, in seconds. *)
Variable now : Z.
(** [new User ({ ... })] and its first [save ()]: validation, the hash of
    the password and the new [_id] are Mongoose's and bcrypt's; the result
    is the [_id], the document and the store with the document in it. *)
Variable createUser : RegisterData -> Mongo.t -> outcome (string * User.t * Mongo.t).

Definition register (registerData : RegisterData) : M string AuthResult :=
  try_catch
    (let username := reg_username registerData in
     let email := reg_email registerData in
     let password := reg_password registerData in
     let confirmPassword := reg_confirmPassword registerData in
     if negb (String.eqb password confirmPassword) then throw MSG_CONFIRM
     else
       let* existingUsername := ask_mongo (Mongo.User_findOne_username username) in
       match existingUsername with
       | Some _ => throw MSG_USERNAME_TAKEN
       | None =>
           let* existingEmail := ask_mongo (Mongo.User_findOne_email email) in
           match existingEmail with
           | Some _ => throw MSG_EMAIL_TAKEN
           | None =>
               let* created :=
                 (fun w => match createUser registerData (World.mongo w) with
                           | Ret (id, user, db) => (Ret (id, user), World.mk db (World.cache w))
                           | Throw e => (Throw e, w)
                           end) in
               let id := fst created in
               let user := snd created in
               let accessToken := generateAuthToken lib id user in
               let refreshToken := generateRefreshToken lib id user in
               let* _ := createUserSession lib now id refreshToken None None in
               let user := User.set_lastLoginAt (now * 1000) user in
               let* _ := write_mongo (Mongo.User_save id user) in
               ret (mkAuth (toSafeObject user) accessToken refreshToken
                      (getTokenExpirationTime env))
           end
       end)
    (fun error => throw error).

End Registration.

(** The username, or the email, is that of a stored account. *)
Definition username_taken (username : string) (db : Mongo.t) : Prop :=
  exists id u, Mongo.users db !! id = Some u /\ User.username u = username.

Definition email_taken (email : string) (db : Mongo.t) : Prop :=
  exists id u, Mongo.users db !! id = Some u /\ User.email u = email.

End AuthService.

(** ** middleware/auth: the guards in front of the routes *)

Module AuthMiddleware.
Import JS Eff AuthService.
Local Open Scope eff_scope.

(** The request as the guards read and extend it. *)
Record Request := mkRequest {
  authorization : option string;        (* [req.headers.authorization] *)
  x_api_key : option string;            (* [req.headers['x-api-key']] *)
  params_id : option string;            (* [req.params.id] *)
  params_userId : option string;        (* [req.params.userId] *)
  user : option User.t;                 (* [req.user] *)
  userId : option string                (* [req.userId] *)
}.

(** What a guard does with a request: it answers with a status and a
    message, or calls [next ()] on the request. *)
Inductive Handled :=
| Responded (status : nat) (message : string)
| Next (req : Request).

Definition role_eqb (a b : User.UserRole) : bool :=
  match a, b with
  | User.USER, User.USER | User.ADMIN, User.ADMIN | User.MODERATOR, User.MODERATOR => true
  | _, _ => false
  end.

Section Guards.
Variable lib : Libraries.
Variable env : Env.
(** The clock, in seconds. *)
Variable now : Z.
(** [user._id.toString ()]: the identifier a user document carries, which
    [User.t] leaves out. *)
Variable _id : User.t -> string.

(** [req.user = user; req.userId = user._id.toString ()] *)
Definition attach (u : User.t) (req : Request) : Request :=
  mkRequest (authorization req) (x_api_key req) (params_id req) (params_userId req)
    (Some u) (Some (_id u)).

(** [authHeader.substring (7)] *)
Definition bearerToken (authHeader : string) : string :=
  substring 7 (Z.of_nat (String.length authHeader)) authHeader.

Definition authenticate (req : Request) : M string Handled :=
  try_catch
    (let authHeader := authorization req in
     match authHeader with
     | None => ret (Responded 401 "未提供访问令牌")
     | Some authHeader =>
         if negb (startsWith authHeader "Bearer ")
         then ret (Responded 401 "未提供访问令牌")
         else
           let token := bearerToken authHeader in
           let* user := verifyAccessToken lib env now token in
           match user with
           | None => ret (Responded 401 "无效的访问令牌")
           | Some user => ret (Next (attach user req))
           end
     end)
    (fun _ => ret (Responded 401 "认证失败")).

Definition optionalAuth (req : Request) : M string Handled :=
  try_catch
    (let authHeader := authorization req in
     let* req :=
       match authHeader with
       | Some authHeader =>
           if startsWith authHeader "Bearer "
           then
             let token := bearerToken authHeader in
             let* user := verifyAccessToken lib env now token in
             match user with
             | Some user => ret (attach user req)
             | None => ret req
             end
           else ret req
       | None => ret req
       end in
     ret (Next req))
    (fun _ => ret (Next req)).

Definition authorize (roles : list User.UserRole) (req : Request) : Handled :=
  match user req with
  | None => Responded 401 "需要登录"
  | Some u =>
      if negb (existsb (role_eqb (User.role u)) roles)
      then Responded 403 "权限不足"
      else Next req
  end.

Definition requireAdmin : Request -> Handled := authorize [User.ADMIN].

Definition requireModerator : Request -> Handled := authorize [User.ADMIN; User.MODERATOR].

Definition requireOwnerOrAdmin (req : Request) : Handled :=
  match user req with
  | None => Responded 401 "需要登录"
  | Some u =>
      let targetUserId :=
        match truthy (params_id req) with
        | Some id => Some id
        | None => params_userId req
        end in
      let currentUserId := _id u in
      let isAdmin := role_eqb (User.role u) User.ADMIN in
      let differs :=
        match targetUserId with
        | Some target => negb (String.eqb currentUserId target)
        | None => true
        end in
      if differs && negb isAdmin
      then Responded 403 "只能访问自己的资源"
      else Next req
  end.

Definition checkUserStatus (req : Request) : Handled :=
  match user req with
  | None => Responded 401 "需要登录"
  | Some u =>
      if negb (User.is_active u)
      then Responded 403 "账户已被禁用"
      else Next req
  end.

(** [API_KEY] is [process.env.API_KEY]. *)
Definition authenticateApiKey (API_KEY : option string) (req : Request) : Handled :=
  let apiKey := x_api_key req in
  let validApiKey := API_KEY in
  match truthy validApiKey with
  | None => Responded 500 "服务器配置错误"
  | Some validApiKey =>
      match truthy apiKey with
      | None => Responded 401 "无效的API密钥"
      | Some apiKey =>
          if negb (String.eqb apiKey validApiKey)
          then Responded 401 "无效的API密钥"
          else Next req
      end
  end.

End Guards.

(** The guard let the request through. *)
Definition passed (h : Handled) : bool :=
  match h with
  | Next _ => true
  | Responded _ _ => false
  end.

End AuthMiddleware.

(** Sample documents for the recommendation scorers. *)
Module Samples.
Local Open Scope Q_scope.

Definition drama (id category : string) (tags cast : list string) (rating : Q) : Drama.t :=
  Drama.mk id id "" category (Some tags) rating 0 (Some cast) None None false false 0.

Definition seed : Drama.t := drama "d1" "romance" ["ceo"] ["lin"] 8.
(** Same category, same tag, same actor as [seed]. *)
Definition twin : Drama.t := drama "d2" "romance" ["ceo"] ["lin"] 8.
(** Four tags and two actors, all shared with [rich_twin]. *)
Definition rich : Drama.t :=
  drama "d3" "romance" ["a"; "b"; "c"; "d"] ["x"; "y"] 8.
Definition rich_twin : Drama.t :=
  drama "d4" "romance" ["d"; "c"; "b"; "a"] ["y"; "x"] (17 # 2).
Definition stranger : Drama.t := drama "d5" "horror" ["ghost"] ["wu"] 2.

End Samples.

(** A small store: two categories, of which only [romance] is in use. *)
Module Fixtures.
Definition romance : Category.t := Category.mk "c1" "romance" "#ff0000" None 1 true.
Definition horror : Category.t := Category.mk "c2" "horror" "#000000" None 2 true.

Definition db : Mongo.t :=
  Mongo.mk true [Samples.seed; Samples.twin]
    (<["c1"%string := romance]> (<["c2"%string := horror]> ∅)) ∅ ∅ [].

Definition world : World.t string := World.mk db (Redis.mk true ∅).

(** A preference record whose category list is full. *)
Definition preference : UserPreference.t :=
  UserPreference.mk "u1"
    [Weighted.mk "c0" (1 # 10); Weighted.mk "c1" (2 # 10); Weighted.mk "c2" (3 # 10);
     Weighted.mk "c3" (4 # 10); Weighted.mk "c4" (5 # 10); Weighted.mk "c5" (6 # 10);
     Weighted.mk "c6" (7 # 10); Weighted.mk "c7" (8 # 10); Weighted.mk "c8" (9 # 10);
     Weighted.mk "c9" 1]
    [Weighted.mk "ceo" (1 # 2)]
    [Weighted.mk "lin" (9 # 10)]
    0 10 8 0 0 30 0.
End Fixtures.

(** Users, libraries and worlds for the authentication service. *)
Module AuthFixtures.
Import AuthService.

Definition alice : User.t :=
  User.mk "alice" "alice@example.com" "hash-of-secret" User.USER User.ACTIVE None.

Definition bob : User.t :=
  User.mk "bob" "bob@example.com" "hash-of-hunter2" User.USER User.BANNED None.

(** [good-token] is a valid access token of [alice] (document [u1]); a
    password matches the hash spelled [hash-of-] followed by it. *)
Definition lib : Libraries :=
  mkLibraries
    (fun token _ =>
       if String.eqb token "good-token"
       then Ret (mkPayload "u1" "alice@example.com" User.USER)
       else Throw "JsonWebTokenError")
    (fun candidate hash => Ret (String.eqb ("hash-of-" ++ candidate) hash))
    (fun id _ => ("access-" ++ id)%string)
    (fun id _ => ("refresh-" ++ id)%string)
    "00000000-0000-4000-8000-000000000000".

Definition env : Env := mkEnv None None.

Definition db : Mongo.t :=
  Mongo.mk true [] ∅ ∅ (<["u1"%string := alice]> (<["u2"%string := bob]> ∅)) [].

(** The cache is down and holds a blacklist entry for [good-token]. *)
Definition outage : World.t string :=
  World.mk db
    (Redis.mk false (<[blacklistKey "good-token" := ("blacklisted"%string, Some 86400%Z)]> ∅)).

(** The cache is up and holds the same entry. *)
Definition blacklisted : World.t string :=
  World.mk db
    (Redis.mk true (<[blacklistKey "good-token" := ("blacklisted"%string, Some 86400%Z)]> ∅)).

Definition clean : World.t string := World.mk db (Redis.mk true ∅).

(** An empty cache that is up. *)
Definition cache : Redis.t string := Redis.mk true ∅.

Definition wrong (time : Z) : Attempt := mkAttempt time "guess" db.
Definition right (time : Z) : Attempt := mkAttempt time "secret" db.

(** Five wrong passwords a minute apart, and five a thousand seconds
    apart. *)
Definition burst : list Attempt := [wrong 0; wrong 60; wrong 120; wrong 180; wrong 240].
Definition slow : list Attempt := [wrong 0; wrong 1000; wrong 2000; wrong 3000; wrong 4000].
End AuthFixtures.

(** Requests whose serialization runs past the 250th character. *)
Module CacheFixtures.
Definition categoryNames (last : string) : list Text.t :=
  map (fun n => Text.of_string ("category-" ++ CategoryService.string_of_nat n)%string)
      (seq 1 19)
  ++ [Text.of_string last].

(** Two requests that differ in their twentieth category only. *)
Definition hotA : RecommendationService.RecommendationRequest :=
  RecommendationService.mkRequest None None RecommendationService.HOT (Some (JS.Int 10))
    (Some true) (Some (categoryNames "romance")).
Definition hotB : RecommendationService.RecommendationRequest :=
  RecommendationService.mkRequest None None RecommendationService.HOT (Some (JS.Int 10))
    (Some true) (Some (categoryNames "horror")).

(** Two searches for the same query of 200 letters, for page 1 and for
    page 2. *)
Definition page (n : Z) : SearchService.SearchRequest :=
  SearchService.mkRequest (repeat 120%N 200)
    (Some [(Text.of_string "type", JSON.Str (Text.of_string "drama"));
           (Text.of_string "page", JSON.Num n)]) None.

(** A strategy table that answers with one item named after the last
    category asked for. *)
Definition strategies (request : RecommendationService.RecommendationRequest) (db : Mongo.t)
    : outcome (list RecommendationService.RecommendationItem * string) :=
  let name := match RecommendationService.categories request with
              | Some names => Text.utf8 (List.last names [])
              | None => EmptyString
              end in
  Ret ([RecommendationService.mkItem (Samples.drama name name [] [] 9) 90
          "热门推荐，高评分高人气" RecommendationService.HOT],
       "popularity_score"%string).

Definition emptyCache : Redis.t RecommendationService.RecommendationResult :=
  Redis.mk true ∅.

(** A search that finds the number of the page asked for. *)
Definition searching (request : SearchService.SearchRequest) (db : Mongo.t) : outcome Z :=
  Ret (match SearchService.filters request with
       | Some [_; (_, JSON.Num n)] => n
       | _ => 0%Z
       end).

Definition emptySearchCache : Redis.t (SearchService.SearchResult Z) := Redis.mk true ∅.
End CacheFixtures.

(** Sessions of [alice] (two devices) and of [bob]; [good-token] is the
    refresh token the library of [AuthFixtures] verifies. *)
Module SessionFixtures.
Import AuthService.

Definition session (userId token : string) : UserSession.t :=
  UserSession.mk userId ("session-" ++ token) token None None true 5000000000.

Definition env : Env := mkEnv None (Some "1m"%string).

Definition db : Mongo.t :=
  Mongo.mk true [] ∅ ∅ (Mongo.users AuthFixtures.db)
    [session "u1" "good-token"; session "u1" "tablet-token"; session "u2" "bob-token"].

Definition world : World.t string := World.mk db (Redis.mk true ∅).

(** What refreshing [good-token] answers. *)
Definition refreshed : AuthResult :=
  mkAuth (toSafeObject AuthFixtures.alice) "access-u1" "refresh-u1" (Some 60%nat).
End SessionFixtures.

(** The small store with a cache that holds the detail of [seed] as it was
    read before. *)
Module DramaFixtures.
Definition world : World.t Drama.t :=
  World.mk Fixtures.db
    (Redis.mk true (<[DramaService.detailCacheKey "d1" := (Samples.seed, Some 1800%Z)]> ∅)).

(** A drama under the text of an [ObjectId], and an empty cache. *)
Definition numbered : Drama.t :=
  Samples.drama "0123456789abcdef01234567" "romance" [] [] 9.
Definition numberedWorld : World.t Drama.t :=
  World.mk (Mongo.mk true [numbered] ∅ ∅ ∅ []) (Redis.mk true ∅).
End DramaFixtures.

(** * Properties *)

(** ** Search relevance *)

Example levenshtein_kitten :
  SearchService.levenshteinDistance (Text.of_string "kitten") (Text.of_string "sitting")
  = 3%nat.
Proof. reflexivity. Qed.

Example relevance_exact_title :
  (SearchService.calculateRelevanceScore Text.lower_ascii
     (Text.of_string "Love") (Text.of_string "LOVE") None == 100)%Q.
Proof. vm_compute. reflexivity. Qed.

Section Levenshtein.
Import SearchService.

Lemma lev_prefix_0_r a b i : lev_prefix a b i 0 = i.
Proof. destruct i; reflexivity. Qed.

Lemma lev_prefix_S_S a b i j :
  lev_prefix a b (S i) (S j) =
    if decide (nth_error a i = nth_error b j)
    then lev_prefix a b i j
    else S (Nat.min (lev_prefix a b i j)
                    (Nat.min (lev_prefix a b (S i) j) (lev_prefix a b i (S j)))).
Proof. reflexivity. Qed.

(** The recurrence does not care which string is called the first. *)
Lemma lev_prefix_sym a b i : forall j, lev_prefix a b i j = lev_prefix b a j i.
Proof.
  induction i as [|i IHi]; intros j.
  - symmetry. apply lev_prefix_0_r.
  - induction j as [|j IHj].
    + reflexivity.
    + rewrite !lev_prefix_S_S.
      rewrite <- IHj, !IHi.
      destruct (decide (nth_error a i = nth_error b j)) as [e|n];
        destruct (decide (nth_error b j = nth_error a i)) as [e'|n'];
        try congruence.
      f_equal. lia.
Qed.

Lemma levenshtein_spec_sym a b : levenshtein_spec a b = levenshtein_spec b a.
Proof. apply lev_prefix_sym. Qed.

Lemma nth_map_seq (f : nat -> nat) n k :
  (k < n)%nat -> nth k (map f (seq 0 n)) 0%nat = f k.
Proof.
  intros Hk.
  rewrite (nth_indep _ 0%nat (f 0%nat)) by (rewrite length_map, length_seq; exact Hk).
  rewrite map_nth, seq_nth by exact Hk. reflexivity.
Qed.

(** The inner loop keeps row [i] equal to the recurrence on the cells it
    has filled. *)
Lemma fillRow_prefix str1 str2 i m :
  (m <= length str1)%nat ->
  fold_left
    (fun row j =>
       fillCell str1 str2
         (map (lev_prefix str2 str1 i) (seq 0 (S (length str1)))) row (S i) j)
    (seq 1 m) [S i]
  = map (lev_prefix str2 str1 (S i)) (seq 0 (S m)).
Proof.
  induction m as [|m IHm]; intros Hm.
  - reflexivity.
  - rewrite (seq_S m 1), fold_left_app, IHm by lia. cbn [fold_left].
    rewrite (seq_S (S m) 0), map_app. cbn [map].
    unfold fillCell. f_equal. f_equal.
    replace (S i - 1)%nat with i by lia.
    replace (1 + m - 1)%nat with m by lia.
    rewrite !nth_map_seq by lia.
    replace (1 + m)%nat with (S m) by lia.
    change (0 + S m)%nat with (S m).
    rewrite lev_prefix_S_S. unfold Text.charAt.
    destruct (decide (nth_error str2 i = nth_error str1 m)); [reflexivity | lia].
Qed.

Lemma fillRow_spec str1 str2 i :
  fillRow str1 str2
    (map (lev_prefix str2 str1 i) (seq 0 (S (length str1)))) (S i)
  = map (lev_prefix str2 str1 (S i)) (seq 0 (S (length str1))).
Proof. unfold fillRow. apply fillRow_prefix. lia. Qed.

(** The outer loop: after [k] rows the matrix is the table of the
    recurrence. *)
Lemma levenshteinMatrix_prefix str1 str2 k :
  fold_left
    (fun matrix i => matrix ++ [fillRow str1 str2 (nth (i - 1) matrix []) i])
    (seq 1 k) [seq 0 (S (length str1))]
  = map (fun i => map (lev_prefix str2 str1 i) (seq 0 (S (length str1))))
        (seq 0 (S k)).
Proof.
  induction k as [|k IHk].
  - change (seq 0 1) with [0%nat]. change (seq 1 0) with (@nil nat).
    cbn [map fold_left]. f_equal. symmetry.
    erewrite map_ext; [apply map_id |]. intros j. reflexivity.
  - rewrite (seq_S k 1), fold_left_app, IHk. cbn [fold_left].
    rewrite (seq_S (S k) 0), map_app. cbn [map]. f_equal. f_equal.
    replace (1 + k - 1)%nat with k by lia.
    rewrite (nth_indep _ [] (map (lev_prefix str2 str1 0) (seq 0 (S (length str1)))))
      by (rewrite length_map, length_seq; lia).
    rewrite (map_nth (fun i => map (lev_prefix str2 str1 i) (seq 0 (S (length str1))))).
    rewrite seq_nth by lia. simpl Nat.add.
    apply fillRow_spec.
Qed.

(** The matrix code computes the recurrence (refinement). *)
Lemma levenshteinDistance_spec str1 str2 :
  levenshteinDistance str1 str2 = levenshtein_spec str1 str2.
Proof.
  unfold levenshteinDistance, levenshteinMatrix.
  rewrite levenshteinMatrix_prefix.
  rewrite (nth_indep _ [] (map (lev_prefix str2 str1 0) (seq 0 (S (length str1)))))
    by (rewrite length_map, length_seq; lia).
  rewrite (map_nth (fun i => map (lev_prefix str2 str1 i) (seq 0 (S (length str1))))).
  rewrite seq_nth by lia. simpl Nat.add.
  rewrite nth_map_seq by lia.
  symmetry. apply lev_prefix_sym.
Qed.

End Levenshtein.

Section Relevance.
Import JS SearchService.
Local Open Scope Q_scope.

Lemma of_nat_nonzero n : n <> 0%nat -> ~ of_nat n == 0.
Proof.
  intros Hn. unfold of_nat, Qeq. simpl. lia.
Qed.

Lemma calculateStringSimilarity_spec a b :
  calculateStringSimilarity a b = similarity_ratio a b.
Proof.
  unfold calculateStringSimilarity, similarity_ratio.
  destruct (Nat.ltb_spec (length b) (length a)) as [Hlt|Hge].
  - rewrite Nat.max_l by lia.
    destruct (Nat.eqb_spec (length a) 0) as [H0|H0]; [lia |].
    rewrite levenshteinDistance_spec. reflexivity.
  - rewrite Nat.max_r by lia.
    destruct (Nat.eqb_spec (length b) 0) as [H0|H0]; [reflexivity |].
    rewrite levenshteinDistance_spec, levenshtein_spec_sym. reflexivity.
Qed.

(** The ratio is the similarity of the specification. *)
Lemma similarity_ratio_spec a b : similarity_ratio a b == normalizedStringSimilarity a b.
Proof.
  unfold similarity_ratio, normalizedStringSimilarity.
  destruct (Nat.eqb_spec (Nat.max (length a) (length b)) 0) as [H0|H0]; [reflexivity |].
  field. apply of_nat_nonzero. exact H0.
Qed.

Lemma startsWith_true_iff s : forall q,
  Text.startsWith s q = true <-> exists r, s = (q ++ r)%list.
Proof.
  induction s as [|d s IH]; intros [|c q]; cbn [Text.startsWith].
  - split; [exists []; reflexivity | reflexivity].
  - split; [discriminate | intros [r H]; discriminate H].
  - split; [exists (d :: s); reflexivity | reflexivity].
  - rewrite andb_true_iff, N.eqb_eq, IH. split.
    + intros [-> [r ->]]. exists r. reflexivity.
    + intros [r H]. injection H as -> ->. split; [reflexivity | exists r; reflexivity].
Qed.

Lemma includes_true_iff s : forall q,
  Text.includes s q = true <-> exists a r, s = (a ++ q ++ r)%list.
Proof.
  induction s as [|d s IH]; intros q; cbn [Text.includes];
    rewrite orb_true_iff, startsWith_true_iff.
  - split.
    + intros [[r H]|H]; [exists [], r; exact H | discriminate H].
    + intros [a [r H]]. left. destruct a; [exists r; exact H | discriminate H].
  - rewrite IH. split.
    + intros [[r H]|[a [r H]]]; [exists [], r; exact H |].
      exists (d :: a), r. rewrite H. reflexivity.
    + intros [[|c a] [r H]]; [left; exists r; exact H |].
      right. injection H as -> ->. exists a, r. reflexivity.
Qed.

(** A title that starts with the query also includes it, so the third
    branch of the title test is never taken. *)
Lemma startsWith_includes s sub :
  Text.startsWith s sub = true -> Text.includes s sub = true.
Proof. intros H. destruct s; cbn [Text.includes]; rewrite H; reflexivity. Qed.

Remark title_points_values q t :
  title_points q t = 100 \/ title_points q t = 80 \/ title_points q t = 0.
Proof.
  unfold title_points.
  destruct (decide (t = q)); [now left |].
  destruct (Text.includes t q) eqn:Hin; [now right; left |].
  destruct (Text.startsWith t q) eqn:Hst; [| now right; right].
  apply startsWith_includes in Hst. congruence.
Qed.

End Relevance.



(** ** Recommendation scores *)

Section PersonalizedScore.
Import JS RecommendationService.
Local Open Scope Q_scope.

(** The lookup of the code finds the stored weight. *)
Lemma findEntry_storedWeight l name :
  match findEntry l name with
  | Some m => Weighted.weight m
  | None => 0
  end = storedWeight l name.
Proof.
  unfold findEntry, find.
  induction l as [|e l IH]; cbn [List.find storedWeight]; [reflexivity |].
  destruct (decide (Weighted.key e = name)) as [Heq|Hne].
  - apply String.eqb_eq in Heq. rewrite Heq. reflexivity.
  - apply String.eqb_neq in Hne. rewrite Hne. exact IH.
Qed.

(** The stored weight of a name that the list holds once is the weight of
    its entry; that of a name the list does not hold is 0. *)
Lemma storedWeight_present l e :
  In e l -> List.NoDup (map Weighted.key l) ->
  storedWeight l (Weighted.key e) = Weighted.weight e.
Proof.
  induction l as [|x l IH]; intros Hin Hnd; [destruct Hin |].
  cbn [storedWeight]. apply List.NoDup_cons_iff in Hnd. destruct Hnd as [Hx Hnd].
  destruct Hin as [->|Hin].
  - destruct (decide (Weighted.key e = Weighted.key e)); [reflexivity | congruence].
  - destruct (decide (Weighted.key x = Weighted.key e)) as [Heq|_]; [| now apply IH].
    exfalso. apply Hx. rewrite Heq. now apply in_map.
Qed.

Lemma storedWeight_first before e rest :
  (forall x, In x before -> Weighted.key x <> Weighted.key e) ->
  storedWeight (before ++ e :: rest) (Weighted.key e) = Weighted.weight e.
Proof.
  induction before as [|x before IH]; intros Hbefore; cbn [app storedWeight].
  - destruct (decide (Weighted.key e = Weighted.key e)); [reflexivity | congruence].
  - destruct (decide (Weighted.key x = Weighted.key e)) as [Heq|_].
    + exfalso. apply (Hbefore x); [now left | exact Heq].
    + apply IH. intros y Hy. apply Hbefore. now right.
Qed.

Lemma storedWeight_absent l name :
  (forall e, In e l -> Weighted.key e <> name) -> storedWeight l name = 0.
Proof.
  induction l as [|x l IH]; intros Hl; [reflexivity |].
  cbn [storedWeight]. destruct (decide (Weighted.key x = name)) as [Heq|_].
  - exfalso. apply (Hl x); [now left | exact Heq].
  - apply IH. intros e He. apply Hl. now right.
Qed.

Lemma addMatch_spec l factor score name :
  addMatch l factor score name == score + storedWeight l name * factor.
Proof.
  unfold addMatch. rewrite <- findEntry_storedWeight.
  destruct (findEntry l name); ring.
Qed.

Lemma sum_from_compat terms : forall a b, a == b -> sum_from a terms == sum_from b terms.
Proof.
  induction terms as [|x terms IH]; intros a b Hab; cbn [sum_from]; [exact Hab |].
  apply IH. rewrite Hab. reflexivity.
Qed.

(** The loop over the names adds up the stored weights, from the left. *)
Lemma fold_addMatch l factor (ns : list string) : forall score,
  fold_left (addMatch l factor) ns score
  == sum_from score (map (fun n => storedWeight l n * factor) ns).
Proof.
  induction ns as [|n ns IH]; intros score; cbn [fold_left map sum_from].
  - reflexivity.
  - rewrite IH. apply sum_from_compat, addMatch_spec.
Qed.

End PersonalizedScore.

(** C3.  The personalized score of a drama against a preference record is
    [min (100, w_category * 40 + sum over the tags of w_tag * 20
    + sum over the cast of w_actor * 15 + max (0, 25 - 5 * |rating -
    preferred|))], the terms added in this order.  A weight is the one the
    list stores for the name: the weight of the entry that has the name (of
    the first one, should several have it), and 0 for a name that no entry
    has. *)
Theorem personalized_score_formula (drama : Drama.t) (p : UserPreference.t) :
  (RecommendationService.calculatePersonalizedScore drama p
   == RecommendationService.personalized_formula drama p)%Q
  /\ (forall (before : list Weighted.t) (e : Weighted.t) (rest : list Weighted.t),
        (forall x, In x before -> Weighted.key x <> Weighted.key e) ->
        RecommendationService.storedWeight (before ++ e :: rest) (Weighted.key e)
        = Weighted.weight e)
  /\ (forall (l : list Weighted.t) (name : string),
        (forall e, In e l -> Weighted.key e <> name) ->
        RecommendationService.storedWeight l name = 0%Q).
Proof.
  split; [| split; [apply storedWeight_first | apply storedWeight_absent]].
  unfold RecommendationService.calculatePersonalizedScore,
    RecommendationService.personalized_formula, JS.Math_min, JS.Math_max, JS.Math_abs.
  cbv zeta.
  apply Q.min_compat; [reflexivity |].
  apply Qplus_comp; [| apply Q.max_compat; [reflexivity | ring]].
  assert (Hcat :
    (match RecommendationService.findEntry (UserPreference.categories p) (Drama.category drama) with
     | Some categoryMatch => 0 + Weighted.weight categoryMatch * 40
     | None => 0
     end ==
     RecommendationService.storedWeight (UserPreference.categories p) (Drama.category drama) * 40)%Q).
  { rewrite <- findEntry_storedWeight.
    destruct (RecommendationService.findEntry _ _); ring. }
  destruct (Drama.tags drama) as [tags|], (Drama.cast drama) as [cast|];
    cbn [RecommendationService.names map RecommendationService.sum_from];
    repeat first [rewrite fold_addMatch | apply sum_from_compat]; exact Hcat.
Qed.

Section SimilarityScore.
Import JS RecommendationService.
Local Open Scope Q_scope.

Lemma arr_includes_In arr x : arr_includes arr x = true <-> In x arr.
Proof.
  unfold arr_includes. rewrite existsb_exists. split.
  - intros [y [Hy Heq]]. apply String.eqb_eq in Heq. now subst.
  - intros Hx. exists x. split; [exact Hx | apply String.eqb_refl].
Qed.

Lemma common_all a b : (forall x, In x a -> In x b) -> common a b = a.
Proof.
  intros Hsub. unfold common. induction a as [|x a IH]; cbn [List.filter].
  - reflexivity.
  - destruct (arr_includes b x) eqn:Hx.
    + f_equal. apply IH. intros y Hy. apply Hsub. now right.
    + assert (In x b) as Hin by (apply Hsub; now left).
      apply arr_includes_In in Hin. congruence.
Qed.

Lemma common_none a b : (forall x, In x a -> ~ In x b) -> common a b = [].
Proof.
  intros Hdis. unfold common. induction a as [|x a IH]; cbn [List.filter].
  - reflexivity.
  - destruct (arr_includes b x) eqn:Hx.
    + apply arr_includes_In in Hx. exfalso. apply (Hdis x); [now left | exact Hx].
    + apply IH. intros y Hy. apply Hdis. now right.
Qed.

Lemma rating_part_nonneg r : 0 <= Qmax 0 r.
Proof. apply Q.le_max_l. Qed.

Lemma of_nat_nonneg n : 0 <= of_nat n.
Proof. unfold of_nat, Qle. simpl. lia. Qed.

End SimilarityScore.

(** C2 (as stated, refuted).  [twin] has the category, the one tag and the
    one actor of [seed] and the same rating, and scores 30 + 10 + 15 + 20 =
    75, not 100. *)
Lemma similarity_full_overlap_below_cap :
  Drama.category Samples.seed = Drama.category Samples.twin
  /\ RecommendationService.full_overlap (Drama.tags Samples.seed) (Drama.tags Samples.twin)
  /\ RecommendationService.full_overlap (Drama.cast Samples.seed) (Drama.cast Samples.twin)
  /\ (RecommendationService.calculateSimilarityScore Samples.seed Samples.twin == 75)%Q
  /\ ~ (RecommendationService.calculateSimilarityScore Samples.seed Samples.twin == 100)%Q.
Proof.
  split; [reflexivity |].
  split; [exists ["ceo"%string], ["ceo"%string]; repeat split; auto |].
  split; [exists ["lin"%string], ["lin"%string]; repeat split; auto |].
  split; vm_compute; [reflexivity | discriminate].
Qed.

(** C2 (amended).  A candidate with the seed's category and full tag and
    cast overlap scores [min (100, 30 + 10 * tags + 15 * cast + max (0, 20 -
    4 * |rating difference|))], [tags] and [cast] counting the seed's
    entries; that is the capped maximum 100 as soon as [10 * tags + 15 *
    cast] is at least 70.  A candidate with another category, no tag and no
    actor in common and a rating at least 5 away scores 0. *)
Theorem similarity_score_extremes (baseDrama targetDrama : Drama.t) :
  let n_tags := JS.of_nat (length (RecommendationService.names (Drama.tags baseDrama))) in
  let n_cast := JS.of_nat (length (RecommendationService.names (Drama.cast baseDrama))) in
  let ratingDiff := Qabs (Drama.rating baseDrama - Drama.rating targetDrama) in
  let score := RecommendationService.calculateSimilarityScore baseDrama targetDrama in
  (Drama.category baseDrama = Drama.category targetDrama ->
   RecommendationService.full_overlap (Drama.tags baseDrama) (Drama.tags targetDrama) ->
   RecommendationService.full_overlap (Drama.cast baseDrama) (Drama.cast targetDrama) ->
   score == Qmin 100 (30 + 10 * n_tags + 15 * n_cast + Qmax 0 (20 - 4 * ratingDiff))
   /\ (70 <= 10 * n_tags + 15 * n_cast -> score == 100))%Q
  /\
  (Drama.category baseDrama <> Drama.category targetDrama ->
   RecommendationService.no_overlap (Drama.tags baseDrama) (Drama.tags targetDrama) ->
   RecommendationService.no_overlap (Drama.cast baseDrama) (Drama.cast targetDrama) ->
   5 <= ratingDiff ->
   score == 0)%Q.
Proof.
  intros n_tags n_cast ratingDiff score. split.
  - intros Hcat (bt & tt & Hbt & Htt & Htags) (bc & tc & Hbc & Htc & Hcast).
    assert (Hscore :
      (score == Qmin 100 (30 + 10 * n_tags + 15 * n_cast + Qmax 0 (20 - 4 * ratingDiff)))%Q).
    { subst score n_tags n_cast ratingDiff.
      unfold RecommendationService.calculateSimilarityScore, JS.Math_min, JS.Math_max, JS.Math_abs.
      rewrite Hcat, String.eqb_refl, Hbt, Htt, Hbc, Htc.
      cbn [RecommendationService.names].
      rewrite !common_all by (intros x Hx; first [apply Htags | apply Hcast]; exact Hx).
      apply Q.min_compat; [reflexivity |].
      apply Qplus_comp; [ring | apply Q.max_compat; [reflexivity | ring]]. }
    split; [exact Hscore |].
    intros Hbig. rewrite Hscore. apply Q.min_l.
    pose proof (rating_part_nonneg (20 - 4 * ratingDiff)%Q) as Hr. lra.
  - intros Hcat Htags Hcast Hdiff.
    subst score ratingDiff.
    unfold RecommendationService.calculateSimilarityScore, JS.Math_min, JS.Math_max, JS.Math_abs.
    apply String.eqb_neq in Hcat. rewrite Hcat.
    assert (Hr : (Qmax 0 (20 - Qabs (Drama.rating baseDrama - Drama.rating targetDrama) * 4) == 0)%Q).
    { apply Q.max_l. lra. }
    destruct (Drama.tags baseDrama) as [bt|] eqn:Hbt,
             (Drama.tags targetDrama) as [tt|] eqn:Htt,
             (Drama.cast baseDrama) as [bc|] eqn:Hbc,
             (Drama.cast targetDrama) as [tc|] eqn:Htc;
      rewrite ?(common_none bt tt) by (apply (Htags bt tt); reflexivity);
      rewrite ?(common_none bc tc) by (apply (Hcast bc tc); reflexivity);
      cbn [length]; rewrite Hr; vm_compute; reflexivity.
Qed.

Lemma similarity_score_extremes_witness :
  (RecommendationService.calculateSimilarityScore Samples.rich Samples.rich_twin == 100
   /\ RecommendationService.calculateSimilarityScore Samples.seed Samples.stranger == 0)%Q.
Proof.
  split.
  - apply (proj1 (similarity_score_extremes Samples.rich Samples.rich_twin)).
    + reflexivity.
    + exists ["a"; "b"; "c"; "d"]%string, ["d"; "c"; "b"; "a"]%string.
      split; [reflexivity |]. split; [reflexivity |].
      intros x; cbn [In]; tauto.
    + exists ["x"; "y"]%string, ["y"; "x"]%string.
      split; [reflexivity |]. split; [reflexivity |].
      intros x; cbn [In]; tauto.
    + vm_compute. discriminate.
  - apply (proj2 (similarity_score_extremes Samples.seed Samples.stranger)).
    + discriminate.
    + intros la lb Ha Hb x Hx Hy. injection Ha as <-. injection Hb as <-.
      cbn [In] in Hx, Hy. destruct Hx as [<-|[]]. destruct Hy as [Hy|[]]. discriminate.
    + intros la lb Ha Hb x Hx Hy. injection Ha as <-. injection Hb as <-.
      cbn [In] in Hx, Hy. destruct Hx as [<-|[]]. destruct Hy as [Hy|[]]. discriminate.
    + vm_compute. discriminate.
Defined.

(** ** Sorting by a numeric key, as [arr.sort ((a, b) => key b - key a)] *)

Lemma In_firstn {A : Type} (n : nat) (l : list A) x : In x (firstn n l) -> In x l.
Proof. intros H. rewrite <- (firstn_skipn n l). apply in_or_app. now left. Qed.

Lemma In_skipn {A : Type} (n : nat) (l : list A) x : In x (skipn n l) -> In x l.
Proof. intros H. rewrite <- (firstn_skipn n l). apply in_or_app. now right. Qed.

Section SortByKey.
Import JS.
Local Open Scope Q_scope.
Context {A : Type} (key : A -> Q).

Local Abbreviation descending := (JS.descending key).
Local Abbreviation by_key_desc := (JS.by_key_desc key).

Lemma sort_insert_perm x l : Permutation (x :: l) (sort_insert by_key_desc x l).
Proof.
  induction l as [|y l IH]; cbn [sort_insert].
  - reflexivity.
  - destruct (Qle_bool (by_key_desc x y) 0).
    + reflexivity.
    + rewrite perm_swap. now apply perm_skip.
Qed.

Lemma sort_perm l : Permutation l (sort by_key_desc l).
Proof.
  induction l as [|x l IH]; cbn [sort].
  - reflexivity.
  - rewrite <- sort_insert_perm. now apply perm_skip.
Qed.

Lemma sort_length l : length (sort by_key_desc l) = length l.
Proof. symmetry. apply Permutation_length, sort_perm. Qed.

Lemma sort_insert_sorted x l :
  StronglySorted descending l -> StronglySorted descending (sort_insert by_key_desc x l).
Proof.
  induction 1 as [|y l Hl IH Hy]; cbn [sort_insert].
  - repeat constructor.
  - unfold JS.by_key_desc at 1.
    destruct (Qle_bool (key y - key x) 0) eqn:Hcmp.
    + apply Qle_bool_iff in Hcmp.
      assert (Hxy : descending x y) by (unfold JS.descending; lra).
      constructor; [constructor; assumption |].
      constructor; [exact Hxy |].
      eapply List.Forall_impl; [| exact Hy].
      intros z Hz. unfold JS.descending in *. lra.
    + assert (Hyx : descending y x).
      { unfold JS.descending. destruct (Qlt_le_dec 0 (key y - key x)) as [Hlt|Hle].
        - lra.
        - apply Qle_bool_iff in Hle. congruence. }
      constructor; [exact IH |].
      eapply Permutation_Forall; [apply sort_insert_perm |].
      constructor; assumption.
Qed.

(** The sorted array is in non-increasing order of the key. *)
Lemma sort_sorted l : StronglySorted descending (sort by_key_desc l).
Proof.
  induction l as [|x l IH]; cbn [sort].
  - constructor.
  - now apply sort_insert_sorted.
Qed.

Lemma firstn_sorted n l :
  StronglySorted descending l -> StronglySorted descending (firstn n l).
Proof.
  intros Hl. revert n. induction Hl as [|x l Hl IH Hx]; intros [|n]; cbn [firstn];
    try constructor.
  - apply IH.
  - rewrite List.Forall_forall in *. intros y Hy. apply Hx.
    apply (In_firstn n). exact Hy.
Qed.

(** What is cut off by [slice (0, n)] has no larger key than what stays. *)
Lemma sorted_prefix_dominates n l :
  StronglySorted descending l ->
  forall kept dropped, In kept (firstn n l) -> In dropped (skipn n l) ->
                       key dropped <= key kept.
Proof.
  intros Hl. revert n. induction Hl as [|x l Hl IH Hx]; intros [|n] kept dropped;
    cbn [firstn skipn In]; try tauto.
  intros [<-|Hk] Hd.
  - rewrite List.Forall_forall in Hx. apply Hx.
    apply (In_skipn n). exact Hd.
  - now apply (IH n).
Qed.

Lemma sorted_map l :
  StronglySorted descending l -> StronglySorted (fun a b => b <= a) (map key l).
Proof.
  induction 1 as [|x l Hl IH Hx]; cbn [map]; constructor.
  - exact IH.
  - rewrite List.Forall_forall in *. intros q Hq.
    apply in_map_iff in Hq. destruct Hq as [y [<- Hy]]. now apply Hx.
Qed.

End SortByKey.

(** ** Rankings *)

Section Ranking.
Import JS RankingService.
Local Open Scope Q_scope.

Lemma map_index_from_rank l : forall i,
  map rank (map_index_from rankItem i l) = seq (i + 1) (length l).
Proof.
  induction l as [|x l IH]; intros i; cbn [map_index_from map length seq].
  - reflexivity.
  - rewrite IH. replace (S i + 1)%nat with (S (i + 1)) by lia. reflexivity.
Qed.

Lemma map_index_from_score l : forall i,
  map score (map_index_from rankItem i l) = map s_score l.
Proof.
  induction l as [|x l IH]; intros i; cbn [map_index_from map].
  - reflexivity.
  - now rewrite IH.
Qed.

Lemma map_index_from_Forall (P : Scored -> Prop) (Q : RankingItem -> Prop) l :
  (forall x i, P x -> Q (rankItem x i)) ->
  Forall P l -> forall i, Forall Q (map_index_from rankItem i l).
Proof.
  intros HPQ Hl. induction Hl as [|x l Hx Hl IH]; intros i; cbn [map_index_from];
    constructor; auto.
Qed.

Lemma Math_round_compat x y : x == y -> Math_round x == Math_round y.
Proof.
  intros Hxy. unfold Math_round.
  rewrite (Qfloor_comp (x + (1 # 2)) (y + (1 # 2))) by (rewrite Hxy; reflexivity).
  reflexivity.
Qed.

(** [Math.round] moves a number by at most a half. *)
Lemma Math_round_near y : y - (1 # 2) <= Math_round y /\ Math_round y <= y + (1 # 2).
Proof.
  unfold Math_round.
  pose proof (Qfloor_le (y + (1 # 2))) as Hle.
  pose proof (Qlt_floor (y + (1 # 2))) as Hlt.
  rewrite inject_Z_plus in Hlt. change (inject_Z 1) with 1 in Hlt.
  split; lra.
Qed.

(** The score before the rounding: the blend, times the decay, times the
    boost. *)
Lemma unrounded_score log10 now d type :
  (let score := blend log10 d type in
   let score :=
     match type with
     | DAILY | WEEKLY => score * calculateTimeDecay now (Drama.updatedAt d) type
     | _ => score
     end in
   let score := if Drama.isHot d then score * (11 # 10) else score in
   if Drama.isNewDrama d then score * (105 # 100) else score)
  == blend log10 d type * calculateTimeDecay now (Drama.updatedAt d) type * boost d.
Proof.
  unfold boost. cbv zeta.
  destruct type, (Drama.isHot d), (Drama.isNewDrama d);
    cbn [calculateTimeDecay]; ring.
Qed.

Lemma calculateRankingScore_unfold log10 now d type :
  calculateRankingScore log10 now d type
  == Math_round
       (blend log10 d type * calculateTimeDecay now (Drama.updatedAt d) type * boost d * 100)
     / 100.
Proof.
  pose proof (unrounded_score log10 now d type) as H. cbv zeta in H.
  unfold calculateRankingScore. cbv zeta.
  apply Qmult_comp; [| reflexivity]. apply Math_round_compat.
  rewrite <- H. unfold blend. cbv zeta.
  destruct type, (Drama.isHot d), (Drama.isNewDrama d); ring.
Qed.

End Ranking.



(** C5.  The multiplier applied to a daily score is [max (0.5, 1 - h / 48)],
    to a weekly score [max (0.7, 1 - h / 336)], [h] the hours since the
    drama's update, and to a monthly or all-time score 1: [calculateTimeDecay]
    answers these, and the ranking score is the weighted blend times that
    multiplier times the hot/new boost, up to the rounding to two decimals
    and that of the arithmetic on doubles (a hundredth and a billionth of the
    product are allowed for them).  The score depends on the clock and on
    the instant of the update through the multiplier alone, and not at all
    for the monthly and all-time windows. *)
Theorem ranking_time_decay
    (log10 : Q -> Q) (now : Z) (d : Drama.t) (type : RankingService.RankingType) :
  let h := RankingService.hoursSinceUpdate now d in
  let multiplier := RankingService.calculateTimeDecay now (Drama.updatedAt d) in
  let product :=
    (RankingService.blend log10 d type * multiplier type * RankingService.boost d)%Q in
  (multiplier RankingService.DAILY == Qmax (1 # 2) (1 - h / 48)
   /\ multiplier RankingService.WEEKLY == Qmax (7 # 10) (1 - h / 336)
   /\ multiplier RankingService.MONTHLY == 1
   /\ multiplier RankingService.ALL_TIME == 1
   /\ Qabs (RankingService.calculateRankingScore log10 now d type - product)
      <= (1 # 100) + Qabs product * (1 # 1000000000)
   /\ (forall now' updatedAt',
         RankingService.calculateTimeDecay now' updatedAt' type == multiplier type ->
         RankingService.calculateRankingScore log10 now' (Mongo.with_updatedAt updatedAt' d)
           type
         == RankingService.calculateRankingScore log10 now d type)
   /\ (type = RankingService.MONTHLY \/ type = RankingService.ALL_TIME ->
       forall now' updatedAt',
         RankingService.calculateRankingScore log10 now' (Mongo.with_updatedAt updatedAt' d)
           type
         == RankingService.calculateRankingScore log10 now d type))%Q.
Proof.
  intros h multiplier product.
  assert (Hsame : forall now' updatedAt',
            (RankingService.calculateTimeDecay now' updatedAt' type == multiplier type ->
             RankingService.calculateRankingScore log10 now' (Mongo.with_updatedAt updatedAt' d)
               type
             == RankingService.calculateRankingScore log10 now d type)%Q).
  { intros now' updatedAt' Hm. rewrite !calculateRankingScore_unfold.
    apply Qmult_comp; [| reflexivity]. apply Math_round_compat.
    cbn [Mongo.with_updatedAt Drama.updatedAt].
    change (RankingService.blend log10 (Mongo.with_updatedAt updatedAt' d) type)
      with (RankingService.blend log10 d type).
    change (RankingService.boost (Mongo.with_updatedAt updatedAt' d))
      with (RankingService.boost d).
    rewrite Hm. reflexivity. }
  split; [| split; [| split; [| split; [| split; [| split]]]]].
  - unfold multiplier, RankingService.calculateTimeDecay, JS.Math_max.
    apply Q.max_compat; reflexivity.
  - unfold multiplier, RankingService.calculateTimeDecay, JS.Math_max.
    apply Q.max_compat; reflexivity.
  - reflexivity.
  - reflexivity.
  - rewrite calculateRankingScore_unfold. fold (multiplier type). fold product.
    pose proof (Math_round_near (product * 100)) as [Hlo Hhi].
    pose proof (Qabs_nonneg product) as Hp.
    apply Qabs_Qle_condition.
    unfold Qdiv. change (/ 100)%Q with (1 # 100)%Q.
    generalize dependent (JS.Math_round (product * 100)). intros r Hlo Hhi.
    generalize dependent (Qabs product). intros a Ha.
    split; lra.
  - exact Hsame.
  - intros Htype now' updatedAt'. apply Hsame.
    destruct Htype as [-> | ->]; reflexivity.
Qed.

(** ** Category deletion *)

Section CategoryDeletion.
Import Eff CategoryService.
Context {V : Type}.

Lemma count_references_pos (w : World.t V) (c : Category.t) :
  (0 < length (List.filter (references (Category.name c)) (Mongo.dramas (World.mongo w))))%nat
  <-> referenced w c.
Proof.
  unfold referenced, references. split.
  - intros Hpos.
    destruct (List.filter _ _) as [|d l] eqn:Hf; [cbn in Hpos; lia |].
    assert (Hin : In d (d :: l)) by now left.
    rewrite <- Hf in Hin. apply filter_In in Hin. destruct Hin as [Hin Heq].
    exists d. split; [exact Hin | now apply String.eqb_eq].
  - intros [d [Hin Heq]].
    assert (Hf : In d (List.filter (fun d => String.eqb (Drama.category d) (Category.name c))
                         (Mongo.dramas (World.mongo w)))).
    { apply filter_In. split; [exact Hin | now apply String.eqb_eq]. }
    destruct (List.filter _ _); [destruct Hf | cbn; lia].
Qed.

(** Clearing the cache never throws and leaves the store alone. *)
Lemma clearCache_mongo (w : World.t V) :
  exists r, clearCache w = (Ret tt, World.mk (World.mongo w) r).
Proof.
  unfold clearCache, bind, redis_isReady, try_catch.
  destruct w as [db r]. cbn [World.cache World.mongo].
  destruct (Redis.isReady r) eqn:Hr; cbn [negb].
  - unfold CACHE_KEYS, for_each, bind, write_redis, Redis.del. cbn [World.cache World.mongo].
    rewrite Hr. cbn [World.cache World.mongo Redis.isReady Redis.isConnected].
    unfold Redis.isReady in Hr. rewrite Hr. eexists. reflexivity.
  - exists r. reflexivity.
Qed.

(** [Category.findById], case by case. *)
Lemma Category_findById_cases id db :
  Mongo.Category_findById id db
  = match Mongo.categories db !! id with
    | Some c => if Mongo.connected db then Ret (Some c) else Throw Mongo.unavailable
    | None =>
        if Mongo.isObjectId id
        then if Mongo.connected db
             then Ret (Mongo.categories db !! Mongo.objectIdText id)
             else Throw Mongo.unavailable
        else Throw (Mongo.castError id "Category")
    end.
Proof.
  unfold Mongo.Category_findById, Mongo.castable, Mongo.Category_id.
  destruct (Mongo.categories db !! id) as [c|] eqn:Hc.
  - rewrite bool_decide_true by (eexists; reflexivity). rewrite orb_true_r, Hc. reflexivity.
  - rewrite bool_decide_false by (intros [c Hc']; discriminate Hc'). rewrite orb_false_r.
    destruct (Mongo.isObjectId id); reflexivity.
Qed.

(** A category stored under [id] is the one a query for [id] asks for. *)
Lemma Category_id_stored id c db :
  Mongo.categories db !! id = Some c -> Mongo.Category_id id db = id.
Proof. intros H. unfold Mongo.Category_id. now rewrite H. Qed.

Lemma findById_connected id c (w : World.t V) :
  Mongo.connected (World.mongo w) = true ->
  Mongo.categories (World.mongo w) !! id = Some c ->
  ask_mongo (Mongo.Category_findById id) w = (Ret (Some c), w).
Proof. intros H Hc. unfold ask_mongo. now rewrite Category_findById_cases, Hc, H. Qed.

Lemma findById_down id (w : World.t V) :
  Mongo.connected (World.mongo w) = false ->
  exists message, ask_mongo (Mongo.Category_findById id) w = (Throw message, w).
Proof.
  intros H. unfold ask_mongo. rewrite Category_findById_cases, H.
  destruct (Mongo.categories (World.mongo w) !! id); [eexists; reflexivity |].
  destruct (Mongo.isObjectId id); eexists; reflexivity.
Qed.

(** The hook lets the deletion through exactly when nothing refers to the
    category. *)
Lemma deleteOne_connected id c (w : World.t V) :
  Mongo.connected (World.mongo w) = true ->
  deleteOne id c w
  = if (0 <? length (List.filter (references (Category.name c))
                       (Mongo.dramas (World.mongo w))))%nat
    then (Throw (inUseMessage (Category.name c)
                   (length (List.filter (references (Category.name c))
                              (Mongo.dramas (World.mongo w))))), w)
    else (Ret tt, without_category (Mongo.Category_id id (World.mongo w)) w).
Proof.
  intros H.
  unfold deleteOne, preDeleteOne, bind, ask_mongo, Mongo.Drama_countDocuments.
  rewrite H.
  destruct (0 <? _)%nat; [reflexivity |].
  unfold ret, write_mongo, Mongo.Category_remove, without_category.
  rewrite H. reflexivity.
Qed.

(** The three ways a deletion of a stored category can go. *)
Lemma deleteCategory_down id (w : World.t V) :
  Mongo.connected (World.mongo w) = false ->
  exists message, deleteCategory id w = (Throw message, w).
Proof.
  intros Hconn. unfold deleteCategory, try_catch. unfold bind at 1. cbv beta.
  destruct (findById_down id w Hconn) as [message ->]. exists message. reflexivity.
Qed.

Lemma deleteCategory_in_use id c (w : World.t V) :
  Mongo.connected (World.mongo w) = true ->
  Mongo.categories (World.mongo w) !! id = Some c ->
  (0 < uses w c)%nat ->
  deleteCategory id w = (Throw (inUseMessage (Category.name c) (uses w c)), w).
Proof.
  intros Hconn Hc Hpos. unfold deleteCategory, try_catch. unfold bind at 1. cbv beta.
  rewrite (findById_connected id c w Hconn Hc). cbv beta iota.
  unfold bind at 1. cbv beta. rewrite (deleteOne_connected id c w Hconn).
  fold (uses w c). apply Nat.ltb_lt in Hpos. rewrite Hpos. reflexivity.
Qed.

Lemma deleteCategory_unused id c (w : World.t V) :
  Mongo.connected (World.mongo w) = true ->
  Mongo.categories (World.mongo w) !! id = Some c ->
  uses w c = 0%nat ->
  exists r, deleteCategory id w
            = (Ret true, World.mk (World.mongo (without_category id w)) r).
Proof.
  intros Hconn Hc Hzero. unfold deleteCategory, try_catch. unfold bind at 1. cbv beta.
  rewrite (findById_connected id c w Hconn Hc). cbv beta iota.
  unfold bind at 1. cbv beta.
  rewrite (deleteOne_connected id c w Hconn), (Category_id_stored id c _ Hc).
  fold (uses w c). rewrite Hzero. cbn [Nat.ltb Nat.leb].
  unfold bind. cbv beta iota.
  destruct (clearCache_mongo (without_category id w)) as [r Hr].
  rewrite Hr. exists r. reflexivity.
Qed.

End CategoryDeletion.

(** C6.  Deleting a category [c] fails with an error and leaves the store as
    it was whenever a content item's category is the name of [c]; when the
    deletion succeeds no content item references [c] and [c] is gone, and it
    does succeed when none references it (the store being reachable). *)
Theorem category_deletion_guard {V : Type} (id : string) (c : Category.t) (w : World.t V) :
  Mongo.categories (World.mongo w) !! id = Some c ->
  (CategoryService.referenced w c ->
   exists message, CategoryService.deleteCategory id w = (Throw message, w))
  /\ (forall answer w', CategoryService.deleteCategory id w = (Ret answer, w') ->
      answer = true
      /\ ~ CategoryService.referenced w c
      /\ Mongo.categories (World.mongo w') = delete id (Mongo.categories (World.mongo w))
      /\ Mongo.dramas (World.mongo w') = Mongo.dramas (World.mongo w))
  /\ (Mongo.connected (World.mongo w) = true -> ~ CategoryService.referenced w c ->
      exists w', CategoryService.deleteCategory id w = (Ret true, w')
                 /\ Mongo.categories (World.mongo w') !! id = None).
Proof.
  intros Hc.
  pose proof (count_references_pos w c) as Hcount. fold (CategoryService.uses w c) in Hcount.
  destruct (Mongo.connected (World.mongo w)) eqn:Hconn.
  2: { destruct (deleteCategory_down id w Hconn) as [message ->].
       split; [intros _; eexists; reflexivity |].
       split; [intros answer w' H; discriminate | intros H; discriminate]. }
  destruct (Nat.eq_dec (CategoryService.uses w c) 0) as [Hzero|Hpos].
  - assert (Hn : ~ CategoryService.referenced w c) by (intros H; apply Hcount in H; lia).
    destruct (deleteCategory_unused id c w Hconn Hc Hzero) as [r Hrun]. rewrite Hrun.
    split; [intros H; contradiction |].
    split.
    + intros answer w' H. injection H as <- <-. cbn. repeat split; assumption.
    + intros _ _. eexists. split; [reflexivity |]. cbn. apply lookup_delete_eq.
  - assert (Hlt : (0 < CategoryService.uses w c)%nat) by lia.
    rewrite (deleteCategory_in_use id c w Hconn Hc Hlt).
    apply Hcount in Hlt.
    split; [intros _; eexists; reflexivity |].
    split; [intros answer w' H; discriminate | intros _ Hn; contradiction].
Qed.

Lemma category_deletion_guard_witness :
  (exists message,
      CategoryService.deleteCategory "c1" Fixtures.world = (Throw message, Fixtures.world))
  /\ (exists w', CategoryService.deleteCategory "c2" Fixtures.world = (Ret true, w')
                 /\ Mongo.categories (World.mongo w') !! "c2"%string = None).
Proof.
  split.
  - apply (proj1 (category_deletion_guard "c1" Fixtures.romance Fixtures.world
                    ltac:(vm_compute; reflexivity))).
    exists Samples.seed. split; [now left | reflexivity].
  - apply (proj2 (proj2 (category_deletion_guard "c2" Fixtures.horror Fixtures.world
                           ltac:(vm_compute; reflexivity)))).
    + reflexivity.
    + intros [d [[<-|[<-|[]]] H]]; discriminate H.
Defined.

(** ** Preference updates *)

Section PreferenceInvariant.
Import JS UserPreferenceModel.
Local Open Scope Q_scope.

Lemma clamp_in_range weight : 0 <= Math_min 1 (Math_max 0 weight) <= 1.
Proof.
  unfold Math_min, Math_max. split.
  - apply Q.min_glb; [lra | apply Q.le_max_l].
  - apply Q.le_min_l.
Qed.

Lemma putWeight_range name weight l :
  weights_in_range l -> weights_in_range (putWeight name weight l).
Proof.
  intros Hl. unfold putWeight, weights_in_range.
  destruct (findIndex (has_key name) l) as [i|].
  - apply Forall_alter; [exact Hl |].
    intros e _ _. cbn [set_weight Weighted.weight]. apply clamp_in_range.
  - apply Forall_app. split; [exact Hl |].
    constructor; [| constructor]. cbn [Weighted.weight]. apply clamp_in_range.
Qed.

Lemma putWeight_length name weight l :
  (length (putWeight name weight l) <= S (length l))%nat.
Proof.
  unfold putWeight. destruct (findIndex (has_key name) l) as [i|].
  - rewrite length_alter. lia.
  - rewrite length_app. cbn [length]. lia.
Qed.

Lemma keepTop_length n l : (length (keepTop n l) <= n)%nat.
Proof.
  unfold keepTop, slice0. destruct (Nat.ltb_spec n (length l)).
  - rewrite length_firstn. lia.
  - lia.
Qed.

Lemma keepTop_range n l : weights_in_range l -> weights_in_range (keepTop n l).
Proof.
  intros Hl. unfold keepTop, slice0. destruct (n <? length l)%nat; [| exact Hl].
  apply List.Forall_forall. intros e He. apply In_firstn in He.
  apply (Permutation_in _ (Permutation_sym (sort_perm Weighted.weight l))) in He.
  unfold weights_in_range in Hl. rewrite List.Forall_forall in Hl. now apply Hl.
Qed.

(** What [keepTop] cuts off weighs no more than anything it keeps. *)
Lemma keepTop_kept_highest n l : kept_highest l (keepTop n l).
Proof.
  unfold kept_highest, keepTop, slice0. destruct (n <? length l)%nat.
  - exists (skipn n (sort by_weight_desc l)). split.
    + rewrite firstn_skipn. symmetry. apply (sort_perm Weighted.weight).
    + intros k d Hk Hd.
      apply (sorted_prefix_dominates Weighted.weight n (sort by_weight_desc l));
        [apply (sort_sorted Weighted.weight) | exact Hk | exact Hd].
  - exists []. split; [now rewrite app_nil_r | intros k d _ []].
Qed.

Lemma actionWeights_range action :
  0 <= actionWeights action * (6 # 10) /\ actionWeights action * (6 # 10) <= 1.
Proof. destruct action; cbn [actionWeights]; split; lra. Qed.

Lemma bumpActor_range action actors actor :
  weights_in_range actors -> weights_in_range (bumpActor (actionWeights action) actors actor).
Proof.
  intros Hl. unfold bumpActor, weights_in_range.
  pose proof (actionWeights_range action) as [Hlo Hhi].
  destruct (findIndex (has_key actor) actors) as [i|].
  - apply Forall_alter; [exact Hl |].
    intros e _ [He0 He1]. cbn [set_weight Weighted.weight]. unfold Math_min. split.
    + apply Q.min_glb; lra.
    + apply Q.le_min_l.
  - apply Forall_app. split; [exact Hl |].
    constructor; [| constructor]. cbn [Weighted.weight]. split; assumption.
Qed.

Lemma fold_bumpActor_range action cast : forall actors,
  weights_in_range actors ->
  weights_in_range (fold_left (bumpActor (actionWeights action)) cast actors).
Proof.
  induction cast as [|actor cast IH]; intros actors Hl; cbn [fold_left].
  - exact Hl.
  - apply IH, bumpActor_range, Hl.
Qed.

Lemma updateCategoryPreference_invariant now category weight p :
  invariant p -> invariant (updateCategoryPreference now category weight p).
Proof.
  intros (Hc & Ht & Ha & Lc & Lt & La).
  unfold invariant, updateCategoryPreference. cbn.
  repeat split; try assumption.
  - apply keepTop_range, putWeight_range, Hc.
  - apply keepTop_length.
Qed.

Lemma updateTagPreference_invariant now tag weight p :
  invariant p -> invariant (updateTagPreference now tag weight p).
Proof.
  intros (Hc & Ht & Ha & Lc & Lt & La).
  unfold invariant, updateTagPreference. cbn.
  repeat split; try assumption.
  - apply keepTop_range, putWeight_range, Ht.
  - apply keepTop_length.
Qed.

Lemma fold_updateTagPreference now weight tags : forall p,
  invariant p ->
  invariant (fold_left (fun p tag => updateTagPreference now tag weight p) tags p)
  /\ UserPreference.actors
       (fold_left (fun p tag => updateTagPreference now tag weight p) tags p)
     = UserPreference.actors p.
Proof.
  induction tags as [|tag tags IH]; intros p Hp; cbn [fold_left].
  - split; [exact Hp | reflexivity].
  - destruct (IH (updateTagPreference now tag weight p)
                (updateTagPreference_invariant now tag weight p Hp)) as [Hinv Hact].
    split; [exact Hinv | rewrite Hact; reflexivity].
Qed.

Lemma afterCategoryAndTags_spec now drama action p :
  invariant p ->
  invariant (afterCategoryAndTags now drama action p)
  /\ UserPreference.actors (afterCategoryAndTags now drama action p)
     = UserPreference.actors p.
Proof.
  intros Hp. unfold afterCategoryAndTags.
  set (p1 := match Drama.category drama with
             | EmptyString => p
             | String a s =>
                 updateCategoryPreference now (String a s) (actionWeights action) p
             end).
  assert (H1 : invariant p1 /\ UserPreference.actors p1 = UserPreference.actors p).
  { subst p1. destruct (Drama.category drama) as [|a s]; [now split |].
    split; [now apply updateCategoryPreference_invariant | reflexivity]. }
  destruct H1 as [Hinv1 Hact1].
  destruct (Drama.tags drama) as [tags|]; cbv zeta.
  - destruct (fold_updateTagPreference now (actionWeights action * (8 # 10)) tags p1 Hinv1)
      as [Hinv Hact].
    split; [exact Hinv | now rewrite Hact].
  - now split.
Qed.

Lemma applyDrama_unfold now drama action p :
  applyDrama now drama action p
  = match Drama.cast drama with
    | Some cast =>
        with_actors
          (keepTop 15 (fold_left (bumpActor (actionWeights action)) cast
                         (UserPreference.actors (afterCategoryAndTags now drama action p))))
          (afterCategoryAndTags now drama action p)
    | None => afterCategoryAndTags now drama action p
    end.
Proof. reflexivity. Qed.

Lemma applyDrama_invariant now drama action p :
  invariant p -> invariant (applyDrama now drama action p).
Proof.
  intros Hp. rewrite applyDrama_unfold.
  destruct (afterCategoryAndTags_spec now drama action p Hp)
    as [(Hc & Ht & Ha & Lc & Lt & La) Hact].
  destruct (Drama.cast drama) as [cast|].
  - unfold invariant. cbn. repeat split; try assumption.
    + apply keepTop_range, fold_bumpActor_range, Ha.
    + apply keepTop_length.
  - repeat split; assumption.
Qed.

Lemma applyDrama_actors now drama action p cast :
  invariant p -> Drama.cast drama = Some cast ->
  kept_highest (fold_left (bumpActor (actionWeights action)) cast (UserPreference.actors p))
               (UserPreference.actors (applyDrama now drama action p)).
Proof.
  intros Hp Hcast. rewrite applyDrama_unfold, Hcast.
  destruct (afterCategoryAndTags_spec now drama action p Hp) as [_ Hact].
  rewrite Hact. cbn. apply keepTop_kept_highest.
Qed.

End PreferenceInvariant.

Section PreferenceStore.
Import Eff UserPreferenceModel.
Context {V : Type}.

Lemma save_connected p (w : World.t V) :
  Mongo.connected (World.mongo w) = true ->
  write_mongo (Mongo.UserPreference_save p) w = (Ret tt, stored p w).
Proof.
  intros H. unfold write_mongo, Mongo.UserPreference_save, stored. now rewrite H.
Qed.

Lemma getOrCreate_down now userId (w : World.t V) :
  Mongo.connected (World.mongo w) = false ->
  getOrCreateUserPreference now userId w = (Throw Mongo.unavailable, w).
Proof.
  intros H. unfold getOrCreateUserPreference, bind, ask_mongo, Mongo.UserPreference_findOne.
  now rewrite H.
Qed.

Lemma getOrCreate_connected now userId (w : World.t V) :
  Mongo.connected (World.mongo w) = true ->
  getOrCreateUserPreference now userId w
  = match Mongo.preferences (World.mongo w) !! userId with
    | Some p => (Ret p, w)
    | None => (Ret (fresh now userId), stored (fresh now userId) w)
    end.
Proof.
  intros H. unfold getOrCreateUserPreference. unfold bind at 1. cbv beta.
  unfold ask_mongo, Mongo.UserPreference_findOne. rewrite H.
  destruct (Mongo.preferences (World.mongo w) !! userId) as [p|]; [reflexivity |].
  unfold bind. cbv beta. rewrite (save_connected _ w H). reflexivity.
Qed.

(** What [updatePreferenceFromDrama] returns and stores. *)
Lemma updatePreferenceFromDrama_run now userId drama action (w : World.t V) :
  updatePreferenceFromDrama now userId drama action w
  = if Mongo.connected (World.mongo w) then
      match Mongo.preferences (World.mongo w) !! userId with
      | Some p =>
          (Ret (applyDrama now drama action p), stored (applyDrama now drama action p) w)
      | None =>
          (Ret (applyDrama now drama action (fresh now userId)),
           stored (applyDrama now drama action (fresh now userId))
                  (stored (fresh now userId) w))
      end
    else (Throw Mongo.unavailable, w).
Proof.
  unfold updatePreferenceFromDrama. unfold bind at 1. cbv beta.
  destruct (Mongo.connected (World.mongo w)) eqn:H.
  - rewrite (getOrCreate_connected now userId w H).
    destruct (Mongo.preferences (World.mongo w) !! userId) as [p|];
      cbv beta iota zeta; unfold bind; cbv beta.
    + rewrite (save_connected _ w H). reflexivity.
    + rewrite (save_connected _ (stored (fresh now userId) w) H). reflexivity.
  - rewrite (getOrCreate_down now userId w H). reflexivity.
Qed.

Lemma fresh_invariant now userId : invariant (fresh now userId).
Proof.
  unfold invariant, fresh, weights_in_range. cbn.
  repeat split; try constructor; lia.
Qed.

End PreferenceStore.



(** ** Authentication *)

Ltac run_eff :=
  cbv beta iota zeta delta
    [Eff.bind Eff.try_catch Eff.ret Eff.throw Eff.ask_mongo Eff.ask_redis
     Eff.write_mongo Eff.write_redis Eff.redis_isReady].

Section VerifyAccessToken.
Import JS Eff AuthService.

Lemma verifyAccessToken_run lib env now token (w : World.t string) :
  verifyAccessToken lib env now token w = (Ret (verified lib env now token w), w).
Proof.
  unfold verifyAccessToken, verified. fold (secretOf env). run_eff.
  destruct (Redis.isReady (World.cache w)) eqn:Hready; cbn [andb]; run_eff.
  - unfold Redis.exists_. rewrite Hready.
    destruct (Redis.lookup now (blacklistKey token) (World.cache w));
      cbn [Nat.ltb Nat.leb]; run_eff.
    + reflexivity.
    + destruct (jwt_verify lib token (secretOf env)) as [decoded|e]; [| reflexivity].
      destruct (Mongo.User_findById (p_userId decoded) (World.mongo w)) as [[u|]|e];
        try reflexivity.
      destruct (User.is_active u); reflexivity.
  - cbn [Nat.ltb Nat.leb]. run_eff.
    destruct (jwt_verify lib token (secretOf env)) as [decoded|e]; [| reflexivity].
    destruct (Mongo.User_findById (p_userId decoded) (World.mongo w)) as [[u|]|e];
      try reflexivity.
    destruct (User.is_active u); reflexivity.
Qed.

End VerifyAccessToken.

(** C10 (as stated, refuted).  While the cache is down the blacklist is not
    consulted: [good-token] has a live blacklist entry, and
    [verifyAccessToken] returns its user. *)
Lemma blacklisted_token_accepted_during_cache_outage :
  AuthService.onBlacklist 100 "good-token" (World.cache AuthFixtures.outage)
  /\ AuthService.verifyAccessToken AuthFixtures.lib AuthFixtures.env 100 "good-token"
       AuthFixtures.outage
     = (Ret (Some AuthFixtures.alice), AuthFixtures.outage).
Proof.
  split.
  - unfold AuthService.onBlacklist. vm_compute. discriminate.
  - rewrite verifyAccessToken_run. vm_compute. reflexivity.
Qed.

(** C10 (amended).  [verifyAccessToken] never throws: for every token it
    returns an active user or null and leaves the world as it was; it returns
    null whenever the cache is ready and the token is on the logout
    blacklist, whenever the token fails verification, and whenever the user
    the token names cannot be read, does not exist or is not active. *)
Theorem verifyAccessToken_never_throws
    (lib : AuthService.Libraries) (env : AuthService.Env) (now : Z) (token : string)
    (w : World.t string) :
  exists answer,
    AuthService.verifyAccessToken lib env now token w = (Ret answer, w)
    /\ (forall u, answer = Some u -> User.status u = User.ACTIVE)
    /\ (Redis.isReady (World.cache w) = true ->
        AuthService.onBlacklist now token (World.cache w) -> answer = None)
    /\ (forall e, AuthService.jwt_verify lib token (AuthService.secretOf env) = Throw e -> answer = None)
    /\ (forall decoded,
          AuthService.jwt_verify lib token (AuthService.secretOf env) = Ret decoded ->
          (forall u, Mongo.User_findById (AuthService.p_userId decoded) (World.mongo w)
                     = Ret (Some u) -> User.status u <> User.ACTIVE) ->
          answer = None).
Proof.
  exists (AuthService.verified lib env now token w).
  split; [apply verifyAccessToken_run |].
  unfold AuthService.verified, AuthService.onBlacklist.
  split; [| split; [| split]].
  - intros u.
    destruct (Redis.isReady (World.cache w) && _); [discriminate |].
    destruct (AuthService.jwt_verify lib token (AuthService.secretOf env)) as [decoded|e]; [| discriminate].
    destruct (Mongo.User_findById _ _) as [[u'|]|e]; try discriminate.
    unfold User.is_active. destruct (User.status u') eqn:Hs; try discriminate.
    intros H. injection H as <-. exact Hs.
  - intros Hready Hon. rewrite Hready. cbn [andb].
    destruct (Redis.lookup now (AuthService.blacklistKey token) (World.cache w));
      [reflexivity | contradiction].
  - intros e He. rewrite He. destruct (Redis.isReady (World.cache w) && _); reflexivity.
  - intros decoded Hd Hu. rewrite Hd.
    destruct (Redis.isReady (World.cache w) && _); [reflexivity |].
    destruct (Mongo.User_findById _ _) as [[u|]|e]; try reflexivity.
    specialize (Hu u eq_refl). unfold User.is_active.
    destruct (User.status u); try reflexivity. contradiction.
Qed.

Lemma verifyAccessToken_never_throws_witness :
  AuthService.verifyAccessToken AuthFixtures.lib AuthFixtures.env 100 "good-token"
    AuthFixtures.blacklisted
  = (Ret None, AuthFixtures.blacklisted).
Proof.
  destruct (verifyAccessToken_never_throws AuthFixtures.lib AuthFixtures.env 100 "good-token"
              AuthFixtures.blacklisted) as (answer & Hrun & _ & Hblack & _).
  rewrite Hrun. rewrite Hblack.
  - reflexivity.
  - reflexivity.
  - unfold AuthService.onBlacklist. vm_compute. discriminate.
Defined.

Section Numerals.
Import JS.

Lemma parse_digits_of_uint d : forall acc,
  parse_digits (NilEmpty.string_of_uint d) acc = Nat.of_uint_acc d acc.
Proof.
  induction d; intros acc; cbn [NilEmpty.string_of_uint parse_digits Nat.of_uint_acc];
    try reflexivity;
    change (digit_value _) with (Some 0%nat) || change (digit_value _) with (Some 1%nat)
    || change (digit_value _) with (Some 2%nat) || change (digit_value _) with (Some 3%nat)
    || change (digit_value _) with (Some 4%nat) || change (digit_value _) with (Some 5%nat)
    || change (digit_value _) with (Some 6%nat) || change (digit_value _) with (Some 7%nat)
    || change (digit_value _) with (Some 8%nat) || change (digit_value _) with (Some 9%nat);
    cbv beta iota; rewrite IHd, Nat.tail_mul_spec; f_equal; lia.
Qed.

Lemma parseInt_of_uint d :
  d <> Decimal.Nil ->
  parseInt (NilEmpty.string_of_uint d)
  = Some (parse_digits (NilEmpty.string_of_uint d) 0).
Proof. destruct d; [contradiction | reflexivity ..]. Qed.

(** Reading back a count that was written gives the count. *)
Lemma parseInt_toString n : parseInt (toString (Some n)) = Some n.
Proof.
  unfold toString, NilZero.string_of_uint.
  rewrite <- (Unsigned.of_to n) at 2. unfold Nat.of_uint.
  destruct (Nat.to_uint n) as [|d|d|d|d|d|d|d|d|d|d] eqn:E; [reflexivity | ..];
    rewrite parseInt_of_uint by discriminate;
    rewrite parse_digits_of_uint; reflexivity.
Qed.

(** A written count is not the empty string. *)
Lemma toString_truthy n : truthy (Some (toString (Some n))) = Some (toString (Some n)).
Proof.
  unfold toString, NilZero.string_of_uint.
  destruct (Nat.to_uint n); reflexivity.
Qed.

End Numerals.

Section LoginLockout.
Import JS Eff AuthService.
Variables (lib : Libraries) (env : Env) (email : string).

Local Abbreviation locked := (AuthService.locked email).
Local Abbreviation nextCount := (AuthService.nextCount email).
Local Abbreviation recorded := (AuthService.recorded email).
Local Abbreviation cleared := (AuthService.cleared email).
Local Abbreviation Step := (AuthService.Step email).
Local Abbreviation count := (AuthService.count email).
Local Abbreviation armed := (AuthService.armed email).
Local Abbreviation bound := (AuthService.bound email).

Lemma checkLoginAttempts_run now (w : World.t string) :
  Redis.isReady (World.cache w) = true ->
  checkLoginAttempts now email w
  = if locked now (World.cache w) then (Throw MSG_LOCKOUT, w) else (Ret tt, w).
Proof.
  intros Hready. unfold checkLoginAttempts, locked, Redis.get. run_eff.
  repeat (rewrite Hready; cbn [negb]; run_eff).
  destruct (truthy (Redis.lookup now (failedLoginKey email) (World.cache w))) as [s|];
    [| reflexivity].
  destruct (parseInt s) as [n|]; [| reflexivity].
  change (MAX_LOGIN_ATTEMPTS <=? n)%nat with (5 <=? n)%nat.
  destruct (5 <=? n)%nat; reflexivity.
Qed.

Lemma recordFailedLogin_run now (w : World.t string) :
  Redis.isReady (World.cache w) = true ->
  recordFailedLogin now email w
  = (Ret tt, World.mk (World.mongo w) (recorded now (World.cache w))).
Proof.
  intros Hready. unfold recordFailedLogin, recorded, nextCount, Redis.get, Redis.set. run_eff.
  repeat (rewrite Hready; cbn [negb]; run_eff). reflexivity.
Qed.

Lemma clearFailedLogins_run (w : World.t string) :
  Redis.isReady (World.cache w) = true ->
  clearFailedLogins email w = (Ret tt, World.mk (World.mongo w) (cleared (World.cache w))).
Proof.
  intros Hready. unfold clearFailedLogins, cleared, Redis.del. run_eff.
  repeat (rewrite Hready; cbn [negb]; run_eff). reflexivity.
Qed.

Lemma messages_distinct :
  MSG_INVALID <> MSG_LOCKOUT /\ MSG_DISABLED <> MSG_LOCKOUT
  /\ Mongo.unavailable <> MSG_LOCKOUT /\ MSG_DISABLED <> MSG_INVALID
  /\ Mongo.unavailable <> MSG_INVALID.
Proof. repeat split; intros H; vm_compute in H; discriminate H. Qed.

Lemma attempt_step a r :
  Redis.isReady r = true ->
  Step (at_time a) r (fst (attempt lib env email a r)) (snd (attempt lib env email a r)).
Proof.
  intros Hready.
  destruct messages_distinct as (Hil & Hdl & Hul & Hdi & Hui).
  unfold attempt, login. run_eff. cbn [AuthService.email AuthService.password].
  rewrite checkLoginAttempts_run by exact Hready. cbn [World.cache].
  destruct (locked (at_time a) r) eqn:Hlocked; run_eff; cbn [fst snd World.cache].
  { now apply step_locked. }
  unfold Mongo.User_findOne_email. cbn [World.mongo].
  destruct (Mongo.connected (at_store a)) eqn:Hconn; run_eff; cbn [fst snd World.cache].
  2: { now apply step_other. }
  destruct (List.find _ _) as [[id u]|]; run_eff.
  2: { rewrite recordFailedLogin_run by exact Hready. run_eff. cbn [fst snd World.cache].
       now apply step_failed. }
  destruct (User.is_active u); cbn [negb]; run_eff; cbn [fst snd World.cache].
  2: { now apply step_other. }
  destruct (comparePassword lib u (at_password a)); cbn [negb]; run_eff.
  2: { rewrite recordFailedLogin_run by exact Hready. run_eff. cbn [fst snd World.cache].
       now apply step_failed. }
  rewrite clearFailedLogins_run by exact Hready. run_eff.
  unfold createUserSession, Mongo.UserSession_create. run_eff. cbn [World.mongo].
  rewrite Hconn. run_eff. unfold Mongo.User_save. cbn [World.mongo Mongo.connected].
  rewrite ?Hconn. run_eff. cbn [fst snd World.cache].
  now apply step_ok.
Qed.

Lemma attempt_inv a r o r' :
  Redis.isReady r = true -> attempt lib env email a r = (o, r') -> Step (at_time a) r o r'.
Proof.
  intros Hready Hrun. pose proof (attempt_step a r Hready) as H.
  rewrite Hrun in H. exact H.
Qed.

Lemma wf_lookup now r v :
  counter_wellformed email r -> Redis.lookup now (failedLoginKey email) r = Some v ->
  exists n, v = toString (Some n).
Proof.
  unfold counter_wellformed, Redis.lookup. intros Hwf H.
  destruct (Redis.entries r !! failedLoginKey email) as [[v' e]|] eqn:He; [| discriminate].
  destruct (Redis.live now (v', e)); [| discriminate].
  injection H as <-. exact (Hwf v' e eq_refl).
Qed.

Lemma nextCount_count now r :
  counter_wellformed email r -> nextCount now r = Some (S (count now r)).
Proof.
  intros Hwf. unfold nextCount, count.
  destruct (Redis.lookup now (failedLoginKey email) r) as [v|] eqn:Hv; [| reflexivity].
  destruct (wf_lookup now r v Hwf Hv) as [n ->].
  rewrite toString_truthy, parseInt_toString. reflexivity.
Qed.

Lemma locked_count now r :
  counter_wellformed email r -> locked now r = (5 <=? count now r)%nat.
Proof.
  intros Hwf. unfold locked, count.
  destruct (Redis.lookup now (failedLoginKey email) r) as [v|] eqn:Hv; [| reflexivity].
  destruct (wf_lookup now r v Hwf Hv) as [n ->].
  rewrite toString_truthy, parseInt_toString. reflexivity.
Qed.

Lemma armed_count k t r now :
  armed k t r -> (now < t + LOCKOUT_DURATION)%Z -> (k <= count now r)%nat.
Proof.
  intros (m & Hm & He) Hnow. unfold count, Redis.lookup, Redis.live. rewrite He.
  cbn [snd fst]. apply Z.ltb_lt in Hnow. rewrite Hnow, parseInt_toString. exact Hm.
Qed.

Lemma recorded_armed now r :
  counter_wellformed email r -> armed (S (count now r)) now (recorded now r).
Proof.
  intros Hwf. exists (S (count now r)). split; [lia |].
  unfold recorded. cbn [Redis.entries]. rewrite lookup_insert_eq.
  rewrite (nextCount_count now r Hwf). reflexivity.
Qed.

Lemma recorded_wf now r :
  counter_wellformed email r -> counter_wellformed email (recorded now r).
Proof.
  intros Hwf v e. unfold recorded. cbn [Redis.entries]. rewrite lookup_insert_eq.
  rewrite (nextCount_count now r Hwf). intros H. injection H as <- _. eauto.
Qed.

Lemma within_window_app t l x :
  within_window t (l ++ [x])
  <-> within_window t l /\ (at_time x < last_time t l + LOCKOUT_DURATION)%Z.
Proof.
  revert t. induction l as [|a l IH]; intros t; cbn [app within_window last_time fold_left].
  - tauto.
  - rewrite IH. unfold last_time. tauto.
Qed.

(** A credential failure on a well-formed counter arms it one higher. *)
Lemma failed_step a r r' :
  Redis.isReady r = true -> counter_wellformed email r ->
  attempt lib env email a r = (Throw MSG_INVALID, r') ->
  Redis.isReady r' = true /\ counter_wellformed email r'
  /\ armed (S (count (at_time a) r)) (at_time a) r'.
Proof.
  intros Hready Hwf Hrun.
  destruct messages_distinct as (Hil & _).
  pose proof (attempt_inv a r _ _ Hready Hrun) as Hs.
  inversion Hs; subst; try congruence.
  split; [exact Hready |]. split; [now apply recorded_wf | now apply recorded_armed].
Qed.

Lemma failures_chain l : forall r k t,
  Redis.isReady r = true -> counter_wellformed email r -> armed k t r ->
  within_window t l ->
  Forall (fun o => o = Throw MSG_INVALID) (fst (attempts lib env email l r)) ->
  Redis.isReady (snd (attempts lib env email l r)) = true
  /\ counter_wellformed email (snd (attempts lib env email l r))
  /\ armed (k + length l) (last_time t l) (snd (attempts lib env email l r)).
Proof.
  induction l as [|a l IH]; intros r k t Hready Hwf Harmed Hwin Hall.
  - cbn. rewrite Nat.add_0_r. auto.
  - cbn [attempts] in *.
    destruct (attempt lib env email a r) as [o r1] eqn:Hrun.
    destruct (attempts lib env email l r1) as [os r2] eqn:Hrest.
    cbn [fst snd] in *. destruct Hwin as [Hnow Hwin].
    inversion Hall as [|? ? Ho Hos]; subst.
    destruct (failed_step a r r1 Hready Hwf Hrun) as (Hready1 & Hwf1 & Harmed1).
    pose proof (armed_count k t r (at_time a) Harmed Hnow) as Hk.
    assert (Harmed1' : armed (S k) (at_time a) r1).
    { destruct Harmed1 as (m & Hm & He). exists m. split; [lia | exact He]. }
    specialize (IH r1 (S k) (at_time a) Hready1 Hwf1 Harmed1' Hwin).
    rewrite Hrest in IH. cbn [fst snd] in IH.
    destruct (IH Hos) as (H1 & H2 & H3).
    cbn [length last_time fold_left]. replace (k + S (length l))%nat with (S k + length l)%nat by lia.
    auto.
Qed.

Lemma bound_wf n r : bound n r -> counter_wellformed email r.
Proof. intros Hb v e He. destruct (Hb v e He) as (m & -> & _). eauto. Qed.

Lemma bound_count n r now : bound n r -> (count now r <= n)%nat.
Proof.
  intros Hb. unfold count, Redis.lookup.
  destruct (Redis.entries r !! failedLoginKey email) as [[v e]|] eqn:He; [| lia].
  destruct (Hb v e He) as (m & -> & Hm).
  destruct (Redis.live now _); [| lia]. cbn [fst]. now rewrite parseInt_toString.
Qed.

Lemma bound_step n now r o r' :
  bound n r -> Step now r o r' ->
  bound (S n) r' /\ ((n < 5)%nat -> o <> Throw MSG_LOCKOUT).
Proof.
  intros Hb Hs.
  destruct messages_distinct as (Hil & Hdl & Hul & Hdi & Hui).
  pose proof (bound_wf n r Hb) as Hwf.
  pose proof (bound_count n r now Hb) as Hc.
  assert (Hmono : bound (S n) r).
  { intros v e He. destruct (Hb v e He) as (m & -> & Hm). exists m. split; [reflexivity | lia]. }
  inversion Hs; subst.
  - split; [exact Hmono |]. intros Hn.
    rewrite (locked_count now r' Hwf) in H. apply Nat.leb_le in H. lia.
  - split; [exact Hmono |]. intros _ Heq. congruence.
  - split; [| intros _ Heq; congruence].
    intros v e. unfold recorded. cbn [Redis.entries]. rewrite lookup_insert_eq.
    rewrite (nextCount_count now r Hwf). intros He. injection He as <- _.
    exists (S (count now r)). split; [reflexivity | lia].
  - split; [| intros _ Heq; discriminate].
    intros v e. unfold cleared. cbn [Redis.entries]. rewrite lookup_delete_eq. discriminate.
Qed.

Lemma step_ready now r o r' : Redis.isReady r = true -> Step now r o r' -> Redis.isReady r' = true.
Proof. intros Hready Hs. inversion Hs; subst; exact Hready. Qed.

Lemma bounded_run l : forall r n,
  Redis.isReady r = true -> bound n r -> (n + length l <= 5)%nat ->
  Forall (fun o => o <> Throw MSG_LOCKOUT) (fst (attempts lib env email l r)).
Proof.
  induction l as [|a l IH]; intros r n Hready Hb Hlen.
  - constructor.
  - cbn [attempts].
    destruct (attempt lib env email a r) as [o r1] eqn:Hrun.
    destruct (attempts lib env email l r1) as [os r2] eqn:Hrest.
    cbn [fst]. cbn [length] in Hlen.
    pose proof (attempt_inv a r o r1 Hready Hrun) as Hs.
    destruct (bound_step n (at_time a) r o r1 Hb Hs) as [Hb1 Ho].
    constructor; [apply Ho; lia |].
    specialize (IH r1 (S n) (step_ready _ _ _ _ Hready Hs) Hb1).
    rewrite Hrest in IH. apply IH. lia.
Qed.

End LoginLockout.

(** C7 (as stated, refuted).  Five failed logins in a row need not lock the
    email out.  Against the banned account of [bob] every attempt fails on the
    account status, which is not counted, and the sixth fails the same way;
    and five wrong passwords for [alice] a thousand seconds apart each find
    the counter expired, so the sixth attempt, with the right password, logs
    in. *)
Lemma five_failures_without_lockout :
  (fst (AuthService.attempts AuthFixtures.lib AuthFixtures.env "bob@example.com"
          AuthFixtures.burst AuthFixtures.cache)
   = repeat (Throw AuthService.MSG_DISABLED) 5
   /\ fst (AuthService.attempt AuthFixtures.lib AuthFixtures.env "bob@example.com"
             (AuthFixtures.wrong 300)
             (snd (AuthService.attempts AuthFixtures.lib AuthFixtures.env "bob@example.com"
                     AuthFixtures.burst AuthFixtures.cache)))
      = Throw AuthService.MSG_DISABLED
   /\ AuthService.MSG_DISABLED <> AuthService.MSG_LOCKOUT)
  /\
  (fst (AuthService.attempts AuthFixtures.lib AuthFixtures.env "alice@example.com"
          AuthFixtures.slow AuthFixtures.cache)
   = repeat (Throw AuthService.MSG_INVALID) 5
   /\ returned
        (fst (AuthService.attempt AuthFixtures.lib AuthFixtures.env "alice@example.com"
                (AuthFixtures.right 5000)
                (snd (AuthService.attempts AuthFixtures.lib AuthFixtures.env
                        "alice@example.com" AuthFixtures.slow AuthFixtures.cache))))
      = true).
Proof.
  split; [split; [| split] | split].
  - vm_compute. exact eq_refl.
  - vm_compute. exact eq_refl.
  - intros H. vm_compute in H. discriminate H.
  - vm_compute. exact eq_refl.
  - vm_compute. exact eq_refl.
Qed.

(** C7 (amended).  With the counter cache available and the counter key
    holding nothing but what the service wrote: after five consecutive
    attempts for an email that fail on the credentials (unknown email or
    wrong password), each made before the counter written by the one before
    expires, a sixth attempt made before the counter expires is rejected with
    the lockout error whatever its password and whatever the user store
    holds, and changes nothing; a successful login removes the counter, and
    from a removed counter no attempt among the next five is rejected by the
    lockout; an attempt rejected because the account is not active leaves
    the counter as it was. *)
Theorem login_lockout_after_five_credential_failures
    (lib : AuthService.Libraries) (env : AuthService.Env) (email : string)
    (r0 : Redis.t string) (failures : list AuthService.Attempt) (sixth : AuthService.Attempt) :
  Redis.isReady r0 = true ->
  AuthService.counter_wellformed email r0 ->
  (length failures = 5%nat ->
   AuthService.spaced (failures ++ [sixth]) ->
   Forall (fun o => o = Throw AuthService.MSG_INVALID)
          (fst (AuthService.attempts lib env email failures r0)) ->
   AuthService.attempt lib env email sixth (snd (AuthService.attempts lib env email failures r0))
   = (Throw AuthService.MSG_LOCKOUT, snd (AuthService.attempts lib env email failures r0)))
  /\ (forall a result r',
        AuthService.attempt lib env email a r0 = (Ret result, r') ->
        Redis.entries r' !! AuthService.failedLoginKey email = None)
  /\ (forall l,
        Redis.entries r0 !! AuthService.failedLoginKey email = None ->
        (length l <= 5)%nat ->
        Forall (fun o => o <> Throw AuthService.MSG_LOCKOUT)
               (fst (AuthService.attempts lib env email l r0)))
  /\ (forall a r',
        AuthService.attempt lib env email a r0 = (Throw AuthService.MSG_DISABLED, r') ->
        r' = r0).
Proof.
  intros Hready Hwf.
  destruct messages_distinct as (Hil & Hdl & Hul & Hdi & Hui).
  split; [| split; [| split]].
  - intros Hlen Hspaced Hall.
    destruct failures as [|a1 rest]; [discriminate |].
    cbn [app AuthService.spaced] in Hspaced.
    apply within_window_app in Hspaced. destruct Hspaced as [Hwin Hsixth].
    cbn [AuthService.attempts] in *.
    destruct (AuthService.attempt lib env email a1 r0) as [o1 r1] eqn:Hrun1.
    destruct (AuthService.attempts lib env email rest r1) as [os r5] eqn:Hrest.
    cbn [fst snd] in *.
    inversion Hall as [|? ? Ho1 Hos]; subst.
    destruct (failed_step lib env email a1 r0 r1 Hready Hwf Hrun1) as (Hready1 & Hwf1 & Harmed1).
    assert (Harmed1' : AuthService.armed email 1 (AuthService.at_time a1) r1).
    { destruct Harmed1 as (m & Hm & He). exists m. split; [lia | exact He]. }
    pose proof (failures_chain lib env email rest r1 1 (AuthService.at_time a1)
                  Hready1 Hwf1 Harmed1' Hwin) as Hchain.
    rewrite Hrest in Hchain. cbn [fst snd] in Hchain.
    destruct (Hchain Hos) as (Hready5 & Hwf5 & Harmed5).
    cbn [length] in Hlen.
    replace (1 + length rest)%nat with 5%nat in Harmed5 by lia.
    pose proof (armed_count email 5 _ r5 (AuthService.at_time sixth) Harmed5 Hsixth) as Hcount.
    assert (Hlocked : AuthService.locked email (AuthService.at_time sixth) r5 = true).
    { rewrite (locked_count email _ r5 Hwf5). now apply Nat.leb_le. }
    destruct (AuthService.attempt lib env email sixth r5) as [o6 r6] eqn:Hrun6.
    pose proof (attempt_inv lib env email sixth r5 o6 r6 Hready5 Hrun6) as Hs.
    inversion Hs; subst; congruence.
  - intros a result r' Hrun.
    pose proof (attempt_inv lib env email a r0 _ _ Hready Hrun) as Hs.
    inversion Hs; subst. unfold AuthService.cleared. cbn [Redis.entries]. apply lookup_delete_eq.
  - intros l Hnone Hlen.
    apply (bounded_run lib env email l r0 0); [exact Hready | | lia].
    intros v e He. rewrite Hnone in He. discriminate.
  - intros a r' Hrun.
    pose proof (attempt_inv lib env email a r0 _ _ Hready Hrun) as Hs.
    inversion Hs; subst; congruence.
Qed.

Lemma login_lockout_after_five_credential_failures_witness :
  AuthService.attempt AuthFixtures.lib AuthFixtures.env "alice@example.com"
    (AuthFixtures.right 300)
    (snd (AuthService.attempts AuthFixtures.lib AuthFixtures.env "alice@example.com"
            AuthFixtures.burst AuthFixtures.cache))
  = (Throw AuthService.MSG_LOCKOUT,
     snd (AuthService.attempts AuthFixtures.lib AuthFixtures.env "alice@example.com"
            AuthFixtures.burst AuthFixtures.cache)).
Proof.
  apply (proj1 (login_lockout_after_five_credential_failures
                  AuthFixtures.lib AuthFixtures.env "alice@example.com" AuthFixtures.cache
                  AuthFixtures.burst (AuthFixtures.right 300)
                  eq_refl
                  ltac:(intros v e H; vm_compute in H; discriminate H))).
  - reflexivity.
  - vm_compute. repeat split; reflexivity.
  - vm_compute. repeat constructor.
Defined.

(** ** Cache keys *)

Example recommendation_key_sample :
  RecommendationService.buildCacheKey
    (RecommendationService.mkRequest (Some (Text.of_string "u1")) None
       RecommendationService.HOT (Some (JS.Int 5)) None
       (Some [Text.of_string "a"; Text.of_string "b"]))
  = Text.of_string "recommendation:{" ++ JSON.quote ++ Text.of_string "userId" ++ JSON.quote
    ++ Text.of_string ":" ++ JSON.quote ++ Text.of_string "u1" ++ JSON.quote
    ++ Text.of_string "," ++ JSON.quote ++ Text.of_string "type" ++ JSON.quote
    ++ Text.of_string ":" ++ JSON.quote ++ Text.of_string "hot" ++ JSON.quote
    ++ Text.of_string "," ++ JSON.quote ++ Text.of_string "limit" ++ JSON.quote
    ++ Text.of_string ":5," ++ JSON.quote ++ Text.of_string "categories" ++ JSON.quote
    ++ Text.of_string ":[" ++ JSON.quote ++ Text.of_string "a" ++ JSON.quote
    ++ Text.of_string "," ++ JSON.quote ++ Text.of_string "b" ++ JSON.quote
    ++ Text.of_string "]}".
Proof. vm_compute. exact eq_refl. Qed.

(** A query that ends in half of a pair: the half is written out in the
    serialized text, and a key cut inside a pair reaches the cache with the
    replacement character. *)
Example search_key_surrogates :
  SearchService.buildCacheKey (SearchService.mkRequest [97; 55357]%N None None)
  = Text.of_string "search:result:{" ++ JSON.quote ++ Text.of_string "query" ++ JSON.quote
    ++ Text.of_string ":" ++ JSON.quote ++ Text.of_string "a\ud83d" ++ JSON.quote
    ++ Text.of_string "," ++ JSON.quote ++ Text.of_string "filters" ++ JSON.quote
    ++ Text.of_string ":{}}"
  /\ Text.utf8 [97; 55357; 56832; 55357]%N
     = String "a" (String (Text.byte 240) (String (Text.byte 159) (String (Text.byte 152)
         (String (Text.byte 128) (Text.replacement EmptyString))))).
Proof. vm_compute. split; exact eq_refl. Qed.

Section CacheKeys.
Import Eff.

(** [s.substring (0, n)] is the first [n] units of [s]. *)
Lemma substring_first (n : nat) (s : Text.t) :
  Text.substring 0 (Z.of_nat n) s = firstn n s.
Proof.
  unfold Text.substring.
  replace (Z.to_nat (Z.min (Z.max 0 0) (Z.of_nat (length s)))) with 0%nat by lia.
  replace (Z.to_nat (Z.min (Z.max 0 (Z.of_nat n)) (Z.of_nat (length s))))
    with (Nat.min n (length s)) by lia.
  rewrite Nat.min_0_l, Nat.max_0_l, Nat.sub_0_r. change (skipn 0 s) with s.
  destruct (Nat.le_ge_cases n (length s)) as [H|H].
  - now rewrite Nat.min_l.
  - rewrite Nat.min_r by exact H. now rewrite !firstn_all2 by lia.
Qed.

Lemma recommendation_key_cut request :
  RecommendationService.buildCacheKey request
  = firstn 250 (RecommendationService.fullKey request).
Proof.
  unfold RecommendationService.buildCacheKey. rewrite (substring_first 250).
  f_equal. unfold RecommendationService.fullKey, RecommendationService.parameters.
  change (Text.of_string "recommendation:")
    with (Text.of_string RecommendationService.CACHE_KEYS_RECOMMENDATION
          ++ Text.of_string ":")%list.
  rewrite <- app_assoc. do 3 f_equal.
  destruct request as [u d t l e c]. cbn [RecommendationService.userId
    RecommendationService.dramaId RecommendationService.type RecommendationService.limit
    RecommendationService.excludeWatched RecommendationService.categories].
  destruct u, d, l as [[n|]|], e, c; reflexivity.
Qed.

Lemma search_key_cut request :
  SearchService.buildCacheKey request = firstn 250 (SearchService.fullKey request).
Proof.
  unfold SearchService.buildCacheKey. rewrite (substring_first 250). reflexivity.
Qed.

Section Recommendations.
Import RecommendationService.
Variable strategies : RecommendationRequest -> Mongo.t -> outcome (list RecommendationItem * string).

Lemma getRecommendations_miss now request db r computed :
  Redis.isReady r = true ->
  Redis.lookup now (Text.utf8 (buildCacheKey request)) r = None ->
  strategies request db = Ret computed ->
  getRecommendations strategies now request (World.mk db r)
  = (Ret (fresh_result now request computed),
     World.mk db (cached_under now (Text.utf8 (buildCacheKey request))
                    (fresh_result now request computed) r)).
Proof.
  intros Hready Hmiss Hrun.
  unfold getRecommendations, fresh_result, cached_under, Redis.get, Redis.set. run_eff.
  cbn [World.cache World.mongo].
  repeat (rewrite Hready; run_eff; cbn [World.cache World.mongo]).
  rewrite Hmiss. run_eff. cbn [World.cache World.mongo]. rewrite Hrun. run_eff.
  cbn [World.cache World.mongo].
  repeat (rewrite Hready; run_eff; cbn [World.cache World.mongo]).
  reflexivity.
Qed.

Lemma getRecommendations_hit now request db r result :
  Redis.isReady r = true ->
  Redis.lookup now (Text.utf8 (buildCacheKey request)) r = Some result ->
  getRecommendations strategies now request (World.mk db r)
  = (Ret (with_executionTime 0 result), World.mk db r).
Proof.
  intros Hready Hhit.
  unfold getRecommendations, Redis.get. run_eff. cbn [World.cache World.mongo].
  repeat (rewrite Hready; run_eff; cbn [World.cache World.mongo]).
  rewrite Hhit. run_eff. reflexivity.
Qed.

End Recommendations.

Section Searches.
Import SearchService.
Context {Found : Type}.
Variable searching : SearchRequest -> Mongo.t -> outcome Found.

Lemma search_miss now request db (r : Redis.t (SearchResult Found)) found :
  Redis.isReady r = true ->
  Redis.lookup now (Text.utf8 (buildCacheKey request)) r = None ->
  searching request db = Ret found ->
  search searching now request (World.mk db r)
  = (Ret (mkResult found 0),
     World.mk db (Redis.mk (Redis.isConnected r)
                    (<[Text.utf8 (buildCacheKey request)
                       := (mkResult found 0, Some (now + CACHE_TTL)%Z)]>
                       (Redis.entries r)))).
Proof.
  intros Hready Hmiss Hrun.
  unfold search, Redis.get, Redis.set. run_eff.
  cbn [World.cache World.mongo].
  repeat (rewrite Hready; run_eff; cbn [World.cache World.mongo]).
  rewrite Hmiss. run_eff. cbn [World.cache World.mongo]. rewrite Hrun. run_eff.
  cbn [World.cache World.mongo].
  repeat (rewrite Hready; run_eff; cbn [World.cache World.mongo]).
  reflexivity.
Qed.

Lemma search_hit now request db (r : Redis.t (SearchResult Found)) result :
  Redis.isReady r = true ->
  Redis.lookup now (Text.utf8 (buildCacheKey request)) r = Some result ->
  search searching now request (World.mk db r)
  = (Ret (with_executionTime 0 result), World.mk db r).
Proof.
  intros Hready Hhit.
  unfold search, Redis.get. run_eff. cbn [World.cache World.mongo].
  repeat (rewrite Hready; run_eff; cbn [World.cache World.mongo]).
  rewrite Hhit. run_eff. reflexivity.
Qed.

End Searches.

End CacheKeys.

(** C9.  The key of a recommendation request is the first 250 code units of
    [recommendation:] followed by the JSON text of its parameters, and the
    key of a search the first 250 code units of [search:result:] followed by
    the JSON text of the query and the filters; a shorter text is the key as
    it is.  So the builders are not injective: the two recommendation
    requests [hotA] and [hotB], which differ in their twentieth category, get
    the same key, and so do the searches for page 1 and page 2 of one query
    of 200 letters.  Whenever two recommendation requests, or two searches,
    share a key and the first is computed and cached, the second, made before
    the entry expires, is answered with the result computed for the first. *)
Theorem cache_keys_truncated_and_collide :
  (forall request,
      RecommendationService.buildCacheKey request
      = firstn 250 (RecommendationService.fullKey request)
      /\ length (RecommendationService.buildCacheKey request)
         = Nat.min 250 (length (RecommendationService.fullKey request)))
  /\ (forall request,
        SearchService.buildCacheKey request = firstn 250 (SearchService.fullKey request)
        /\ length (SearchService.buildCacheKey request)
           = Nat.min 250 (length (SearchService.fullKey request)))
  /\ (CacheFixtures.hotA <> CacheFixtures.hotB
      /\ RecommendationService.fullKey CacheFixtures.hotA
         <> RecommendationService.fullKey CacheFixtures.hotB
      /\ RecommendationService.buildCacheKey CacheFixtures.hotA
         = RecommendationService.buildCacheKey CacheFixtures.hotB)
  /\ (CacheFixtures.page 1 <> CacheFixtures.page 2
      /\ SearchService.fullKey (CacheFixtures.page 1)
         <> SearchService.fullKey (CacheFixtures.page 2)
      /\ SearchService.buildCacheKey (CacheFixtures.page 1)
         = SearchService.buildCacheKey (CacheFixtures.page 2))
  /\ (forall strategies now later first second db db' r computed,
        RecommendationService.buildCacheKey first = RecommendationService.buildCacheKey second ->
        Redis.isReady r = true ->
        Redis.lookup now (Text.utf8 (RecommendationService.buildCacheKey first)) r = None ->
        strategies first db = Ret computed ->
        (later < now + RecommendationService.CACHE_TTL)%Z ->
        exists result r',
          RecommendationService.getRecommendations strategies now first (World.mk db r)
          = (Ret result, World.mk db r')
          /\ RecommendationService.r_items result = fst computed
          /\ RecommendationService.getRecommendations strategies later second (World.mk db' r')
             = (Ret result, World.mk db' r'))
  /\ (forall (Found : Type) (searching : _ -> _ -> outcome Found)
             now later first second db db' r found,
        SearchService.buildCacheKey first = SearchService.buildCacheKey second ->
        Redis.isReady r = true ->
        Redis.lookup now (Text.utf8 (SearchService.buildCacheKey first)) r = None ->
        searching first db = Ret found ->
        (later < now + SearchService.CACHE_TTL)%Z ->
        exists result r',
          SearchService.search searching now first (World.mk db r)
          = (Ret result, World.mk db r')
          /\ SearchService.r_found result = found
          /\ SearchService.search searching later second (World.mk db' r')
             = (Ret result, World.mk db' r')).
Proof.
  split; [| split; [| split; [| split; [| split]]]].
  - intros request. rewrite recommendation_key_cut. split; [reflexivity | apply length_firstn].
  - intros request. rewrite search_key_cut. split; [reflexivity | apply length_firstn].
  - split; [| split];
      [intros H; vm_compute in H; discriminate H ..| vm_compute; exact eq_refl].
  - split; [| split];
      [intros H; vm_compute in H; discriminate H ..| vm_compute; exact eq_refl].
  - intros strategies now later first second db db' r computed Hkey Hready Hmiss Hrun Hlater.
    eexists. eexists. split; [| split].
    + apply getRecommendations_miss; eassumption.
    + reflexivity.
    + rewrite (getRecommendations_hit strategies later second db' _
                 (RecommendationService.fresh_result now first computed)).
      * reflexivity.
      * exact Hready.
      * rewrite <- Hkey. unfold RecommendationService.cached_under, Redis.lookup, Redis.live.
        cbn [Redis.entries]. rewrite lookup_insert_eq. cbn [snd fst].
        apply Z.ltb_lt in Hlater. rewrite Hlater. reflexivity.
  - intros Found searching now later first second db db' r found Hkey Hready Hmiss Hrun
      Hlater.
    eexists. eexists. split; [| split].
    + apply search_miss; eassumption.
    + reflexivity.
    + rewrite (search_hit searching later second db' _ (SearchService.mkResult found 0)).
      * reflexivity.
      * exact Hready.
      * rewrite <- Hkey. unfold Redis.lookup, Redis.live.
        cbn [Redis.entries]. rewrite lookup_insert_eq. cbn [snd fst].
        apply Z.ltb_lt in Hlater. rewrite Hlater. reflexivity.
Qed.

Lemma cache_keys_truncated_and_collide_witness :
  (exists result r',
     RecommendationService.getRecommendations CacheFixtures.strategies 0 CacheFixtures.hotA
       (World.mk Fixtures.db CacheFixtures.emptyCache)
     = (Ret result, World.mk Fixtures.db r')
     /\ RecommendationService.r_items result
        = fst ([RecommendationService.mkItem (Samples.drama "romance" "romance" [] [] 9) 90
                  "热门推荐，高评分高人气" RecommendationService.HOT],
               "popularity_score"%string)
     /\ RecommendationService.getRecommendations CacheFixtures.strategies 600
          CacheFixtures.hotB (World.mk Fixtures.db r')
        = (Ret result, World.mk Fixtures.db r'))
  /\ (exists result r',
        SearchService.search CacheFixtures.searching 0 (CacheFixtures.page 1)
          (World.mk Fixtures.db CacheFixtures.emptySearchCache)
        = (Ret result, World.mk Fixtures.db r')
        /\ SearchService.r_found result = 1%Z
        /\ SearchService.search CacheFixtures.searching 600 (CacheFixtures.page 2)
             (World.mk Fixtures.db r')
           = (Ret result, World.mk Fixtures.db r')).
Proof.
  split.
  - apply (proj1 (proj2 (proj2 (proj2 (proj2 cache_keys_truncated_and_collide))))
             CacheFixtures.strategies 0%Z 600%Z CacheFixtures.hotA CacheFixtures.hotB
             Fixtures.db Fixtures.db CacheFixtures.emptyCache).
    + vm_compute. exact eq_refl.
    + reflexivity.
    + reflexivity.
    + vm_compute. exact eq_refl.
    + reflexivity.
  - apply (proj2 (proj2 (proj2 (proj2 (proj2 cache_keys_truncated_and_collide))))
             Z CacheFixtures.searching 0%Z 600%Z (CacheFixtures.page 1) (CacheFixtures.page 2)
             Fixtures.db Fixtures.db CacheFixtures.emptySearchCache).
    + vm_compute. exact eq_refl.
    + reflexivity.
    + reflexivity.
    + reflexivity.
    + reflexivity.
Defined.

(** * Further properties of the services *)

(** ** Strings *)

Section Strings.
Local Open Scope list_scope.

Lemma append_cons c (a b : string) :
  (String c a ++ b)%string = String c (a ++ b)%string.
Proof. reflexivity. Qed.

(** Where [indexOf] finds the text, the text is. *)
Lemma indexOf_Some s : forall q i,
  Text.indexOf s q = Some i -> exists a r, s = a ++ q ++ r /\ length a = i.
Proof.
  induction s as [|c s IH]; intros q i H; cbn [Text.indexOf] in H.
  - destruct (Text.startsWith [] q) eqn:Hp; [| discriminate H]. injection H as <-.
    apply startsWith_true_iff in Hp. destruct Hp as [r Hr]. exists [], r. split; [exact Hr | reflexivity].
  - destruct (Text.startsWith (c :: s) q) eqn:Hp.
    + injection H as <-. apply startsWith_true_iff in Hp. destruct Hp as [r Hr].
      exists [], r. split; [exact Hr | reflexivity].
    + destruct (Text.indexOf s q) as [j|] eqn:Hj; [| discriminate H]. injection H as <-.
      destruct (IH q j Hj) as [a [r [-> Hlen]]].
      exists (c :: a), r. split; [reflexivity | cbn; lia].
Qed.

Lemma indexOf_includes s q :
  Text.includes s q = match Text.indexOf s q with Some _ => true | None => false end.
Proof.
  induction s as [|c s IH]; cbn [Text.includes Text.indexOf].
  - destruct (Text.startsWith [] q); reflexivity.
  - destruct (Text.startsWith (c :: s) q); [reflexivity |].
    rewrite IH. destruct (Text.indexOf s q); reflexivity.
Qed.

(** A window of [s] that covers an occurrence of [q] contains [q]. *)
Lemma includes_window (a q r : Text.t) (from len : nat) :
  (from <= length a)%nat -> (length a + length q <= from + len)%nat ->
  Text.includes (firstn len (skipn from (a ++ q ++ r))) q = true.
Proof.
  intros Hfrom Hlen. apply includes_true_iff.
  exists (skipn from a), (firstn (len - (length a - from) - length q) r).
  rewrite skipn_app. replace (from - length a)%nat with 0%nat by lia.
  change (skipn 0 (q ++ r)) with (q ++ r).
  rewrite firstn_app, length_skipn.
  rewrite (firstn_all2 (skipn from a)) by (rewrite length_skipn; lia).
  rewrite firstn_app.
  rewrite (firstn_all2 q) by lia. reflexivity.
Qed.

Lemma substring_length start end_ (s : Text.t) :
  (Z.of_nat (length (Text.substring start end_ s))
   <= Z.abs (Z.min (Z.max 0 end_) (Z.of_nat (length s))
             - Z.min (Z.max 0 start) (Z.of_nat (length s))))%Z.
Proof.
  unfold Text.substring. rewrite length_firstn, length_skipn. lia.
Qed.

Lemma is_ascii_app a b : Text.is_ascii (a ++ b) = Text.is_ascii a && Text.is_ascii b.
Proof. apply forallb_app. Qed.

Lemma is_ascii_substring start end_ s :
  Text.is_ascii s = true -> Text.is_ascii (Text.substring start end_ s) = true.
Proof.
  unfold Text.substring, Text.is_ascii. rewrite !forallb_forall.
  intros H x Hx. apply H. eapply In_skipn, In_firstn. exact Hx.
Qed.

Lemma lower_ascii_substring start end_ s :
  Text.lower_ascii (Text.substring start end_ s)
  = Text.substring start end_ (Text.lower_ascii s).
Proof.
  unfold Text.substring, Text.lower_ascii. rewrite length_map, skipn_map, firstn_map.
  reflexivity.
Qed.

End Strings.

(** ** Highlights *)

Section Highlights.
Import JS SearchService.
Variable toLowerCase : Text.t -> Text.t.

Lemma addHighlight_app query queryLower acc text :
  addHighlight toLowerCase query queryLower acc text
  = acc ++ addHighlight toLowerCase query queryLower [] text.
Proof.
  unfold addHighlight. destruct (Text.truthy text) as [t|]; [| now rewrite app_nil_r].
  destruct (Text.indexOf (toLowerCase t) queryLower); [reflexivity | now rewrite app_nil_r].
Qed.

Lemma fold_addHighlight query queryLower texts : forall acc,
  fold_left (addHighlight toLowerCase query queryLower) texts acc
  = acc ++ flat_map (addHighlight toLowerCase query queryLower []) texts.
Proof.
  induction texts as [|t texts IH]; intros acc; cbn [fold_left flat_map].
  - now rewrite app_nil_r.
  - rewrite IH, (addHighlight_app _ _ acc t), <- app_assoc. reflexivity.
Qed.

(** One text gives one highlight when it mentions the query, and the
    highlight is short. *)
Lemma addHighlight_one query text :
  length (addHighlight toLowerCase query (toLowerCase query) [] text)
  = (if mentions toLowerCase query text then 1 else 0)%nat
  /\ Forall (fun h => (length h <= length query + 46)%nat)
       (addHighlight toLowerCase query (toLowerCase query) [] text).
Proof.
  unfold addHighlight, mentions.
  destruct (Text.truthy text) as [t|]; [| split; [reflexivity | constructor]].
  rewrite indexOf_includes.
  destruct (Text.indexOf (toLowerCase t) (toLowerCase query)) as [index|];
    [| split; [reflexivity | constructor]].
  split; [reflexivity |]. cbn [app]. constructor; [| constructor].
  set (start := Z.max 0 (Z.of_nat index - 20)).
  set (end_ := Z.min (Z.of_nat (length t)) (Z.of_nat index + Z.of_nat (length query) + 20)).
  pose proof (substring_length start end_ t) as Hsub.
  assert (Hshort : (length (Text.substring start end_ t) <= length query + 40)%nat)
    by (subst start end_; lia).
  assert (Hgone : (end_ < start)%Z -> length (Text.substring start end_ t) = 0%nat)
    by (subst start end_; lia).
  destruct (0 <? start)%Z, (end_ <? Z.of_nat (length t))%Z;
    rewrite ?length_app; change (length (Text.of_string "...")) with 3%nat; lia.
Qed.

(** On texts of ASCII characters the highlight shows the query. *)
Lemma addHighlight_shows query text :
  (forall s, Text.is_ascii s = true -> toLowerCase s = Text.lower_ascii s) ->
  Text.is_ascii query = true ->
  match text with Some s => Text.is_ascii s = true | None => True end ->
  Forall (fun h => Text.includes (toLowerCase h) (toLowerCase query) = true)
    (addHighlight toLowerCase query (toLowerCase query) [] text).
Proof.
  intros Hlower Hq Ht. unfold addHighlight.
  destruct text as [t|]; [| constructor].
  destruct (Text.truthy (Some t)) as [t'|] eqn:Htruthy; [| constructor].
  assert (t' = t) as -> by (destruct t; [discriminate Htruthy | now injection Htruthy]).
  rewrite (Hlower query Hq), (Hlower t Ht).
  destruct (Text.indexOf (Text.lower_ascii t) (Text.lower_ascii query)) as [index|] eqn:Hi;
    [| constructor].
  apply indexOf_Some in Hi. destruct Hi as [a [r [Hsplit Hindex]]].
  assert (Hlen : (index + length query <= length t)%nat).
  { rewrite <- (length_map Text.lower_unit t), <- (length_map Text.lower_unit query).
    fold (Text.lower_ascii t) (Text.lower_ascii query).
    rewrite Hsplit, !length_app. lia. }
  cbn [app]. constructor; [| constructor].
  set (start := Z.max 0 (Z.of_nat index - 20)).
  set (end_ := Z.min (Z.of_nat (length t)) (Z.of_nat index + Z.of_nat (length query) + 20)).
  assert (Hmid : Text.includes (Text.lower_ascii (Text.substring start end_ t))
                   (Text.lower_ascii query) = true).
  { rewrite lower_ascii_substring. unfold Text.substring. rewrite Hsplit.
    apply includes_window; rewrite <- Hsplit; unfold Text.lower_ascii;
      rewrite !length_map; subst start end_; lia. }
  assert (Hsub : Text.is_ascii (Text.substring start end_ t) = true)
    by now apply is_ascii_substring.
  assert (Hshow : forall before after,
            Text.is_ascii before = true -> Text.is_ascii after = true ->
            Text.includes
              (toLowerCase (before ++ Text.substring start end_ t ++ after))
              (Text.lower_ascii query) = true).
  { intros before after Hb Ha. rewrite Hlower by (rewrite !is_ascii_app, Hb, Hsub, Ha; reflexivity).
    unfold Text.lower_ascii at 1. rewrite !map_app.
    apply includes_true_iff in Hmid. destruct Hmid as [a' [r' Hmid]].
    apply includes_true_iff. exists (map Text.lower_unit before ++ a'),
      (r' ++ map Text.lower_unit after).
    fold (Text.lower_ascii (Text.substring start end_ t)). rewrite Hmid.
    rewrite <- !app_assoc. reflexivity. }
  destruct (0 <? start)%Z, (end_ <? Z.of_nat (length t))%Z.
  - rewrite <- app_assoc. apply Hshow; reflexivity.
  - specialize (Hshow (Text.of_string "...") [] eq_refl eq_refl).
    now rewrite app_nil_r in Hshow.
  - apply (Hshow [] (Text.of_string "...")); reflexivity.
  - specialize (Hshow [] [] eq_refl eq_refl). now rewrite app_nil_r in Hshow.
Qed.

End Highlights.

(** X1.  [generateHighlights] gives one highlight for each text that is
    there, is not empty and whose lower-cased form contains the lower-cased
    query, and none for the others; each highlight is at most 46 code units
    longer than the query: 20 units of context and an ellipsis on either
    side.  This holds whatever function [toLowerCase] is.  When the query and
    the texts are made of ASCII characters, on which [toLowerCase] turns the
    letters A to Z into a to z and nothing else, each highlight contains the
    query, letters compared without case. *)
Theorem generateHighlights_one_per_mention (toLowerCase : Text.t -> Text.t)
    (query : Text.t) (texts : list (option Text.t)) :
  length (SearchService.generateHighlights toLowerCase query texts)
  = length (List.filter (SearchService.mentions toLowerCase query) texts)
  /\ Forall (fun h => (length h <= length query + 46)%nat)
       (SearchService.generateHighlights toLowerCase query texts)
  /\ ((forall s, Text.is_ascii s = true -> toLowerCase s = Text.lower_ascii s) ->
      Text.is_ascii query = true ->
      Forall (fun text => match text with
                          | Some s => Text.is_ascii s = true
                          | None => True
                          end) texts ->
      Forall (fun h => Text.includes (toLowerCase h) (toLowerCase query) = true)
        (SearchService.generateHighlights toLowerCase query texts)).
Proof.
  unfold SearchService.generateHighlights. rewrite fold_addHighlight. cbn [app].
  split; [| split].
  - induction texts as [|t texts IH]; [reflexivity |].
    destruct (addHighlight_one toLowerCase query t) as [Hlen _].
    cbn [flat_map List.filter]. rewrite length_app, Hlen, IH.
    destruct (SearchService.mentions toLowerCase query t); reflexivity.
  - induction texts as [|t texts IH]; [constructor |].
    cbn [flat_map]. apply Forall_app. split; [| exact IH].
    apply (addHighlight_one toLowerCase query t).
  - intros Hlower Hq Htexts.
    induction Htexts as [|t texts Ht _ IH]; [constructor |].
    cbn [flat_map]. apply Forall_app. split; [| exact IH].
    now apply addHighlight_shows.
Qed.

Example generateHighlights_sample :
  SearchService.generateHighlights Text.lower_ascii (Text.of_string "LOVE")
    [Some (Text.of_string "A story of love in the rain, told twice over"); None;
     Some (Text.of_string "Nothing here")]
  = [Text.of_string "A story of love in the rain, told t..."].
Proof. vm_compute. reflexivity. Qed.

(** ** The order of the search hits *)

Section AnyComparator.
Import JS.
Local Open Scope Q_scope.
Context {A : Type}.

Lemma Qle_bool_ext (x y : Q) : x == y -> Qle_bool x 0 = Qle_bool y 0.
Proof.
  intros E. destruct (Qle_bool x 0) eqn:Hx, (Qle_bool y 0) eqn:Hy; try reflexivity.
  - apply Qle_bool_iff in Hx. rewrite E in Hx. apply Qle_bool_iff in Hx. congruence.
  - apply Qle_bool_iff in Hy. rewrite <- E in Hy. apply Qle_bool_iff in Hy. congruence.
Qed.

(** [sort] reads its comparator through the sign of its values only. *)
Lemma sort_insert_ext (cmp cmp' : A -> A -> Q) x l :
  (forall a b, cmp a b == cmp' a b) -> sort_insert cmp x l = sort_insert cmp' x l.
Proof.
  intros E. induction l as [|y l IH]; cbn [sort_insert]; [reflexivity |].
  rewrite (Qle_bool_ext _ _ (E x y)), IH. reflexivity.
Qed.

Lemma sort_ext (cmp cmp' : A -> A -> Q) l :
  (forall a b, cmp a b == cmp' a b) -> sort cmp l = sort cmp' l.
Proof.
  intros E. induction l as [|x l IH]; cbn [sort]; [reflexivity |].
  rewrite IH. now apply sort_insert_ext.
Qed.

Lemma sort_insert_perm_any (cmp : A -> A -> Q) x l :
  Permutation (x :: l) (sort_insert cmp x l).
Proof.
  induction l as [|y l IH]; cbn [sort_insert]; [reflexivity |].
  destruct (Qle_bool (cmp x y) 0); [reflexivity |].
  rewrite perm_swap. now apply perm_skip.
Qed.

Lemma sort_perm_any (cmp : A -> A -> Q) l : Permutation l (sort cmp l).
Proof.
  induction l as [|x l IH]; cbn [sort]; [reflexivity |].
  rewrite <- sort_insert_perm_any. now apply perm_skip.
Qed.

(** A comparator that is a total preorder sorts. *)
Lemma sort_sorted_any (cmp : A -> A -> Q) l :
  (forall a b, cmp a b <= 0 \/ cmp b a <= 0) ->
  (forall a b c, cmp a b <= 0 -> cmp b c <= 0 -> cmp a c <= 0) ->
  StronglySorted (fun a b => cmp a b <= 0) (sort cmp l).
Proof.
  intros Htotal Htrans.
  assert (Hins : forall x l, StronglySorted (fun a b => cmp a b <= 0) l ->
                             StronglySorted (fun a b => cmp a b <= 0) (sort_insert cmp x l)).
  { intros x l0. induction 1 as [|y l1 Hl IH Hy]; cbn [sort_insert].
    - repeat constructor.
    - destruct (Qle_bool (cmp x y) 0) eqn:Hcmp.
      + apply Qle_bool_iff in Hcmp.
        constructor; [constructor; assumption |].
        constructor; [exact Hcmp |].
        eapply List.Forall_impl; [| exact Hy]. intros z Hz. now apply (Htrans x y z).
      + assert (Hyx : cmp y x <= 0).
        { destruct (Htotal x y) as [H|H]; [| exact H].
          apply Qle_bool_iff in H. congruence. }
        constructor; [exact IH |].
        eapply Permutation_Forall; [apply sort_insert_perm_any |].
        constructor; assumption. }
  induction l as [|x l IH]; cbn [sort]; [constructor | now apply Hins].
Qed.

Lemma firstn_StronglySorted (R : A -> A -> Prop) n l :
  StronglySorted R l -> StronglySorted R (firstn n l).
Proof.
  intros Hl. revert n. induction Hl as [|x l Hl IH Hx]; intros [|n]; cbn [firstn];
    try constructor.
  - apply IH.
  - rewrite List.Forall_forall in *. intros y Hy. apply Hx. apply (In_firstn n). exact Hy.
Qed.

Lemma StronglySorted_weaken (R R' : A -> A -> Prop) l :
  (forall a b, R a b -> R' a b) -> StronglySorted R l -> StronglySorted R' l.
Proof.
  intros HR. induction 1 as [|x l Hl IH Hx]; constructor; [exact IH |].
  eapply List.Forall_impl; [| exact Hx]. intros y. apply HR.
Qed.

End AnyComparator.

Section SortResults.
Import JS SearchService.
Local Open Scope Q_scope.

Lemma compareResults_key sortBy sortOrder a b :
  compareResults (match sortBy with Some s => s | None => RELEVANCE end)
                 (match sortOrder with Some o => o | None => DESC end) a b
  == match sortOrder with
     | Some ASC => by_key_desc (fun x => - sortKey sortBy x) a b
     | _ => by_key_desc (sortKey sortBy) a b
     end.
Proof.
  unfold compareResults, by_key_desc, sortKey.
  destruct sortBy as [[]|], sortOrder as [[]|]; ring.
Qed.

End SortResults.

(** X2.  [sortResults] returns the hits it was given, rearranged: in
    non-increasing order of the chosen number (the score unless the rating,
    the view count or the release date is asked for) when no order or
    [desc] is asked for, in non-decreasing order for [asc]. *)
Theorem sortResults_sorted (results : list SearchService.SearchResultItem)
    (sortBy : option SearchService.SortBy) (sortOrder : option SearchService.SortOrder) :
  Permutation results (SearchService.sortResults results sortBy sortOrder)
  /\ StronglySorted
       (fun a b =>
          match sortOrder with
          | Some SearchService.ASC =>
              (SearchService.sortKey sortBy a <= SearchService.sortKey sortBy b)%Q
          | _ => (SearchService.sortKey sortBy b <= SearchService.sortKey sortBy a)%Q
          end)
       (SearchService.sortResults results sortBy sortOrder).
Proof.
  unfold SearchService.sortResults.
  destruct sortOrder as [[]|].
  - rewrite (sort_ext _ (JS.by_key_desc (fun x => - SearchService.sortKey sortBy x)%Q))
      by (intros a b; apply (compareResults_key sortBy (Some SearchService.ASC))).
    split; [apply sort_perm |].
    eapply StronglySorted_weaken; [| apply sort_sorted].
    unfold JS.descending. intros a b H. lra.
  - rewrite (sort_ext _ (JS.by_key_desc (SearchService.sortKey sortBy)))
      by (intros a b; apply (compareResults_key sortBy (Some SearchService.DESC))).
    split; [apply sort_perm | apply sort_sorted].
  - rewrite (sort_ext _ (JS.by_key_desc (SearchService.sortKey sortBy)))
      by (intros a b; apply (compareResults_key sortBy None)).
    split; [apply sort_perm | apply sort_sorted].
Qed.

(** ** The lifetime of an access token *)

Section Lifetimes.
Import JS.
Local Open Scope string_scope.

Ltac digit_cases :=
  change (digit_value _) with (Some 0%nat) || change (digit_value _) with (Some 1%nat)
  || change (digit_value _) with (Some 2%nat) || change (digit_value _) with (Some 3%nat)
  || change (digit_value _) with (Some 4%nat) || change (digit_value _) with (Some 5%nat)
  || change (digit_value _) with (Some 6%nat) || change (digit_value _) with (Some 7%nat)
  || change (digit_value _) with (Some 8%nat) || change (digit_value _) with (Some 9%nat).

(** Digits followed by something that is no digit are read up to there. *)
Lemma parse_digits_suffix d c rest : forall acc,
  digit_value c = None ->
  parse_digits (NilEmpty.string_of_uint d ++ String c rest) acc = Nat.of_uint_acc d acc.
Proof.
  induction d; intros acc Hc; cbn [NilEmpty.string_of_uint Nat.of_uint_acc];
    rewrite ?append_cons; cbn [parse_digits];
    [change ("" ++ String c rest) with (String c rest); cbn [parse_digits]; now rewrite Hc | ..];
    digit_cases; cbv beta iota; rewrite IHd by exact Hc; rewrite Nat.tail_mul_spec;
    f_equal; lia.
Qed.

Lemma parseInt_suffix n c rest :
  digit_value c = None -> parseInt (toString (Some n) ++ String c rest) = Some n.
Proof.
  intros Hc. unfold toString, NilZero.string_of_uint.
  rewrite <- (Unsigned.of_to n) at 2. unfold Nat.of_uint.
  destruct (Nat.to_uint n) as [|d|d|d|d|d|d|d|d|d|d] eqn:E;
    [change ("0" ++ String c rest) with (String "0" (String c rest));
     unfold parseInt; cbv iota beta; cbn [parse_digits];
     change (digit_value "0") with (Some 0%nat); cbv beta iota; now rewrite Hc | ..];
    cbn [NilEmpty.string_of_uint]; rewrite append_cons; unfold parseInt;
    digit_cases; cbv beta iota; f_equal;
    rewrite <- append_cons;
    match goal with
    | |- parse_digits (String ?a ?s ++ _) _ = Nat.of_uint_acc ?u _ =>
        change (String a s) with (NilEmpty.string_of_uint u)
    end;
    now apply parse_digits_suffix.
Qed.

Lemma endsWith_unit s a c : endsWith (s ++ String a "") c = Ascii.eqb a c.
Proof.
  induction s as [|b s IH]; [reflexivity |].
  rewrite append_cons. cbn [endsWith].
  destruct (s ++ String a "") eqn:E; [destruct s; discriminate E | exact IH].
Qed.

(** A written count ends with a digit. *)
Lemma endsWith_digits d c :
  digit_value c = None -> endsWith (NilEmpty.string_of_uint d) c = false.
Proof.
  intros Hc. induction d; cbn [NilEmpty.string_of_uint endsWith]; [reflexivity | ..];
    (destruct (NilEmpty.string_of_uint d) eqn:E;
     [ destruct (Ascii.eqb _ c) eqn:Heq; [| reflexivity];
       apply Ascii.eqb_eq in Heq; subst c; discriminate Hc
     | exact IHd ]).
Qed.

Lemma endsWith_toString n c : digit_value c = None -> endsWith (toString (Some n)) c = false.
Proof.
  intros Hc. unfold toString, NilZero.string_of_uint.
  destruct (Nat.to_uint n) eqn:E;
    [change (endsWith "0" c) with (Ascii.eqb "0"%char c);
     destruct (Ascii.eqb "0"%char c) eqn:Heq; [| reflexivity];
     apply Ascii.eqb_eq in Heq; subst c; discriminate Hc | ..];
    rewrite <- E; now apply endsWith_digits.
Qed.

Lemma truthy_suffix s c rest : truthy (Some (s ++ String c rest)) = Some (s ++ String c rest).
Proof. destruct s; reflexivity. Qed.

End Lifetimes.

(** X3.  [getTokenExpirationTime] turns [JWT_EXPIRES_IN] into seconds: a
    count followed by [d], [h] or [m] is that many days, hours or minutes,
    a bare count is seconds, and when the variable is unset or empty the
    lifetime is seven days. *)
Theorem getTokenExpirationTime_units (secret : option string) (n : nat) :
  AuthService.getTokenExpirationTime (AuthService.mkEnv secret None)
  = Some (7 * 24 * 60 * 60)%nat
  /\ AuthService.getTokenExpirationTime (AuthService.mkEnv secret (Some EmptyString))
     = Some (7 * 24 * 60 * 60)%nat
  /\ AuthService.getTokenExpirationTime
       (AuthService.mkEnv secret (Some (JS.toString (Some n) ++ "d")%string))
     = Some (n * 24 * 60 * 60)%nat
  /\ AuthService.getTokenExpirationTime
       (AuthService.mkEnv secret (Some (JS.toString (Some n) ++ "h")%string))
     = Some (n * 60 * 60)%nat
  /\ AuthService.getTokenExpirationTime
       (AuthService.mkEnv secret (Some (JS.toString (Some n) ++ "m")%string))
     = Some (n * 60)%nat
  /\ AuthService.getTokenExpirationTime
       (AuthService.mkEnv secret (Some (JS.toString (Some n))))
     = Some n.
Proof.
  unfold AuthService.getTokenExpirationTime. cbn [AuthService.JWT_EXPIRES_IN].
  repeat split; try reflexivity.
  - rewrite truthy_suffix, endsWith_unit. cbn [Ascii.eqb Bool.eqb andb].
    rewrite parseInt_suffix by reflexivity. reflexivity.
  - rewrite truthy_suffix, !endsWith_unit. cbn [Ascii.eqb Bool.eqb andb].
    rewrite parseInt_suffix by reflexivity. reflexivity.
  - rewrite truthy_suffix, !endsWith_unit. cbn [Ascii.eqb Bool.eqb andb].
    rewrite parseInt_suffix by reflexivity. reflexivity.
  - rewrite toString_truthy, !endsWith_toString by reflexivity.
    apply parseInt_toString.
Qed.

(** ** Sessions *)

Section ListFacts.
Context {A : Type}.

Lemma In_lookup (l : list A) x : In x l <-> exists i, l !! i = Some x.
Proof. rewrite <- list_elem_of_In. apply list_elem_of_lookup. Qed.

Lemma findIndex_None (p : A -> bool) l :
  (forall x, In x l -> p x = false) -> JS.findIndex p l = None.
Proof.
  induction l as [|y l IH]; intros H; cbn [JS.findIndex]; [reflexivity |].
  rewrite (H y) by now left. rewrite IH; [reflexivity |].
  intros x Hx. apply H. now right.
Qed.

Lemma findIndex_Some (p : A -> bool) l : forall i,
  JS.findIndex p l = Some i ->
  exists x, l !! i = Some x /\ p x = true
            /\ forall j y, (j < i)%nat -> l !! j = Some y -> p y = false.
Proof.
  induction l as [|y l IH]; intros i H; cbn [JS.findIndex] in H; [discriminate H |].
  destruct (p y) eqn:Hy.
  - injection H as <-. exists y. repeat split; [exact Hy |]. intros j z Hj. lia.
  - destruct (JS.findIndex p l) as [k|]; [| discriminate H]. injection H as <-.
    destruct (IH k eq_refl) as (x & Hx & Hpx & Hbefore).
    exists x. repeat split; [exact Hx | exact Hpx |].
    intros [|j] z Hj Hz; cbn in Hz.
    + injection Hz as <-. exact Hy.
    + apply (Hbefore j z); [lia | exact Hz].
Qed.

Lemma NoDup_map_lookup {B : Type} (f : A -> B) (l : list A) i j x y :
  NoDup (map f l) -> l !! i = Some x -> l !! j = Some y -> f x = f y -> i = j.
Proof.
  intros Hnd Hi Hj E.
  apply (NoDup_lookup (map f l) i j (f x) Hnd).
  - change (map f l) with (f <$> l). rewrite list_lookup_fmap, Hi. reflexivity.
  - change (map f l) with (f <$> l). rewrite list_lookup_fmap, Hj, E. reflexivity.
Qed.

End ListFacts.

Section Sessions.
Import JS Eff AuthService.
Variables (lib : Libraries) (env : Env) (JWT_REFRESH_SECRET : option string).

Local Abbreviation refresh := (refreshToken_ lib env JWT_REFRESH_SECRET).

(** A token no active session holds is refused. *)
Lemma refresh_revoked now token (w : World.t string) :
  revoked token (World.mongo w) -> refresh now token w = (Throw MSG_REFRESH_FAILED, w).
Proof.
  intros Hrev. unfold refreshToken_. run_eff.
  destruct (jwt_verify lib token _) as [decoded|e]; [| reflexivity].
  unfold Mongo.UserSession_findOne_active.
  destruct (Mongo.connected (World.mongo w)); [| reflexivity].
  rewrite findIndex_None; [reflexivity |].
  intros s Hs. specialize (Hrev s Hs).
  destruct (String.eqb _ token), (UserSession.isActive s); try reflexivity; discriminate Hrev.
Qed.

(** Whatever goes wrong, the caller learns one thing only, and nothing was
    written. *)
Lemma refresh_outcome now token (w : World.t string) :
  (exists result db, refresh now token w = (Ret result, World.mk db (World.cache w)))
  \/ refresh now token w = (Throw MSG_REFRESH_FAILED, w).
Proof.
  unfold refreshToken_. run_eff.
  destruct (jwt_verify lib token _) as [decoded|e]; [| now right].
  destruct (Mongo.UserSession_findOne_active _ _ _) as [[[place session]|]|e]; try now right.
  destruct (Mongo.User_findById _ _) as [[u|]|e]; try now right.
  destruct (User.is_active u); cbn [negb]; [| now right].
  destruct (Mongo.UserSession_save _ _ _) as [db|e]; [| now right].
  left. eexists _, db. reflexivity.
Qed.

(** What a successful refresh did to the sessions. *)
Lemma refresh_success now token (w w' : World.t string) result :
  refresh now token w = (Ret result, w') ->
  exists place session,
    Mongo.sessions (World.mongo w) !! place = Some session
    /\ UserSession.refreshToken session = token
    /\ Mongo.sessions (World.mongo w')
       = <[place := with_token (refreshToken result) (now * 1000 + SESSION_LIFETIME) session]>
           (Mongo.sessions (World.mongo w)).
Proof.
  unfold refreshToken_. run_eff.
  destruct (jwt_verify lib token _) as [decoded|e]; [| discriminate].
  unfold Mongo.UserSession_findOne_active.
  destruct (Mongo.connected (World.mongo w)) eqn:Hup; [| discriminate].
  destruct (findIndex _ _) as [i|] eqn:Hi; [| discriminate].
  apply findIndex_Some in Hi. destruct Hi as (s & Hs & Hwanted & _).
  rewrite Hs. cbn [option_map].
  destruct (Mongo.User_findById _ _) as [[u|]|e]; try discriminate.
  destruct (User.is_active u); cbn [negb]; [| discriminate].
  unfold Mongo.UserSession_save. rewrite Hup.
  destruct (existsb _ _); [discriminate |].
  intros H. injection H as <- <-.
  exists i, s. cbn [refreshToken World.mongo Mongo.with_sessions Mongo.sessions].
  repeat split; [exact Hs |].
  apply andb_true_iff in Hwanted. destruct Hwanted as [Hwanted _].
  apply andb_true_iff in Hwanted. destruct Hwanted as [Hwanted _].
  now apply String.eqb_eq in Hwanted.
Qed.

Lemma refresh_single_use now token (w w' : World.t string) result :
  tokens_unique (World.mongo w) ->
  refresh now token w = (Ret result, w') ->
  refreshToken result <> token ->
  revoked token (World.mongo w').
Proof.
  intros Hnd Hrun Hnew.
  destruct (refresh_success _ _ _ _ _ Hrun) as (i & s & Hs & Htoken & Hafter).
  intros x Hx. rewrite Hafter in Hx. apply In_lookup in Hx. destruct Hx as [j Hj].
  apply list_lookup_insert_Some in Hj. destruct Hj as [(_ & <- & _)|(Hne & Hj)].
  - cbn [with_token UserSession.refreshToken].
    destruct (String.eqb_spec (refreshToken result) token); [contradiction | reflexivity].
  - destruct (String.eqb_spec (UserSession.refreshToken x) token) as [E|]; [| reflexivity].
    exfalso. apply Hne.
    apply (NoDup_map_lookup UserSession.refreshToken _ i j s x Hnd Hs Hj). congruence.
Qed.

Lemma deactivate_revokes token db db' :
  tokens_unique db -> Mongo.UserSession_deactivate token db = Ret db' -> revoked token db'.
Proof.
  intros Hnd. unfold Mongo.UserSession_deactivate.
  destruct (Mongo.connected db); [| discriminate].
  intros H. injection H as <-. unfold revoked. cbn [Mongo.sessions].
  destruct (findIndex _ _) as [i|] eqn:Hi; intros x Hx.
  - apply findIndex_Some in Hi. destruct Hi as (s & Hs & Hts & _).
    apply String.eqb_eq in Hts.
    apply In_lookup in Hx. destruct Hx as [j Hj].
    rewrite list_lookup_alter in Hj. destruct (decide (i = j)) as [<-|Hne].
    + rewrite Hs in Hj. injection Hj as <-. cbn. apply andb_false_r.
    + destruct (String.eqb_spec (UserSession.refreshToken x) token) as [E|]; [| reflexivity].
      exfalso. apply Hne.
      apply (NoDup_map_lookup UserSession.refreshToken _ i j s x Hnd Hs Hj). congruence.
  - destruct (String.eqb (UserSession.refreshToken x) token) eqn:E; [| reflexivity].
    exfalso. revert Hi Hx E. generalize (Mongo.sessions db). intros l.
    induction l as [|z l IH]; intros Hi Hx E; [destruct Hx |].
    cbn [findIndex] in Hi.
    destruct (String.eqb (UserSession.refreshToken z) token) eqn:Ez; [discriminate Hi |].
    destruct Hx as [<-|Hx]; [congruence |].
    destruct (findIndex _ l); [discriminate Hi |]. now apply IH.
Qed.

Lemma logout_revokes now token (w w' : World.t string) :
  tokens_unique (World.mongo w) ->
  logout now token w = (Ret tt, w') ->
  revoked token (World.mongo w').
Proof.
  intros Hnd. unfold logout. run_eff.
  destruct (Redis.isReady (World.cache w)) eqn:Hready.
  - unfold Redis.set. rewrite Hready. cbn [World.mongo World.cache].
    destruct (Mongo.UserSession_deactivate token (World.mongo w)) as [db|e] eqn:Hd;
      [| discriminate].
    intros H. injection H as <-. now apply (deactivate_revokes token (World.mongo w)).
  - destruct (Mongo.UserSession_deactivate token (World.mongo w)) as [db|e] eqn:Hd;
      [| discriminate].
    intros H. injection H as <-. now apply (deactivate_revokes token (World.mongo w)).
Qed.

Lemma NoDup_map_In {B : Type} (f : UserSession.t -> B) l a b :
  NoDup (map f l) -> In a l -> In b l -> f a = f b -> a = b.
Proof.
  intros Hnd Ha Hb E. apply In_lookup in Ha, Hb.
  destruct Ha as [i Hi], Hb as [j Hj].
  assert (i = j) as -> by exact (NoDup_map_lookup f l i j a b Hnd Hi Hj E).
  congruence.
Qed.

Lemma clearUserSessions_spec userId db db' :
  tokens_unique db ->
  Mongo.UserSession_clearUserSessions userId db = Ret db' ->
  (forall s, In s (Mongo.sessions db) -> UserSession.userId s = userId ->
             revoked (UserSession.refreshToken s) db')
  /\ Mongo.UserSession_getActiveSessionCount userId db' = Ret 0%nat
  /\ List.filter (fun s => negb (String.eqb (UserSession.userId s) userId)) (Mongo.sessions db')
     = List.filter (fun s => negb (String.eqb (UserSession.userId s) userId)) (Mongo.sessions db).
Proof.
  intros Hnd. unfold Mongo.UserSession_clearUserSessions.
  destruct (Mongo.connected db) eqn:Hup; [| discriminate].
  intros H. injection H as <-.
  unfold Mongo.UserSession_getActiveSessionCount.
  cbn [Mongo.with_sessions Mongo.sessions Mongo.connected]. rewrite Hup.
  split; [| split].
  - intros s Hs Hu x Hx. cbn [Mongo.sessions] in Hx.
    apply in_map_iff in Hx. destruct Hx as (y & <- & Hy).
    destruct (String.eqb_spec
                (UserSession.refreshToken
                   (if String.eqb (UserSession.userId y) userId && UserSession.isActive y
                    then Mongo.switch_off y else y))
                (UserSession.refreshToken s)) as [E|]; [| reflexivity].
    assert (y = s) as ->.
    { apply (NoDup_map_In UserSession.refreshToken (Mongo.sessions db)); try assumption.
      rewrite <- E. destruct (_ && _); reflexivity. }
    rewrite Hu, String.eqb_refl. cbn [andb].
    destruct (UserSession.isActive s) eqn:Hact; cbn; [reflexivity | exact Hact].
  - f_equal. induction (Mongo.sessions db) as [|y l IH]; [reflexivity |].
    cbn [map List.filter].
    destruct (String.eqb (UserSession.userId y) userId) eqn:Hy,
             (UserSession.isActive y) eqn:Hact; cbn [andb Mongo.switch_off
               UserSession.userId UserSession.isActive];
      rewrite ?Hy, ?Hact; cbn [andb]; apply IH || idtac.
    all: try (apply IH; now inversion Hnd).
  - induction (Mongo.sessions db) as [|y l IH]; [reflexivity |].
    cbn [map List.filter].
    destruct (String.eqb (UserSession.userId y) userId) eqn:Hy,
             (UserSession.isActive y) eqn:Hact; cbn [andb Mongo.switch_off
               UserSession.userId]; rewrite ?Hy; cbn [negb];
      rewrite ?IH; try reflexivity.
Qed.

Lemma append_inj_l (p a b : string) : (p ++ a)%string = (p ++ b)%string -> a = b.
Proof.
  induction p as [|c p IH]; intros H; [exact H |].
  rewrite !append_cons in H. injection H as H. now apply IH.
Qed.

(** What [logout] leaves behind when it returns. *)
Lemma logout_effect now token (w w' : World.t string) :
  logout now token w = (Ret tt, w') ->
  Mongo.connected (World.mongo w') = Mongo.connected (World.mongo w)
  /\ Mongo.users (World.mongo w') = Mongo.users (World.mongo w)
  /\ Redis.isConnected (World.cache w') = Redis.isConnected (World.cache w)
  /\ Redis.entries (World.cache w')
     = if Redis.isReady (World.cache w)
       then <[blacklistKey token := ("blacklisted"%string, Some (now + 24 * 60 * 60)%Z)]>
              (Redis.entries (World.cache w))
       else Redis.entries (World.cache w).
Proof.
  unfold logout. run_eff.
  destruct (Redis.isReady (World.cache w)) eqn:Hready.
  - unfold Redis.set. rewrite Hready. cbn [World.mongo World.cache].
    unfold Mongo.UserSession_deactivate.
    destruct (Mongo.connected (World.mongo w)) eqn:Hup; [| discriminate].
    intros H. injection H as <-. cbn. repeat split.
  - unfold Mongo.UserSession_deactivate.
    destruct (Mongo.connected (World.mongo w)) eqn:Hup; [| discriminate].
    intros H. injection H as <-. cbn. repeat split.
Qed.

End Sessions.

Ltac distinct_strings := apply (bool_decide_unpack _); vm_compute; exact I.

(** X4.  A refresh token works once: when [refreshToken] succeeds and
    hands out a new refresh token, the old one is refused from then on
    (in a store whose sessions hold pairwise different tokens). *)
Theorem refreshToken_single_use
    (lib : AuthService.Libraries) (env : AuthService.Env) (secret : option string)
    (now : Z) (token : string) (w w' : World.t string) (result : AuthService.AuthResult) :
  AuthService.tokens_unique (World.mongo w) ->
  AuthService.refreshToken_ lib env secret now token w = (Ret result, w') ->
  AuthService.refreshToken result <> token ->
  forall later,
    AuthService.refreshToken_ lib env secret later token w'
    = (Throw AuthService.MSG_REFRESH_FAILED, w').
Proof.
  intros Hnd Hrun Hnew later. apply refresh_revoked.
  exact (refresh_single_use lib env secret now token w w' result Hnd Hrun Hnew).
Qed.

Lemma refreshToken_single_use_witness :
  AuthService.refreshToken_ AuthFixtures.lib SessionFixtures.env None 1000 "good-token"
    (snd (AuthService.refreshToken_ AuthFixtures.lib SessionFixtures.env None 0 "good-token"
            SessionFixtures.world))
  = (Throw AuthService.MSG_REFRESH_FAILED,
     snd (AuthService.refreshToken_ AuthFixtures.lib SessionFixtures.env None 0 "good-token"
            SessionFixtures.world)).
Proof.
  apply (refreshToken_single_use AuthFixtures.lib SessionFixtures.env None 0 "good-token"
           SessionFixtures.world _ SessionFixtures.refreshed).
  - unfold AuthService.tokens_unique. cbn. distinct_strings.
  - vm_compute. reflexivity.
  - discriminate.
Defined.

(** X5.  [refreshToken] either succeeds, and then it wrote to the session
    store only, or throws the one message [刷新令牌失败] and leaves the store
    and the cache as they were; a token that no active session holds is
    always refused. *)
Theorem refreshToken_fails_closed
    (lib : AuthService.Libraries) (env : AuthService.Env) (secret : option string)
    (now : Z) (token : string) (w : World.t string) :
  ((exists result db,
      AuthService.refreshToken_ lib env secret now token w
      = (Ret result, World.mk db (World.cache w)))
   \/ AuthService.refreshToken_ lib env secret now token w
      = (Throw AuthService.MSG_REFRESH_FAILED, w))
  /\ (AuthService.revoked token (World.mongo w) ->
      AuthService.refreshToken_ lib env secret now token w
      = (Throw AuthService.MSG_REFRESH_FAILED, w)).
Proof. split; [apply refresh_outcome | apply refresh_revoked]. Qed.

(** X6.  After [logout] the refresh token is dead: in a store whose
    sessions hold pairwise different tokens, once [logout (token)] has
    returned, [refreshToken (token)] is refused at any later time. *)
Theorem logout_ends_the_session
    (now : Z) (token : string) (w w' : World.t string) :
  AuthService.tokens_unique (World.mongo w) ->
  AuthService.logout now token w = (Ret tt, w') ->
  forall lib env secret later,
    AuthService.refreshToken_ lib env secret later token w'
    = (Throw AuthService.MSG_REFRESH_FAILED, w').
Proof.
  intros Hnd Hrun lib env secret later. apply refresh_revoked.
  exact (logout_revokes now token w w' Hnd Hrun).
Qed.

Lemma logout_ends_the_session_witness :
  returned (fst (AuthService.refreshToken_ AuthFixtures.lib SessionFixtures.env None 0
                   "good-token" SessionFixtures.world)) = true
  /\ AuthService.refreshToken_ AuthFixtures.lib SessionFixtures.env None 1 "good-token"
       (snd (AuthService.logout 0 "good-token" SessionFixtures.world))
     = (Throw AuthService.MSG_REFRESH_FAILED,
        snd (AuthService.logout 0 "good-token" SessionFixtures.world)).
Proof.
  split; [vm_compute; reflexivity |].
  apply (logout_ends_the_session 0 "good-token" SessionFixtures.world).
  - unfold AuthService.tokens_unique. cbn. distinct_strings.
  - vm_compute. reflexivity.
Defined.

(** X7.  [logoutAllDevices] ends every session of the user and no one
    else's: afterwards the user has no active session, none of the refresh
    tokens of the user's sessions can be refreshed, and the sessions of the
    other users are as they were. *)
Theorem logoutAllDevices_ends_every_session
    (userId : string) (w w' : World.t string) :
  AuthService.tokens_unique (World.mongo w) ->
  AuthService.logoutAllDevices userId w = (Ret tt, w') ->
  Mongo.UserSession_getActiveSessionCount userId (World.mongo w') = Ret 0%nat
  /\ (forall s lib env secret later,
        In s (Mongo.sessions (World.mongo w)) -> UserSession.userId s = userId ->
        AuthService.refreshToken_ lib env secret later (UserSession.refreshToken s) w'
        = (Throw AuthService.MSG_REFRESH_FAILED, w'))
  /\ List.filter (fun s => negb (String.eqb (UserSession.userId s) userId))
       (Mongo.sessions (World.mongo w'))
     = List.filter (fun s => negb (String.eqb (UserSession.userId s) userId))
         (Mongo.sessions (World.mongo w)).
Proof.
  intros Hnd. unfold AuthService.logoutAllDevices. run_eff.
  destruct (Mongo.UserSession_clearUserSessions userId (World.mongo w)) as [db|e] eqn:Hclear;
    [| discriminate].
  intros H. injection H as <-. cbn [World.mongo].
  destruct (clearUserSessions_spec userId _ _ Hnd Hclear) as (Hrev & Hcount & Hothers).
  split; [exact Hcount | split; [| exact Hothers]].
  intros s lib env secret later Hs Hu. apply refresh_revoked. cbn [World.mongo].
  now apply Hrev.
Qed.

Lemma logoutAllDevices_ends_every_session_witness :
  Mongo.UserSession_getActiveSessionCount "u1"
    (World.mongo (snd (AuthService.logoutAllDevices "u1" SessionFixtures.world)))
  = Ret 0%nat
  /\ Mongo.UserSession_getActiveSessionCount "u2"
       (World.mongo (snd (AuthService.logoutAllDevices "u1" SessionFixtures.world)))
     = Ret 1%nat.
Proof.
  split; [| vm_compute; reflexivity].
  apply (logoutAllDevices_ends_every_session "u1" SessionFixtures.world).
  - unfold AuthService.tokens_unique. cbn. distinct_strings.
  - vm_compute. reflexivity.
Defined.

(** X8.  [logout] blacklists the string it is given, the refresh token,
    and nothing else: with the cache up, [verifyAccessToken] of that same
    string answers [null] for the next 24 hours, and for every other token
    (the access token of the session among them) it answers after the
    logout what it answered before. *)
Theorem logout_blacklists_its_argument_only
    (lib : AuthService.Libraries) (env : AuthService.Env)
    (now : Z) (token : string) (w w' : World.t string) :
  AuthService.logout now token w = (Ret tt, w') ->
  (Redis.isReady (World.cache w) = true ->
   forall later, (later < now + 24 * 60 * 60)%Z ->
     AuthService.verifyAccessToken lib env later token w' = (Ret None, w'))
  /\ (forall later other, other <> token ->
        fst (AuthService.verifyAccessToken lib env later other w')
        = fst (AuthService.verifyAccessToken lib env later other w)).
Proof.
  intros Hrun.
  destruct (logout_effect now token w w' Hrun) as (Hup & Husers & Hconn & Hentries).
  split.
  - intros Hready later Hlater. rewrite verifyAccessToken_run. f_equal. f_equal.
    unfold AuthService.verified, Redis.isReady, Redis.lookup.
    rewrite Hconn, Hentries, Hready. unfold Redis.isReady in Hready. rewrite Hready.
    rewrite lookup_insert_eq. unfold Redis.live. cbn [snd fst andb].
    apply Z.ltb_lt in Hlater. rewrite Hlater. reflexivity.
  - intros later other Hother. rewrite !verifyAccessToken_run. cbn [fst]. f_equal.
    unfold AuthService.verified, Redis.isReady, Redis.lookup, Mongo.User_findById.
    rewrite Hconn, Hup, Husers.
    replace (Redis.entries (World.cache w') !! AuthService.blacklistKey other)
      with (Redis.entries (World.cache w) !! AuthService.blacklistKey other); [reflexivity |].
    rewrite Hentries. destruct (Redis.isReady (World.cache w)); [| reflexivity].
    rewrite lookup_insert_ne; [reflexivity |].
    unfold AuthService.blacklistKey. intros E. apply append_inj_l in E. congruence.
Qed.

Lemma logout_blacklists_its_argument_only_witness :
  fst (AuthService.verifyAccessToken AuthFixtures.lib AuthFixtures.env 10 "good-token"
         (snd (AuthService.logout 0 "refresh-u1" AuthFixtures.clean)))
  = Ret (Some AuthFixtures.alice).
Proof.
  transitivity (fst (AuthService.verifyAccessToken AuthFixtures.lib AuthFixtures.env 10
                       "good-token" AuthFixtures.clean)); [| vm_compute; reflexivity].
  apply (logout_blacklists_its_argument_only AuthFixtures.lib AuthFixtures.env 0 "refresh-u1"
           AuthFixtures.clean).
  - vm_compute. reflexivity.
  - discriminate.
Defined.

(** ** The guards in front of the routes *)

Section Guards.
Import JS Eff AuthService AuthMiddleware.
Variables (lib : Libraries) (env : Env) (now : Z) (_id : User.t -> string).

Lemma verified_active token (w : World.t string) u :
  verified lib env now token w = Some u -> User.is_active u = true.
Proof.
  unfold verified. destruct (_ && _); [discriminate |].
  destruct (jwt_verify lib token _) as [decoded|e]; [| discriminate].
  destruct (Mongo.User_findById _ _) as [[u'|]|e]; try discriminate.
  destruct (User.is_active u') eqn:Hact; [| discriminate].
  intros H. injection H as <-. exact Hact.
Qed.

(** [authenticate], case by case. *)
Lemma authenticate_run req (w : World.t string) :
  authenticate lib env now _id req w
  = (Ret match authorization req with
         | None => Responded 401 "未提供访问令牌"
         | Some header =>
             if startsWith header "Bearer "
             then match verified lib env now (bearerToken header) w with
                  | Some u => Next (attach _id u req)
                  | None => Responded 401 "无效的访问令牌"
                  end
             else Responded 401 "未提供访问令牌"
         end, w).
Proof.
  unfold authenticate. run_eff.
  destruct (authorization req) as [header|]; [| reflexivity].
  destruct (startsWith header "Bearer "); cbn [negb]; [| reflexivity].
  run_eff. rewrite verifyAccessToken_run.
  destruct (verified lib env now (bearerToken header) w); reflexivity.
Qed.

Lemma optionalAuth_run req (w : World.t string) :
  optionalAuth lib env now _id req w
  = (Ret (Next match authorization req with
               | None => req
               | Some header =>
                   if startsWith header "Bearer "
                   then match verified lib env now (bearerToken header) w with
                        | Some u => attach _id u req
                        | None => req
                        end
                   else req
               end), w).
Proof.
  unfold optionalAuth. run_eff.
  destruct (authorization req) as [header|]; [| reflexivity].
  destruct (startsWith header "Bearer "); [| reflexivity].
  run_eff. rewrite verifyAccessToken_run.
  destruct (verified lib env now (bearerToken header) w); reflexivity.
Qed.

End Guards.

(** X9.  [authenticate] never throws and changes neither the store nor the
    cache.  It calls [next] only for a request whose [Authorization] header
    is [Bearer ] followed by a token that [verifyAccessToken] accepts, with
    that user, who is active, attached to the request; every other request
    is answered with status 401. *)
Theorem authenticate_lets_only_verified_users_through
    (lib : AuthService.Libraries) (env : AuthService.Env) (now : Z)
    (_id : User.t -> string) (req : AuthMiddleware.Request) (w : World.t string) :
  exists h,
    AuthMiddleware.authenticate lib env now _id req w = (Ret h, w)
    /\ match h with
       | AuthMiddleware.Next req' =>
           exists header u,
             AuthMiddleware.authorization req = Some header
             /\ JS.startsWith header "Bearer " = true
             /\ AuthService.verifyAccessToken lib env now (AuthMiddleware.bearerToken header) w
                = (Ret (Some u), w)
             /\ User.is_active u = true
             /\ req' = AuthMiddleware.attach _id u req
       | AuthMiddleware.Responded status _ => status = 401%nat
       end.
Proof.
  eexists. split; [apply authenticate_run |].
  destruct (AuthMiddleware.authorization req) as [header|]; [| reflexivity].
  destruct (JS.startsWith header "Bearer ") eqn:Hb; [| reflexivity].
  destruct (AuthService.verified lib env now (AuthMiddleware.bearerToken header) w) as [u|] eqn:Hv;
    [| reflexivity].
  exists header, u. repeat split; try assumption.
  - rewrite verifyAccessToken_run, Hv. reflexivity.
  - exact (verified_active lib env now _ w u Hv).
Qed.

(** X10.  [optionalAuth] never answers in place of the route and never
    throws: it always calls [next], with the user attached exactly when
    [authenticate] would have let the request through, and with the request
    as it came otherwise. *)
Theorem optionalAuth_never_blocks
    (lib : AuthService.Libraries) (env : AuthService.Env) (now : Z)
    (_id : User.t -> string) (req : AuthMiddleware.Request) (w : World.t string) :
  AuthMiddleware.optionalAuth lib env now _id req w
  = (Ret (AuthMiddleware.Next
            match fst (AuthMiddleware.authenticate lib env now _id req w) with
            | Ret (AuthMiddleware.Next req') => req'
            | _ => req
            end), w).
Proof.
  rewrite optionalAuth_run, authenticate_run. cbn [fst].
  destruct (AuthMiddleware.authorization req) as [header|]; [| reflexivity].
  destruct (JS.startsWith header "Bearer "); [| reflexivity].
  destruct (AuthService.verified lib env now (AuthMiddleware.bearerToken header) w);
    reflexivity.
Qed.

(** X11.  Behind [authenticate] the other guards never ask for a login:
    for a request that [authenticate] let through, [checkUserStatus] always
    passes, [authorize] passes when the user's role is listed and answers
    403 (not 401) otherwise, whoever passes [requireAdmin] passes
    [requireModerator], and a guard that passes hands the request on
    unchanged. *)
Theorem guards_behind_authenticate
    (lib : AuthService.Libraries) (env : AuthService.Env) (now : Z)
    (_id : User.t -> string) (req req' : AuthMiddleware.Request) (w w' : World.t string) :
  AuthMiddleware.authenticate lib env now _id req w = (Ret (AuthMiddleware.Next req'), w') ->
  AuthMiddleware.checkUserStatus req' = AuthMiddleware.Next req'
  /\ (forall roles,
        AuthMiddleware.authorize roles req' = AuthMiddleware.Next req'
        \/ AuthMiddleware.authorize roles req' = AuthMiddleware.Responded 403 "权限不足")
  /\ (AuthMiddleware.requireAdmin req' = AuthMiddleware.Next req' ->
      AuthMiddleware.requireModerator req' = AuthMiddleware.Next req')
  /\ (AuthMiddleware.requireOwnerOrAdmin _id req' = AuthMiddleware.Next req'
      \/ AuthMiddleware.requireOwnerOrAdmin _id req'
         = AuthMiddleware.Responded 403 "只能访问自己的资源").
Proof.
  rewrite authenticate_run. intros H. injection H as H _.
  destruct (AuthMiddleware.authorization req) as [header|]; [| discriminate H].
  destruct (JS.startsWith header "Bearer "); [| discriminate H].
  destruct (AuthService.verified lib env now (AuthMiddleware.bearerToken header) w) as [u|] eqn:Hv;
    [| discriminate H].
  injection H as <-.
  pose proof (verified_active lib env now _ w u Hv) as Hact.
  unfold AuthMiddleware.checkUserStatus, AuthMiddleware.requireAdmin,
    AuthMiddleware.requireModerator, AuthMiddleware.authorize,
    AuthMiddleware.requireOwnerOrAdmin.
  cbn [AuthMiddleware.user AuthMiddleware.attach]. rewrite Hact. cbn [negb].
  split; [reflexivity | split; [| split]].
  - intros roles. destruct (existsb _ roles); cbn [negb]; [now left | now right].
  - destruct (User.role u); cbn; intros H; try discriminate H; reflexivity.
  - destruct (_ && _); [now right | now left].
Qed.

Lemma guards_behind_authenticate_witness :
  AuthMiddleware.checkUserStatus
    (AuthMiddleware.attach (fun _ => "u1"%string) AuthFixtures.alice
       (AuthMiddleware.mkRequest (Some "Bearer good-token"%string) None None None None None))
  = AuthMiddleware.Next
      (AuthMiddleware.attach (fun _ => "u1"%string) AuthFixtures.alice
         (AuthMiddleware.mkRequest (Some "Bearer good-token"%string) None None None None None)).
Proof.
  apply (guards_behind_authenticate AuthFixtures.lib AuthFixtures.env 0 (fun _ => "u1"%string)
           (AuthMiddleware.mkRequest (Some "Bearer good-token"%string) None None None None None)
           _ AuthFixtures.clean AuthFixtures.clean).
  vm_compute. reflexivity.
Defined.

(** ** Clearing cache keys *)

Section Deleting.
Import Eff.
Context {V : Type}.

Lemma lookup_without_other keys : forall (m : gmap string (V * option Z)) k,
  ~ In k keys -> fold_left (fun m k => delete k m) keys m !! k = m !! k.
Proof.
  induction keys as [|key keys IH]; intros m k Hk; cbn [fold_left]; [reflexivity |].
  rewrite IH by (intros H; apply Hk; now right).
  apply lookup_delete_ne. intros ->. apply Hk. now left.
Qed.

Lemma lookup_without_deleted keys : forall (m : gmap string (V * option Z)) k,
  In k keys -> fold_left (fun m k => delete k m) keys m !! k = None.
Proof.
  induction keys as [|key keys IH]; intros m k Hk; cbn [fold_left]; [destruct Hk |].
  destruct (in_dec string_dec k keys) as [Hin|Hout].
  - now apply IH.
  - destruct Hk as [->|Hk]; [| contradiction].
    rewrite lookup_without_other by exact Hout. apply lookup_delete_eq.
Qed.

(** [for (const key of keys) { await redis.del (key); }] on a cache that
    is up. *)
Lemma for_each_del keys : forall db (r : Redis.t V),
  Redis.isReady r = true ->
  for_each keys (fun key => write_redis (Redis.del key)) (World.mk db r)
  = (Ret tt, World.mk db (Redis.without_keys keys r)).
Proof.
  induction keys as [|key keys IH]; intros db r Hr; cbn [for_each].
  - unfold ret, Redis.without_keys. cbn [fold_left]. destruct r; reflexivity.
  - unfold bind at 1. unfold write_redis at 1. unfold Redis.del at 1.
    cbn [World.cache World.mongo]. rewrite Hr.
    rewrite IH by exact Hr. reflexivity.
Qed.

End Deleting.

(** ** The cache of the rankings *)

Section RankingCache.
Import JS Eff RankingService.
Variable log10 : Q -> Q.
Variable calculatePeriod : Z -> RankingType -> Period.

Lemma getRanking_answer now type category limit (w : World.t RankingResult) :
  fst (getRanking log10 calculatePeriod now type category limit w)
  = Ret match (if Redis.isReady (World.cache w)
               then Redis.lookup (now / 1000)
                      (rankingCacheKey type category
                         match limit with Some n => n | None => Int 20 end)
                      (World.cache w)
               else None) with
        | Some result => result
        | None =>
            mkResult type category
              (calculateRanking log10 now (World.mongo w) type (calculatePeriod now type)
                 category match limit with Some n => n | None => Int 20 end)
              now (calculatePeriod now type)
        end.
Proof.
  unfold getRanking. run_eff.
  destruct (Redis.isReady (World.cache w)) eqn:Hready.
  - unfold Redis.get. rewrite Hready.
    destruct (Redis.lookup _ _ _) as [result|]; [reflexivity |].
    rewrite Hready. unfold Redis.set. rewrite Hready. reflexivity.
  - cbn. rewrite Hready. reflexivity.
Qed.

Lemma clearRankingCache_run {V : Type} (w : World.t V) :
  clearRankingCache w
  = (Ret tt,
     if Redis.isReady (World.cache w)
     then World.mk (World.mongo w) (Redis.without_keys keyPatterns (World.cache w))
     else w).
Proof.
  unfold clearRankingCache, bind, redis_isReady, try_catch.
  destruct w as [db r]. cbn [World.cache World.mongo].
  destruct (Redis.isReady r) eqn:Hready; cbn [negb]; [| reflexivity].
  rewrite for_each_del by exact Hready. reflexivity.
Qed.

Lemma rankingCacheKey_kept type category limit :
  ~ In (rankingCacheKey type category limit) keyPatterns.
Proof.
  unfold rankingCacheKey.
  generalize (match truthy category with Some c => c | None => "all"%string end
              ++ ":" ++ integer_toString limit)%string.
  intros tail H.
  destruct type; cbv in H; repeat (destruct H as [H|H]; [discriminate H |]); exact H.
Qed.

End RankingCache.

(** X12.  [clearRankingCache] never throws, leaves the store alone and
    removes none of the rankings that [getRanking] cached: the keys it
    deletes are not keys [getRanking] writes, so whatever the window, the
    category and the limit, [getRanking] answers after the clearing what it
    would have answered without it. *)
Theorem clearRankingCache_keeps_cached_rankings
    (log10 : Q -> Q) (calculatePeriod : Z -> RankingService.RankingType -> RankingService.Period)
    (w : World.t RankingService.RankingResult) :
  fst (RankingService.clearRankingCache w) = Ret tt
  /\ World.mongo (snd (RankingService.clearRankingCache w)) = World.mongo w
  /\ forall now type category limit,
       Redis.entries (World.cache (snd (RankingService.clearRankingCache w)))
         !! RankingService.rankingCacheKey type category limit
       = Redis.entries (World.cache w) !! RankingService.rankingCacheKey type category limit
       /\ fst (RankingService.getRanking log10 calculatePeriod now type category (Some limit)
                 (snd (RankingService.clearRankingCache w)))
          = fst (RankingService.getRanking log10 calculatePeriod now type category (Some limit)
                   w).
Proof.
  rewrite clearRankingCache_run. cbn [fst snd].
  split; [reflexivity |].
  destruct (Redis.isReady (World.cache w)) eqn:Hready; [| repeat split].
  cbn [World.mongo World.cache]. split; [reflexivity |].
  intros now type category limit.
  assert (Hkept :
    Redis.entries (Redis.without_keys RankingService.keyPatterns (World.cache w))
      !! RankingService.rankingCacheKey type category limit
    = Redis.entries (World.cache w) !! RankingService.rankingCacheKey type category limit).
  { unfold Redis.without_keys. cbn [Redis.entries].
    apply lookup_without_other, rankingCacheKey_kept. }
  split; [exact Hkept |].
  rewrite !getRanking_answer. cbn [World.mongo World.cache].
  unfold Redis.isReady, Redis.lookup, Redis.without_keys in *. cbn [Redis.isConnected Redis.entries] in *.
  rewrite Hkept. reflexivity.
Qed.

(** ** The numbers of the ranking *)

Section RankingNumbers.
Import JS RankingService.
Local Open Scope Q_scope.

(** The age of a drama in milliseconds, as a rational. *)
Lemma decay_daily now updatedAt :
  calculateTimeDecay now updatedAt DAILY
  == Qmax (1 # 2) (1 - inject_Z (now - updatedAt) * (1 # 172800000)).
Proof.
  unfold calculateTimeDecay, Math_max. apply Q.max_compat; [reflexivity |].
  unfold Qdiv. change (/ inject_Z (1000 * 60 * 60)) with (1 # 3600000).
  change (/ 48) with (1 # 48). ring.
Qed.

Lemma decay_weekly now updatedAt :
  calculateTimeDecay now updatedAt WEEKLY
  == Qmax (7 # 10) (1 - inject_Z (now - updatedAt) * (1 # 1209600000)).
Proof.
  unfold calculateTimeDecay, Math_max. apply Q.max_compat; [reflexivity |].
  unfold Qdiv. change (/ inject_Z (1000 * 60 * 60)) with (1 # 3600000).
  change (/ inject_Z (7 * 24 * 2)) with (1 # 336). ring.
Qed.

Lemma Qmax_cases (a b : Q) :
  (Qmax a b == a /\ b <= a) \/ (Qmax a b == b /\ a <= b).
Proof.
  destruct (Q.max_spec a b) as [[Hlt Heq]|[Hle Heq]].
  - right. split; [exact Heq | lra].
  - left. split; [exact Heq | exact Hle].
Qed.

Lemma Math_round_le x y : x <= y -> Math_round x <= Math_round y.
Proof.
  intros Hxy. unfold Math_round. rewrite <- Zle_Qle. apply Qfloor_resp_le. lra.
Qed.

Lemma ranking_time_decay_bounds_aux now updatedAt :
  1 # 2 <= calculateTimeDecay now updatedAt DAILY
  /\ 7 # 10 <= calculateTimeDecay now updatedAt WEEKLY.
Proof.
  rewrite decay_daily, decay_weekly. split; apply Q.le_max_l.
Qed.

End RankingNumbers.

(** X13.  The time decay of the short-term rankings: the daily multiplier
    is never below 0.5 and the weekly one never below 0.7; neither exceeds
    1 for a drama that was not updated in the future; a drama updated more
    recently never gets the smaller multiplier; and the floor is reached
    after 24 hours for the daily ranking and after 100.8 hours for the
    weekly one. *)
Theorem ranking_time_decay_bounds (now updatedAt updatedAt' : Z) (type : RankingService.RankingType) :
  ((1 # 2 <= RankingService.calculateTimeDecay now updatedAt RankingService.DAILY)
   /\ (7 # 10 <= RankingService.calculateTimeDecay now updatedAt RankingService.WEEKLY)
   /\ ((updatedAt <= now)%Z -> RankingService.calculateTimeDecay now updatedAt type <= 1)
   /\ ((updatedAt <= updatedAt')%Z ->
       RankingService.calculateTimeDecay now updatedAt type
       <= RankingService.calculateTimeDecay now updatedAt' type)
   /\ ((24 * 3600000 <= now - updatedAt)%Z ->
       RankingService.calculateTimeDecay now updatedAt RankingService.DAILY == 1 # 2)
   /\ ((362880000 <= now - updatedAt)%Z ->
       RankingService.calculateTimeDecay now updatedAt RankingService.WEEKLY == 7 # 10))%Q.
Proof.
  pose proof (decay_daily now updatedAt) as Hd.
  pose proof (decay_weekly now updatedAt) as Hw.
  pose proof (decay_daily now updatedAt') as Hd'.
  pose proof (decay_weekly now updatedAt') as Hw'.
  set (x := inject_Z (now - updatedAt)) in *.
  set (x' := inject_Z (now - updatedAt')) in *.
  destruct (Qmax_cases (1 # 2) (1 - x * (1 # 172800000))) as [[Ed Hcd]|[Ed Hcd]];
  destruct (Qmax_cases (7 # 10) (1 - x * (1 # 1209600000))) as [[Ew Hcw]|[Ew Hcw]];
  destruct (Qmax_cases (1 # 2) (1 - x' * (1 # 172800000))) as [[Ed' Hcd']|[Ed' Hcd']];
  destruct (Qmax_cases (7 # 10) (1 - x' * (1 # 1209600000))) as [[Ew' Hcw']|[Ew' Hcw']];
  rewrite Ed in Hd; rewrite Ew in Hw; rewrite Ed' in Hd'; rewrite Ew' in Hw';
  (split; [rewrite Hd; lra |]);
  (split; [rewrite Hw; lra |]);
  (split; [intros Hage;
           assert (0 <= x)%Q by (subst x; rewrite <- (Zle_Qle 0%Z); lia);
           destruct type; rewrite ?Hd, ?Hw; cbn [RankingService.calculateTimeDecay]; lra |]);
  (split; [intros Hage;
           assert (x' <= x)%Q by (subst x x'; rewrite <- Zle_Qle; lia);
           destruct type; rewrite ?Hd, ?Hw, ?Hd', ?Hw';
           cbn [RankingService.calculateTimeDecay]; lra |]);
  (split; intros Hage;
     [ assert (86400000 <= x)%Q by (subst x; rewrite <- (Zle_Qle 86400000%Z); lia);
       rewrite Hd; lra
     | assert (362880000 <= x)%Q by (subst x; rewrite <- (Zle_Qle 362880000%Z); lia);
       rewrite Hw; lra ]).
Qed.

(** X14.  A better rating never lowers the ranking score: of two dramas
    that differ in their rating only, the one rated higher scores at least
    as much, in every window and whatever [Math.log10] is. *)
Theorem ranking_score_monotone_in_rating
    (log10 : Q -> Q) (now : Z) (d : Drama.t) (type : RankingService.RankingType)
    (rating rating' : Q) :
  (rating <= rating')%Q ->
  (RankingService.calculateRankingScore log10 now (RankingService.with_rating rating d) type
   <= RankingService.calculateRankingScore log10 now (RankingService.with_rating rating' d)
        type)%Q.
Proof.
  intros Hr. unfold RankingService.calculateRankingScore.
  cbn [RankingService.with_rating Drama.viewCount Drama.rating Drama.commentCount
       Drama.favoriteCount Drama.isHot Drama.isNewDrama Drama.updatedAt].
  set (v := (log10 (Drama.viewCount d + 1))%Q).
  set (c := (log10 (JS.or_zero (Drama.commentCount d) + 1))%Q).
  set (f := (log10 (JS.or_zero (Drama.favoriteCount d) + 1))%Q).
  pose proof (ranking_time_decay_bounds_aux now (Drama.updatedAt d)) as [Hd Hw].
  set (td := RankingService.calculateTimeDecay now (Drama.updatedAt d) RankingService.DAILY) in *.
  set (tw := RankingService.calculateTimeDecay now (Drama.updatedAt d) RankingService.WEEKLY) in *.
  assert (Htd : (rating * td <= rating' * td)%Q) by (apply Qmult_le_compat_r; lra).
  assert (Htw : (rating * tw <= rating' * tw)%Q) by (apply Qmult_le_compat_r; lra).
  unfold Qdiv. apply Qmult_le_compat_r; [| discriminate].
  apply Math_round_le.
  destruct type, (Drama.isHot d), (Drama.isNewDrama d);
    cbv beta iota zeta; cbn [RankingService.weightsFor RankingService.w_viewCount
      RankingService.w_rating RankingService.w_commentCount RankingService.w_favoriteCount];
    fold td tw; lra.
Qed.

Lemma ranking_score_monotone_in_rating_witness :
  (RankingService.calculateRankingScore (fun _ => 0%Q) 0
     (RankingService.with_rating 7 Samples.seed) RankingService.MONTHLY
   <= RankingService.calculateRankingScore (fun _ => 0%Q) 0
        (RankingService.with_rating 9 Samples.seed) RankingService.MONTHLY)%Q.
Proof.
  apply (ranking_score_monotone_in_rating (fun _ => 0%Q) 0 Samples.seed RankingService.MONTHLY
           7 9).
  discriminate.
Defined.

(** ** The recommendation strategies *)

Section Strategies.
Import JS RecommendationService.
Local Open Scope Q_scope.

Lemma In_limit {A : Type} (n : nat) (l : list A) x : In x (Mongo.limit n l) -> In x l.
Proof. unfold Mongo.limit. destruct (n =? 0)%nat; [tauto | apply In_firstn]. Qed.

(** An element of the candidate's array that is one of the seed's names
    is a common name. *)
Lemma array_in_common field values :
  array_in field values = true ->
  exists elements, field = Some elements /\ (1 <= length (common values elements))%nat.
Proof.
  unfold array_in. destruct field as [elements|]; [| discriminate].
  intros H. exists elements. split; [reflexivity |].
  apply existsb_exists in H. destruct H as (e & He & Hv).
  apply arr_includes_In in Hv.
  assert (Hin : In e (common values elements)).
  { unfold common. apply filter_In. split; [exact Hv | now apply arr_includes_In]. }
  destruct (common values elements); [destruct Hin | cbn; lia].
Qed.

Lemma of_nat_ge_1 n : (1 <= n)%nat -> 1 <= of_nat n.
Proof. intros H. unfold of_nat, Qle. simpl. lia. Qed.

Lemma similar_score_floor dramaId base d :
  similarQuery dramaId base d = true -> 10 <= calculateSimilarityScore base d.
Proof.
  unfold similarQuery, calculateSimilarityScore, Math_min, Math_max, Math_abs.
  intros H. apply andb_true_iff in H. destruct H as [_ H].
  set (r := Qmax 0 (20 - Qabs (Drama.rating base - Drama.rating d) * 4)).
  assert (Hr : 0 <= r) by apply Q.le_max_l.
  apply Q.min_glb; [lra |].
  assert (Htags : 0 <= match Drama.tags base, Drama.tags d with
                       | Some bt, Some dt => of_nat (length (common bt dt)) * 10
                       | _, _ => 0
                       end).
  { destruct (Drama.tags base), (Drama.tags d); try lra.
    pose proof (of_nat_nonneg (length (common l l0))). lra. }
  assert (Hcast : 0 <= match Drama.cast base, Drama.cast d with
                       | Some bc, Some tc => of_nat (length (common bc tc)) * 15
                       | _, _ => 0
                       end).
  { destruct (Drama.cast base), (Drama.cast d); try lra.
    pose proof (of_nat_nonneg (length (common l l0))). lra. }
  apply orb_true_iff in H. destruct H as [H|H]; [apply orb_true_iff in H; destruct H as [H|H] |].
  - rewrite String.eqb_sym in H. rewrite H.
    destruct (Drama.tags base), (Drama.tags d), (Drama.cast base), (Drama.cast d); lra.
  - apply array_in_common in H. destruct H as (dt & Hdt & Hlen).
    rewrite Hdt in *. destruct (Drama.tags base) as [bt|]; [| cbn in Hlen; lia].
    cbn [names] in Hlen. apply of_nat_ge_1 in Hlen.
    destruct (String.eqb _ _), (Drama.cast base), (Drama.cast d); lra.
  - apply array_in_common in H. destruct H as (tc & Htc & Hlen).
    rewrite Htc in *. destruct (Drama.cast base) as [bc|]; [| cbn in Hlen; lia].
    cbn [names] in Hlen. apply of_nat_ge_1 in Hlen.
    destruct (String.eqb _ _), (Drama.tags base), (Drama.tags d); lra.
Qed.

(** The items a strategy returns after scoring, sorting and cutting. *)
Lemma scored_items {A : Type} (f : A -> RecommendationItem) (candidates : list A) limit :
  (length (slice0 limit (sort by_score_desc (map f candidates))) <= limit)%nat
  /\ StronglySorted (fun a b => i_score b <= i_score a)
       (slice0 limit (sort by_score_desc (map f candidates)))
  /\ forall item, In item (slice0 limit (sort by_score_desc (map f candidates))) ->
                  exists c, In c candidates /\ item = f c.
Proof.
  change by_score_desc with (by_key_desc i_score). unfold slice0.
  split; [rewrite length_firstn; lia | split].
  - apply (firstn_sorted i_score), sort_sorted.
  - intros item Hitem. apply In_firstn in Hitem.
    apply (Permutation_in _ (Permutation_sym (sort_perm i_score _))) in Hitem.
    apply in_map_iff in Hitem. destruct Hitem as (c & <- & Hc). now exists c.
Qed.

End Strategies.


Section SortTwoKeys.
Import JS.
Local Open Scope Q_scope.
Context {A : Type} (first second : A -> Q).

(** What [sort_desc2] compares with. *)
Local Abbreviation cmp2 :=
  (fun a b : A => if Qeq_bool (first a) (first b)
                  then second b - second a else first b - first a).

Lemma Qeq_bool_cases (x y : Q) :
  (Qeq_bool x y = true /\ x == y) \/ (Qeq_bool x y = false /\ ~ x == y).
Proof.
  destruct (Qeq_bool x y) eqn:E.
  - left. split; [reflexivity | now apply Qeq_bool_iff].
  - right. split; [reflexivity | now apply Qeq_bool_neq].
Qed.

Lemma cmp2_total a b : cmp2 a b <= 0 \/ cmp2 b a <= 0.
Proof.
  cbv beta.
  destruct (Qeq_bool_cases (first a) (first b)) as [[-> Hab]|[-> Hab]],
           (Qeq_bool_cases (first b) (first a)) as [[-> Hba]|[-> Hba]];
    destruct (Qlt_le_dec (second a) (second b)), (Qlt_le_dec (first a) (first b)); lra.
Qed.

Lemma cmp2_trans a b c : cmp2 a b <= 0 -> cmp2 b c <= 0 -> cmp2 a c <= 0.
Proof.
  cbv beta.
  destruct (Qeq_bool_cases (first a) (first b)) as [[-> Hab]|[-> Hab]],
           (Qeq_bool_cases (first b) (first c)) as [[-> Hbc]|[-> Hbc]],
           (Qeq_bool_cases (first a) (first c)) as [[-> Hac]|[-> Hac]];
    intros H1 H2; try lra;
    try (exfalso; apply Hac; lra); try (exfalso; apply Hab; lra);
    try (exfalso; apply Hbc; lra).
Qed.

Lemma sort_desc2_sorted l :
  StronglySorted (fun a b => first b <= first a) (Mongo.sort_desc2 first second l).
Proof.
  unfold Mongo.sort_desc2.
  eapply StronglySorted_weaken; [| apply sort_sorted_any; [apply cmp2_total | apply cmp2_trans]].
  cbv beta. intros a b.
  destruct (Qeq_bool (first a) (first b)) eqn:Hab.
  - apply Qeq_bool_iff in Hab. lra.
  - lra.
Qed.

Lemma sort_desc2_perm l : Permutation l (Mongo.sort_desc2 first second l).
Proof. apply sort_perm_any. Qed.

End SortTwoKeys.

Lemma limit_StronglySorted {A : Type} (R : A -> A -> Prop) n l :
  StronglySorted R l -> StronglySorted R (Mongo.limit n l).
Proof.
  unfold Mongo.limit. destruct (n =? 0)%nat; [tauto | apply firstn_StronglySorted].
Qed.

Lemma StronglySorted_map {A B : Type} (f : A -> B) (R : B -> B -> Prop) l :
  StronglySorted (fun a b => R (f a) (f b)) l -> StronglySorted R (map f l).
Proof.
  induction 1 as [|x l Hl IH Hx]; cbn [map]; constructor; [exact IH |].
  apply List.Forall_forall. intros y Hy. apply in_map_iff in Hy.
  destruct Hy as (z & <- & Hz). rewrite List.Forall_forall in Hx. now apply Hx.
Qed.

(** X16.  [getHotRecommendations] never throws.  Every item is a drama of
    the store that is flagged hot (and of one of the categories asked for,
    when some are), scored [rating * 10 + log10 (viewCount + 1)]; the items
    come in non-increasing order of rating; there are at most [limit] of
    them when [limit] is positive, and with a limit of 0 the query is not
    limited: every matching drama is returned. *)
Theorem getHotRecommendations_sound
    (log10 : Q -> Q) (limit : nat) (categories : option (list string)) (db : Mongo.t) :
  Forall
    (fun item =>
       In (RecommendationService.i_drama item) (Mongo.dramas db)
       /\ RecommendationService.hotQuery categories (RecommendationService.i_drama item) = true
       /\ Drama.isHot (RecommendationService.i_drama item) = true
       /\ RecommendationService.i_type item = RecommendationService.HOT
       /\ RecommendationService.i_score item
          = (Drama.rating (RecommendationService.i_drama item) * 10
             + log10 (Drama.viewCount (RecommendationService.i_drama item) + 1))%Q)
    (RecommendationService.getHotRecommendations log10 limit categories db)
  /\ StronglySorted
       (fun a b => (Drama.rating (RecommendationService.i_drama b)
                    <= Drama.rating (RecommendationService.i_drama a))%Q)
       (RecommendationService.getHotRecommendations log10 limit categories db)
  /\ ((0 < limit)%nat ->
      (length (RecommendationService.getHotRecommendations log10 limit categories db)
       <= limit)%nat)
  /\ (limit = 0%nat -> Mongo.connected db = true ->
      length (RecommendationService.getHotRecommendations log10 limit categories db)
      = length (List.filter (RecommendationService.hotQuery categories) (Mongo.dramas db))).
Proof.
  unfold RecommendationService.getHotRecommendations, Mongo.Drama_find.
  destruct (Mongo.connected db).
  2: { repeat split; try constructor; [cbn; lia | discriminate]. }
  split; [| split; [| split]].
  - apply List.Forall_forall. intros item Hitem.
    apply in_map_iff in Hitem. destruct Hitem as (d & <- & Hd).
    apply In_limit in Hd.
    apply (Permutation_in _ (Permutation_sym (sort_desc2_perm _ _ _))) in Hd.
    apply filter_In in Hd. destruct Hd as [Hin Hquery].
    cbn [RecommendationService.i_drama RecommendationService.i_type
         RecommendationService.i_score].
    repeat split; try assumption.
    unfold RecommendationService.hotQuery in Hquery.
    apply andb_true_iff in Hquery. tauto.
  - apply StronglySorted_map. cbn [RecommendationService.i_drama].
    apply limit_StronglySorted, sort_desc2_sorted.
  - intros Hpos. rewrite length_map. unfold Mongo.limit.
    destruct (limit =? 0)%nat eqn:E; [apply Nat.eqb_eq in E; lia |].
    rewrite length_firstn. lia.
  - intros -> _. rewrite length_map. unfold Mongo.limit. cbn [Nat.eqb].
    symmetry. apply Permutation_length, sort_desc2_perm.
Qed.

(** X17.  [getPersonalizedRecommendations] never throws.  For a user with
    a stored preference it returns at most [limit] items in non-increasing
    order of their score, each a drama of the store that matches the query
    built from the preference, scored by [calculatePersonalizedScore] (at
    most 100); for a user without stored preference it returns what
    [getHotRecommendations (limit)] returns; and when the store is down it
    returns the empty list. *)
Theorem getPersonalizedRecommendations_sound
    (log10 : Q -> Q) (userId : string) (limit : nat) (excludeWatched : bool) (db : Mongo.t) :
  (forall p,
     Mongo.UserPreference_findOne userId db = Ret (Some p) ->
     (length (RecommendationService.getPersonalizedRecommendations log10 userId limit
                excludeWatched db) <= limit)%nat
     /\ StronglySorted
          (fun a b => (RecommendationService.i_score b <= RecommendationService.i_score a)%Q)
          (RecommendationService.getPersonalizedRecommendations log10 userId limit
             excludeWatched db)
     /\ Forall
          (fun item =>
             In (RecommendationService.i_drama item) (Mongo.dramas db)
             /\ RecommendationService.personalizedQuery p (RecommendationService.i_drama item)
                = true
             /\ RecommendationService.i_type item = RecommendationService.PERSONALIZED
             /\ RecommendationService.i_score item
                = RecommendationService.calculatePersonalizedScore
                    (RecommendationService.i_drama item) p
             /\ (RecommendationService.i_score item <= 100)%Q)
          (RecommendationService.getPersonalizedRecommendations log10 userId limit
             excludeWatched db))
  /\ (Mongo.UserPreference_findOne userId db = Ret None ->
      RecommendationService.getPersonalizedRecommendations log10 userId limit excludeWatched db
      = RecommendationService.getHotRecommendations log10 limit None db)
  /\ (Mongo.connected db = false ->
      RecommendationService.getPersonalizedRecommendations log10 userId limit excludeWatched db
      = []).
Proof.
  unfold RecommendationService.getPersonalizedRecommendations.
  split; [| split].
  - intros p Hp. rewrite Hp.
    unfold Mongo.UserPreference_findOne in Hp. unfold Mongo.Drama_find.
    destruct (Mongo.connected db); [| discriminate Hp].
    match goal with
    | |- context [JS.slice0 limit (JS.sort _ (map ?f ?c))] =>
        destruct (scored_items f c limit) as (Hlen & Hsorted & Hitems)
    end.
    split; [exact Hlen | split; [exact Hsorted |]].
    apply List.Forall_forall. intros item Hitem.
    destruct (Hitems item Hitem) as (d & Hd & ->).
    cbn [RecommendationService.i_drama RecommendationService.i_type
         RecommendationService.i_score].
    apply In_limit, filter_In in Hd. destruct Hd as [Hin Hquery].
    repeat split; try assumption.
    unfold RecommendationService.calculatePersonalizedScore, JS.Math_min. apply Q.le_min_l.
  - intros ->. reflexivity.
  - intros Hdown. unfold Mongo.UserPreference_findOne,
      RecommendationService.getHotRecommendations, Mongo.Drama_find.
    rewrite Hdown. reflexivity.
Qed.

(** ** The detail of a drama and its view count *)

Section DramaDetail.
Import JS Eff DramaService.

Lemma existsb_find {A : Type} (p : A -> bool) l :
  existsb p l = match List.find p l with Some _ => true | None => false end.
Proof.
  induction l as [|x l IH]; cbn [existsb List.find]; [reflexivity |].
  destruct (p x); [reflexivity | exact IH].
Qed.

Lemma find_id_None id (l : list Drama.t) :
  (forall d, In d l -> Mongo.same_id (Drama._id d) id = false) ->
  List.find (fun d => Mongo.same_id (Drama._id d) id) l = None.
Proof.
  intros Hl. destruct (List.find _ l) as [d|] eqn:Hd; [| reflexivity].
  apply List.find_some in Hd. destruct Hd as [Hin Heq].
  rewrite (Hl d Hin) in Heq. discriminate Heq.
Qed.

(** A drama has the id asked for when its id is that string, or the string
    with its digits in lower case when it spells an [ObjectId]. *)
Lemma same_id_cases _id id :
  Mongo.same_id _id id = true
  <-> _id = id \/ (Mongo.isObjectId id = true /\ _id = Mongo.objectIdText id).
Proof.
  unfold Mongo.same_id. rewrite orb_true_iff, andb_true_iff, !String.eqb_eq. tauto.
Qed.

(** [Drama.findById], case by case. *)
Lemma Drama_findById_cases id db :
  Mongo.Drama_findById id db
  = match List.find (fun d => Mongo.same_id (Drama._id d) id) (Mongo.dramas db) with
    | Some d => if Mongo.connected db then Ret (Some d) else Throw Mongo.unavailable
    | None =>
        if Mongo.isObjectId id
        then if Mongo.connected db then Ret None else Throw Mongo.unavailable
        else Throw (Mongo.castError id "Drama")
    end.
Proof.
  unfold Mongo.Drama_findById, Mongo.castable. rewrite existsb_find.
  destruct (List.find _ (Mongo.dramas db)) as [d|].
  - now rewrite orb_true_r.
  - rewrite orb_false_r. destruct (Mongo.isObjectId id); reflexivity.
Qed.

(** [getDramaById], case by case. *)
Lemma getDramaById_run now id (w : World.t Drama.t) :
  getDramaById now id w
  = match (if Redis.isReady (World.cache w)
           then Redis.lookup now (detailCacheKey id) (World.cache w) else None) with
    | Some d => (Ret (Some d), w)
    | None =>
        match Mongo.Drama_findById id (World.mongo w) with
        | Throw e => (Throw e, w)
        | Ret None => (Ret None, w)
        | Ret (Some d) =>
            (Ret (Some d),
             if Redis.isReady (World.cache w)
             then World.mk (World.mongo w)
                    (Redis.mk (Redis.isConnected (World.cache w))
                       (<[detailCacheKey id := (d, Some (now + CACHE_TTL)%Z)]>
                          (Redis.entries (World.cache w))))
             else w)
        end
    end.
Proof.
  unfold getDramaById. run_eff.
  destruct (Redis.isReady (World.cache w)) eqn:Hready.
  - unfold Redis.get. rewrite Hready.
    destruct (Redis.lookup now (detailCacheKey id) (World.cache w)) as [d|]; [reflexivity |].
    destruct (Mongo.Drama_findById id (World.mongo w)) as [[d|]|e]; try reflexivity.
    run_eff. rewrite Hready. unfold Redis.set. rewrite Hready. reflexivity.
  - cbn. destruct (Mongo.Drama_findById id (World.mongo w)) as [[d|]|e]; try reflexivity.
    run_eff. rewrite Hready. reflexivity.
Qed.

(** What [incrementViewCount] leaves behind. *)
Lemma incrementViewCount_run {V : Type} now id (w : World.t V) :
  incrementViewCount now id w
  = match Mongo.Drama_incViewCount (now * 1000) id (World.mongo w) with
    | Throw e => (Throw e, w)
    | Ret db =>
        (Ret tt,
         World.mk db (if Redis.isReady (World.cache w)
                      then Redis.without_keys (patterns id) (World.cache w)
                      else World.cache w))
    end.
Proof.
  unfold incrementViewCount, try_catch, bind, write_mongo, redis_isReady.
  destruct (Mongo.Drama_incViewCount (now * 1000) id (World.mongo w)) as [db|e];
    [| reflexivity].
  cbn [World.cache World.mongo].
  destruct (Redis.isReady (World.cache w)) eqn:Hready; [| reflexivity].
  rewrite for_each_del by exact Hready. reflexivity.
Qed.

Lemma toString_not_star n : toString (Some n) <> "*"%string.
Proof.
  intros E. pose proof (parseInt_toString n) as H. rewrite E in H. discriminate H.
Qed.

Lemma listCacheKey_kept id parameters : ~ In (listCacheKey parameters) (patterns id).
Proof.
  unfold listCacheKey. cbn [JSON.stringify].
  generalize (JSON.join (Text.of_string ",")
                (map (fun kv => JSON.quoted (fst kv) ++ Text.of_string ":"
                                ++ JSON.stringify (snd kv))
                     parameters) ++ Text.of_string "}")%list.
  intros tail H.
  change (Text.utf8 _) with
    ("drama:list:{" ++ Text.utf8 tail)%string in H.
  cbv [patterns In detailCacheKey] in H.
  repeat (destruct H as [H|H]; [discriminate H |]). exact H.
Qed.

Lemma counted_key_kept id prefix limit :
  prefix = CACHE_KEYS_NEW_DRAMAS \/ prefix = CACHE_KEYS_TRENDING_DRAMAS ->
  ~ In (prefix ++ ":" ++ toString (Some limit))%string (patterns id).
Proof.
  pose proof (toString_not_star limit) as Hstar. revert Hstar.
  generalize (toString (Some limit)). intros digits Hstar [-> | ->] H;
    cbv in H; repeat (destruct H as [H|H]; [try discriminate H |]); try exact H.
  apply Hstar. injection H as H. congruence.
Qed.

Lemma other_detail_kept id id' : id' <> id -> ~ In (detailCacheKey id') (patterns id).
Proof.
  intros Hne H. unfold detailCacheKey, patterns in H. cbn [In] in H.
  destruct H as [H|H].
  - apply append_inj_l in H. apply (append_inj_l ":") in H. congruence.
  - revert H. generalize id'. intros tail H. cbv in H.
    repeat (destruct H as [H|H]; [discriminate H |]). exact H.
Qed.

End DramaDetail.

(** X18.  [getDramaById] reads through the cache.  A detail found in the
    cache is returned without a look at the store; a drama found in the
    store is returned and stored for 30 minutes, and for that long, the
    cache being reachable, the same answer is given whatever has become of
    the store, even when it is down.  When the cache has no detail, an id of
    24 hexadecimal digits that no drama has is answered [null] and nothing is
    cached, and any other id that no drama has makes the call throw (the id
    cannot be cast).  A drama has an id of 24 digits also when the id it was
    stored with is those digits in lower case. *)
Theorem getDramaById_reads_through (now : Z) (id : string) (w : World.t Drama.t) :
  let miss :=
    Redis.isReady (World.cache w) = true ->
    Redis.lookup now (DramaService.detailCacheKey id) (World.cache w) = None in
  let unknown :=
    forall d, In d (Mongo.dramas (World.mongo w)) ->
              Drama._id d <> id /\ Drama._id d <> Mongo.objectIdText id in
  (forall d,
     Redis.isReady (World.cache w) = true ->
     Redis.lookup now (DramaService.detailCacheKey id) (World.cache w) = Some d ->
     DramaService.getDramaById now id w = (Ret (Some d), w))
  /\ (miss -> unknown -> Mongo.isObjectId id = true ->
      Mongo.connected (World.mongo w) = true ->
      DramaService.getDramaById now id w = (Ret None, w))
  /\ (miss -> unknown -> Mongo.isObjectId id = false ->
      exists message, DramaService.getDramaById now id w = (Throw message, w))
  /\ (forall d,
        Redis.isReady (World.cache w) = true ->
        Redis.lookup now (DramaService.detailCacheKey id) (World.cache w) = None ->
        Mongo.Drama_findById id (World.mongo w) = Ret (Some d) ->
        fst (DramaService.getDramaById now id w) = Ret (Some d)
        /\ World.mongo (snd (DramaService.getDramaById now id w)) = World.mongo w
        /\ forall later db,
             (later < now + 1800)%Z ->
             DramaService.getDramaById later id
               (World.mk db (World.cache (snd (DramaService.getDramaById now id w))))
             = (Ret (Some d),
                World.mk db (World.cache (snd (DramaService.getDramaById now id w))))).
Proof.
  intros miss unknown.
  assert (Hmissed : miss ->
            (if Redis.isReady (World.cache w)
             then Redis.lookup now (DramaService.detailCacheKey id) (World.cache w)
             else None) = None).
  { intros Hmiss. destruct (Redis.isReady (World.cache w)); [now apply Hmiss | reflexivity]. }
  assert (Habsent : unknown ->
            forall d, In d (Mongo.dramas (World.mongo w)) ->
                      Mongo.same_id (Drama._id d) id = false).
  { intros Hunknown d Hd. destruct (Hunknown d Hd) as [Hraw Hlow].
    destruct (Mongo.same_id (Drama._id d) id) eqn:E; [| reflexivity].
    apply same_id_cases in E. tauto. }
  split; [| split; [| split]].
  - intros d Hready Hhit. rewrite getDramaById_run, Hready, Hhit. reflexivity.
  - intros Hmiss Hunknown Hid Hup.
    rewrite getDramaById_run, (Hmissed Hmiss), Drama_findById_cases.
    rewrite (find_id_None id _ (Habsent Hunknown)), Hid, Hup. reflexivity.
  - intros Hmiss Hunknown Hid.
    rewrite getDramaById_run, (Hmissed Hmiss), Drama_findById_cases.
    rewrite (find_id_None id _ (Habsent Hunknown)), Hid. eexists. reflexivity.
  - intros d Hready Hmiss Hfound.
    rewrite getDramaById_run, Hready, Hmiss, Hfound. cbn [fst snd World.mongo World.cache].
    repeat split. intros later db Hlater.
    rewrite getDramaById_run. cbn [World.cache World.mongo].
    unfold Redis.isReady in *. cbn [Redis.isConnected]. rewrite Hready.
    unfold Redis.lookup. cbn [Redis.entries]. rewrite lookup_insert_eq.
    unfold Redis.live. cbn [snd fst]. unfold DramaService.CACHE_TTL.
    apply Z.ltb_lt in Hlater. rewrite Hlater. reflexivity.
Qed.

Example getDramaById_casts_the_id :
  fst (DramaService.getDramaById 0 "0123456789ABCDEF01234567" DramaFixtures.numberedWorld)
  = Ret (Some DramaFixtures.numbered)
  /\ fst (DramaService.getDramaById 0 "0123456789abcdef01234568"
            DramaFixtures.numberedWorld)
     = Ret None
  /\ fst (DramaService.getDramaById 0 "0123456789abcdef0123456" DramaFixtures.numberedWorld)
     = Throw (Mongo.castError "0123456789abcdef0123456" "Drama").
Proof. vm_compute. repeat split. Qed.

Section ViewCount.
Import JS Eff DramaService.

(** The drama a view leaves in the store. *)
Lemma find_viewed now id d l :
  List.find (fun x => Mongo.same_id (Drama._id x) id) l = Some d ->
  List.find (fun x => Mongo.same_id (Drama._id x) id)
    match findIndex (fun x => Mongo.same_id (Drama._id x) id) l with
    | Some i =>
        alter (fun x => Mongo.with_updatedAt now
                          (Mongo.with_viewCount (Drama.viewCount x + 1)%Q x)) i l
    | None => l
    end
  = Some (Mongo.with_updatedAt now (Mongo.with_viewCount (Drama.viewCount d + 1)%Q d)).
Proof.
  induction l as [|x l IH]; intros Hfound; [discriminate Hfound |].
  cbn [List.find findIndex] in *.
  destruct (Mongo.same_id (Drama._id x) id) eqn:Hx.
  - injection Hfound as ->.
    cbn [alter list_alter List.find Mongo.with_viewCount Mongo.with_updatedAt Drama._id].
    rewrite Hx. reflexivity.
  - specialize (IH Hfound).
    destruct (findIndex _ l) as [i|]; cbn [option_map].
    + cbn [alter list_alter List.find] in *. rewrite Hx. exact IH.
    + cbn [List.find]. rewrite Hx. exact IH.
Qed.

(** What the detail of [id] is answered from, once the connection to the
    cache is [up], after a view. *)
Lemma detail_after_view {V : Type} later id (r : Redis.t V) up :
  (let r' := Redis.with_isConnected up
               (if Redis.isReady r then Redis.without_keys (patterns id) r else r) in
   if Redis.isReady r' then Redis.lookup later (detailCacheKey id) r' else None)
  = if Redis.isReady r then None
    else if up then Redis.lookup later (detailCacheKey id) r else None.
Proof.
  cbv zeta. unfold Redis.isReady at 1. cbn [Redis.with_isConnected Redis.isConnected].
  destruct (Redis.isReady r) eqn:Hready.
  - destruct up; [| reflexivity].
    unfold Redis.lookup, Redis.with_isConnected, Redis.without_keys. cbn [Redis.entries].
    rewrite lookup_without_deleted; [reflexivity | now left].
  - destruct up; reflexivity.
Qed.

End ViewCount.

(** X19.  A view counts as an update: [incrementViewCount (id)] on a stored
    drama leaves it in the store with its view count one higher and
    [updatedAt] at the instant of the view, so the time decay of the
    rankings starts anew for it.  When the cache was reachable during the
    call, the next [getDramaById (id)] answers that drama, whether the cache
    is then reachable or not and whatever detail it held before.  When the
    cache was not reachable the call deletes nothing: once the cache is back
    a detail it still holds is answered as it was, and the drama of the
    store is answered otherwise. *)
Theorem incrementViewCount_is_seen
    (now later : Z) (id : string) (d : Drama.t) (w : World.t Drama.t) (up : bool) :
  Mongo.Drama_findById id (World.mongo w) = Ret (Some d) ->
  let viewed :=
    Mongo.with_updatedAt (now * 1000) (Mongo.with_viewCount (Drama.viewCount d + 1)%Q d) in
  let after := World.link up (snd (DramaService.incrementViewCount now id w)) in
  fst (DramaService.incrementViewCount now id w) = Ret tt
  /\ Mongo.Drama_findById id (World.mongo after) = Ret (Some viewed)
  /\ (Redis.isReady (World.cache w) = true ->
      fst (DramaService.getDramaById later id after) = Ret (Some viewed))
  /\ (Redis.isReady (World.cache w) = false ->
      fst (DramaService.getDramaById later id after)
      = Ret (Some match (if up
                         then Redis.lookup later (DramaService.detailCacheKey id)
                                (World.cache w)
                         else None) with
                  | Some older => older
                  | None => viewed
                  end))
  /\ (forall type,
        (RankingService.calculateTimeDecay (now * 1000) (Drama.updatedAt viewed) type == 1)%Q).
Proof.
  intros Hfound viewed after.
  rewrite Drama_findById_cases in Hfound.
  destruct (List.find _ (Mongo.dramas (World.mongo w))) as [d0|] eqn:Hd0.
  2: { destruct (Mongo.isObjectId id), (Mongo.connected (World.mongo w)); discriminate Hfound. }
  destruct (Mongo.connected (World.mongo w)) eqn:Hup; [| discriminate Hfound].
  injection Hfound as ->.
  assert (Hrun : DramaService.incrementViewCount now id w
                 = (Ret tt,
                    World.mk
                      (Mongo.mk true
                         match JS.findIndex (fun x => Mongo.same_id (Drama._id x) id)
                                 (Mongo.dramas (World.mongo w)) with
                         | Some i =>
                             alter (fun x => Mongo.with_updatedAt (now * 1000)
                                               (Mongo.with_viewCount (Drama.viewCount x + 1)%Q x))
                               i (Mongo.dramas (World.mongo w))
                         | None => Mongo.dramas (World.mongo w)
                         end
                         (Mongo.categories (World.mongo w)) (Mongo.preferences (World.mongo w))
                         (Mongo.users (World.mongo w)) (Mongo.sessions (World.mongo w)))
                      (if Redis.isReady (World.cache w)
                       then Redis.without_keys (DramaService.patterns id) (World.cache w)
                       else World.cache w))).
  { rewrite incrementViewCount_run. unfold Mongo.Drama_incViewCount, Mongo.castable.
    rewrite existsb_find, Hd0, orb_true_r, Hup. reflexivity. }
  assert (Hstore : Mongo.Drama_findById id (World.mongo after) = Ret (Some viewed)).
  { subst after. rewrite Hrun. cbn [snd World.link World.mongo].
    rewrite Drama_findById_cases. cbn [Mongo.dramas Mongo.connected].
    rewrite (find_viewed (now * 1000) id d _ Hd0). reflexivity. }
  assert (Hread :
            fst (DramaService.getDramaById later id after)
            = Ret (Some match (if Redis.isReady (World.cache w) then None
                               else if up
                                    then Redis.lookup later (DramaService.detailCacheKey id)
                                           (World.cache w)
                                    else None) with
                        | Some older => older
                        | None => viewed
                        end)).
  { rewrite getDramaById_run, Hstore. subst after. rewrite Hrun.
    cbn [snd World.link World.cache].
    pose proof (detail_after_view later id (World.cache w) up) as Hdetail.
    cbv zeta in Hdetail. rewrite Hdetail.
    destruct (Redis.isReady (World.cache w)); [reflexivity |].
    destruct (if up then _ else None); reflexivity. }
  split; [now rewrite Hrun | split; [exact Hstore | split; [| split]]].
  - intros Hready. rewrite Hread, Hready. reflexivity.
  - intros Hready. rewrite Hread, Hready. reflexivity.
  - intros type. subst viewed. cbn [Mongo.with_updatedAt Drama.updatedAt].
    unfold RankingService.calculateTimeDecay. rewrite Z.sub_diag.
    destruct type; vm_compute; reflexivity.
Qed.

Lemma incrementViewCount_is_seen_witness :
  fst (DramaService.getDramaById 60 "d1" DramaFixtures.world) = Ret (Some Samples.seed)
  /\ fst (DramaService.getDramaById 61 "d1"
            (World.link true (snd (DramaService.incrementViewCount 60 "d1" DramaFixtures.world))))
     = Ret (Some (Mongo.with_updatedAt 60000
                    (Mongo.with_viewCount (Drama.viewCount Samples.seed + 1)%Q Samples.seed)))
  /\ fst (DramaService.getDramaById 61 "d1"
            (World.link true
               (snd (DramaService.incrementViewCount 60 "d1"
                       (World.link false DramaFixtures.world)))))
     = Ret (Some Samples.seed).
Proof.
  split; [vm_compute; reflexivity |]. split.
  - apply (proj1 (proj2 (proj2 (incrementViewCount_is_seen 60 61 "d1" Samples.seed
                                  DramaFixtures.world true ltac:(vm_compute; reflexivity)))));
      reflexivity.
  - vm_compute. reflexivity.
Defined.

(** X20.  [incrementViewCount] removes one cache entry, the detail of the
    drama viewed.  The other three keys it deletes end in a [*] that
    [redis.del] takes literally, so no cached list of [getDramas], no list
    of [getNewDramas] or [getTrendingDramas] and no detail of another drama
    leaves the cache with it. *)
Theorem incrementViewCount_keeps_the_lists {V : Type}
    (now : Z) (id : string) (w : World.t V) :
  (Redis.isReady (World.cache w) = true ->
   fst (DramaService.incrementViewCount now id w) = Ret tt ->
   Redis.entries (World.cache (snd (DramaService.incrementViewCount now id w)))
     !! DramaService.detailCacheKey id = None)
  /\ (forall parameters,
        Redis.entries (World.cache (snd (DramaService.incrementViewCount now id w)))
          !! DramaService.listCacheKey parameters
        = Redis.entries (World.cache w) !! DramaService.listCacheKey parameters)
  /\ (forall limit,
        Redis.entries (World.cache (snd (DramaService.incrementViewCount now id w)))
          !! DramaService.newCacheKey limit
        = Redis.entries (World.cache w) !! DramaService.newCacheKey limit)
  /\ (forall limit,
        Redis.entries (World.cache (snd (DramaService.incrementViewCount now id w)))
          !! DramaService.trendingCacheKey limit
        = Redis.entries (World.cache w) !! DramaService.trendingCacheKey limit)
  /\ (forall other, other <> id ->
        Redis.entries (World.cache (snd (DramaService.incrementViewCount now id w)))
          !! DramaService.detailCacheKey other
        = Redis.entries (World.cache w) !! DramaService.detailCacheKey other).
Proof.
  rewrite incrementViewCount_run.
  destruct (Mongo.Drama_incViewCount (now * 1000) id (World.mongo w)) as [db|e];
    cbn [fst snd World.cache]; [| repeat split; discriminate].
  destruct (Redis.isReady (World.cache w)); [| repeat split; discriminate].
  unfold Redis.without_keys. cbn [Redis.entries].
  split; [| split; [| split; [| split]]].
  - intros _ _. apply lookup_without_deleted. now left.
  - intros parameters. apply lookup_without_other, listCacheKey_kept.
  - intros limit. apply lookup_without_other, counted_key_kept. now left.
  - intros limit. apply lookup_without_other, counted_key_kept. now right.
  - intros other Hother. now apply lookup_without_other, other_detail_kept.
Qed.

(** ** The lists of categories *)

Section CategoryLists.
Import Eff CategoryService.

Lemma clearCache_run {V : Type} (w : World.t V) : clearCache w = (Ret tt, cleared w).
Proof.
  unfold clearCache, cleared, bind, redis_isReady, try_catch.
  destruct w as [db r]. cbn [World.cache World.mongo].
  destruct (Redis.isReady r) eqn:Hready; cbn [negb]; [| reflexivity].
  rewrite for_each_del by exact Hready. reflexivity.
Qed.

Lemma cleared_mongo {V : Type} (w : World.t V) : World.mongo (cleared w) = World.mongo w.
Proof. unfold cleared. destruct (Redis.isReady (World.cache w)); reflexivity. Qed.

(** After [clearCache] no list is answered from the cache. *)
Lemma cleared_miss {V : Type} now key (w : World.t V) :
  In key CACHE_KEYS ->
  (if Redis.isReady (World.cache (cleared w))
   then Redis.lookup now key (World.cache (cleared w)) else None) = None.
Proof.
  intros Hkey. unfold cleared.
  destruct (Redis.isReady (World.cache w)) eqn:Hready; [| now rewrite Hready].
  cbn [World.cache]. unfold Redis.isReady, Redis.without_keys, Redis.lookup.
  cbn [Redis.isConnected Redis.entries]. unfold Redis.isReady in Hready. rewrite Hready.
  now rewrite lookup_without_deleted.
Qed.

Lemma getActiveCategories_answer now (w : World.t (list Category.t)) :
  fst (getActiveCategories now w)
  = match (if Redis.isReady (World.cache w)
           then Redis.lookup now CACHE_KEYS_ACTIVE_CATEGORIES (World.cache w) else None) with
    | Some categories => Ret categories
    | None =>
        if Mongo.connected (World.mongo w) then Ret (activeCategories (World.mongo w))
        else Throw Mongo.unavailable
    end.
Proof.
  unfold getActiveCategories. run_eff. unfold Mongo.Category_find_sorted, activeCategories.
  destruct (Redis.isReady (World.cache w)) eqn:Hready.
  - unfold Redis.get. rewrite Hready.
    destruct (Redis.lookup _ _ _); [reflexivity |].
    destruct (Mongo.connected (World.mongo w)); [| reflexivity].
    rewrite Hready. unfold Redis.set. rewrite Hready. reflexivity.
  - cbn. destruct (Mongo.connected (World.mongo w)); [| reflexivity].
    rewrite Hready. reflexivity.
Qed.

Lemma getAllCategories_answer now (w : World.t (list Category.t)) :
  fst (getAllCategories now w)
  = match (if Redis.isReady (World.cache w)
           then Redis.lookup now CACHE_KEYS_ALL_CATEGORIES (World.cache w) else None) with
    | Some categories => Ret categories
    | None =>
        if Mongo.connected (World.mongo w) then Ret (allCategories (World.mongo w))
        else Throw Mongo.unavailable
    end.
Proof.
  unfold getAllCategories. run_eff. unfold Mongo.Category_find_sorted, allCategories.
  destruct (Redis.isReady (World.cache w)) eqn:Hready.
  - unfold Redis.get. rewrite Hready.
    destruct (Redis.lookup _ _ _); [reflexivity |].
    destruct (Mongo.connected (World.mongo w)); [| reflexivity].
    rewrite Hready. unfold Redis.set. rewrite Hready. reflexivity.
  - cbn. destruct (Mongo.connected (World.mongo w)); [| reflexivity].
    rewrite Hready. reflexivity.
Qed.

(** What a list is answered from, once the connection to the cache is
    [up], after [clearCache]. *)
Lemma list_after_clear {V : Type} now key (w : World.t V) up :
  In key CACHE_KEYS ->
  (if Redis.isReady (World.cache (World.link up (cleared w)))
   then Redis.lookup now key (World.cache (World.link up (cleared w)))
   else None)
  = if Redis.isReady (World.cache w) then None
    else if up then Redis.lookup now key (World.cache w) else None.
Proof.
  intros Hkey. unfold cleared, World.link.
  destruct (Redis.isReady (World.cache w)) eqn:Hready; cbn [World.cache World.mongo].
  - unfold Redis.isReady at 1. cbn [Redis.with_isConnected Redis.isConnected].
    destruct up; [| reflexivity].
    unfold Redis.lookup, Redis.with_isConnected, Redis.without_keys. cbn [Redis.entries].
    now rewrite lookup_without_deleted.
  - unfold Redis.isReady at 1. cbn [Redis.with_isConnected Redis.isConnected].
    destruct up; reflexivity.
Qed.

(** What [toggleCategoryStatus] does with the category found under
    [key], the store being up. *)
Lemma toggle_found {V : Type} id key c (w : World.t V) :
  Mongo.connected (World.mongo w) = true ->
  Mongo.Category_id id (World.mongo w) = key ->
  ask_mongo (Mongo.Category_findById id) w = (Ret (Some c), w) ->
  toggleCategoryStatus id w
  = (Ret (Some (with_isActive (negb (Category.isActive c)) c)),
     saved key (with_isActive (negb (Category.isActive c)) c) w).
Proof.
  intros Hup Hkey Hfind.
  unfold toggleCategoryStatus, try_catch. unfold bind at 1. cbv beta.
  rewrite Hfind. cbv beta iota.
  unfold bind at 1. unfold write_mongo at 1. unfold Mongo.Category_save. rewrite Hup, Hkey.
  unfold bind. rewrite clearCache_run. unfold saved. rewrite Hup. reflexivity.
Qed.

(** [toggleCategoryStatus], case by case. *)
Lemma toggleCategoryStatus_run {V : Type} id (w : World.t V) :
  toggleCategoryStatus id w
  = match Mongo.categories (World.mongo w) !! id with
    | Some c =>
        if Mongo.connected (World.mongo w)
        then (Ret (Some (with_isActive (negb (Category.isActive c)) c)),
              saved id (with_isActive (negb (Category.isActive c)) c) w)
        else (Throw Mongo.unavailable, w)
    | None =>
        if Mongo.isObjectId id
        then if Mongo.connected (World.mongo w)
             then match Mongo.categories (World.mongo w) !! Mongo.objectIdText id with
                  | Some c =>
                      (Ret (Some (with_isActive (negb (Category.isActive c)) c)),
                       saved (Mongo.objectIdText id)
                         (with_isActive (negb (Category.isActive c)) c) w)
                  | None => (Ret None, w)
                  end
             else (Throw Mongo.unavailable, w)
        else (Throw (Mongo.castError id "Category"), w)
    end.
Proof.
  destruct (Mongo.categories (World.mongo w) !! id) as [c|] eqn:Hc.
  - destruct (Mongo.connected (World.mongo w)) eqn:Hup.
    + apply toggle_found; [exact Hup | now apply (Category_id_stored id c) |].
      unfold ask_mongo. now rewrite Category_findById_cases, Hc, Hup.
    + unfold toggleCategoryStatus, try_catch. unfold bind at 1. cbv beta.
      unfold ask_mongo. now rewrite Category_findById_cases, Hc, Hup.
  - destruct (Mongo.isObjectId id) eqn:Hid.
    2: { unfold toggleCategoryStatus, try_catch. unfold bind at 1. cbv beta.
         unfold ask_mongo. now rewrite Category_findById_cases, Hc, Hid. }
    destruct (Mongo.connected (World.mongo w)) eqn:Hup.
    2: { unfold toggleCategoryStatus, try_catch. unfold bind at 1. cbv beta.
         unfold ask_mongo. now rewrite Category_findById_cases, Hc, Hid, Hup. }
    destruct (Mongo.categories (World.mongo w) !! Mongo.objectIdText id) as [c|] eqn:Hlow.
    + apply toggle_found; [exact Hup | unfold Mongo.Category_id; now rewrite Hc, Hid |].
      unfold ask_mongo. now rewrite Category_findById_cases, Hc, Hid, Hup, Hlow.
    + unfold toggleCategoryStatus, try_catch. unfold bind at 1. cbv beta.
      unfold ask_mongo. now rewrite Category_findById_cases, Hc, Hid, Hup, Hlow.
Qed.

(** A switch that answered a category stored it. *)
Lemma toggleCategoryStatus_Some {V : Type} id c (w : World.t V) :
  fst (toggleCategoryStatus id w) = Ret (Some c) ->
  Mongo.connected (World.mongo w) = true
  /\ snd (toggleCategoryStatus id w) = saved (Mongo.Category_id id (World.mongo w)) c w.
Proof.
  rewrite toggleCategoryStatus_run. unfold Mongo.Category_id.
  destruct (Mongo.categories (World.mongo w) !! id) as [c0|].
  - destruct (Mongo.connected (World.mongo w)); [| discriminate].
    cbn [fst snd]. intros H. injection H as <-. split; reflexivity.
  - destruct (Mongo.isObjectId id); [| discriminate].
    destruct (Mongo.connected (World.mongo w)); [| discriminate].
    destruct (Mongo.categories (World.mongo w) !! Mongo.objectIdText id) as [c0|];
      [| discriminate].
    cbn [fst snd]. intros H. injection H as <-. split; reflexivity.
Qed.

(** [deleteCategory] on a store that is up, by what [findById] answers. *)
Lemma deleteCategory_run {V : Type} id (w : World.t V) :
  Mongo.connected (World.mongo w) = true ->
  deleteCategory id w
  = match Mongo.Category_findById id (World.mongo w) with
    | Throw e => (Throw e, w)
    | Ret None => (Ret false, w)
    | Ret (Some c) =>
        if (0 <? length (List.filter (references (Category.name c))
                           (Mongo.dramas (World.mongo w))))%nat
        then (Throw (inUseMessage (Category.name c)
                       (length (List.filter (references (Category.name c))
                                  (Mongo.dramas (World.mongo w))))), w)
        else (Ret true, cleared (without_category (Mongo.Category_id id (World.mongo w)) w))
    end.
Proof.
  intros Hup. unfold deleteCategory, try_catch. unfold bind at 1. cbv beta.
  unfold ask_mongo at 1.
  destruct (Mongo.Category_findById id (World.mongo w)) as [[c|]|e]; try reflexivity.
  cbv beta iota. unfold bind at 1. cbv beta. rewrite (deleteOne_connected id c w Hup).
  destruct (0 <? _)%nat; [reflexivity |].
  unfold bind. cbv beta iota. rewrite clearCache_run. reflexivity.
Qed.

(** What a deletion that answered [true] left behind. *)
Lemma deleteCategory_true {V : Type} id (w : World.t V) :
  fst (deleteCategory id w) = Ret true ->
  Mongo.connected (World.mongo w) = true
  /\ snd (deleteCategory id w)
     = cleared (without_category (Mongo.Category_id id (World.mongo w)) w).
Proof.
  destruct (Mongo.connected (World.mongo w)) eqn:Hup.
  2: { destruct (deleteCategory_down id w Hup) as [message ->]. discriminate. }
  rewrite (deleteCategory_run id w Hup).
  destruct (Mongo.Category_findById id (World.mongo w)) as [[c|]|e]; try discriminate.
  destruct (0 <? _)%nat; [discriminate |].
  intros _. split; reflexivity.
Qed.

(** The insertion sort of a query is a rearrangement, in ascending sort
    order. *)
Lemma insert_by_perm {A : Type} (le : A -> A -> bool) x l :
  Permutation (x :: l) (Mongo.insert_by le x l).
Proof.
  induction l as [|y l IH]; cbn [Mongo.insert_by]; [reflexivity |].
  destruct (le x y); [reflexivity |]. rewrite perm_swap. now apply perm_skip.
Qed.

Lemma sort_by_perm {A : Type} (le : A -> A -> bool) l : Permutation l (Mongo.sort_by le l).
Proof.
  induction l as [|x l IH]; cbn [Mongo.sort_by]; [reflexivity |].
  rewrite <- insert_by_perm. now apply perm_skip.
Qed.

Lemma sort_by_sortOrder l :
  StronglySorted (fun a b => (Category.sortOrder a <= Category.sortOrder b)%Z)
    (Mongo.sort_by Mongo.by_sortOrder_name l).
Proof.
  induction l as [|x l IH]; cbn [Mongo.sort_by]; [constructor |].
  revert IH. generalize (Mongo.sort_by Mongo.by_sortOrder_name l). intros s.
  induction 1 as [|y s Hs IH Hy]; cbn [Mongo.insert_by]; [repeat constructor |].
  destruct (Mongo.by_sortOrder_name x y) eqn:Hle.
  - assert (Hxy : (Category.sortOrder x <= Category.sortOrder y)%Z).
    { unfold Mongo.by_sortOrder_name in Hle. apply orb_true_iff in Hle.
      destruct Hle as [Hle|Hle]; [apply Z.ltb_lt in Hle; lia |].
      apply andb_true_iff in Hle. destruct Hle as [Hle _]. apply Z.eqb_eq in Hle. lia. }
    constructor; [constructor; assumption |].
    constructor; [exact Hxy |].
    eapply List.Forall_impl; [| exact Hy]. intros z Hz. cbv beta in *. lia.
  - assert (Hyx : (Category.sortOrder y <= Category.sortOrder x)%Z).
    { unfold Mongo.by_sortOrder_name in Hle. apply orb_false_iff in Hle.
      destruct Hle as [Hlt _]. apply Z.ltb_ge in Hlt. exact Hlt. }
    constructor; [exact IH |].
    eapply Permutation_Forall; [apply insert_by_perm |].
    constructor; assumption.
Qed.

End CategoryLists.

(** X21.  [toggleCategoryStatus] switches one category: it answers the
    category with [isActive] negated and stores it under its id, every
    other category staying as it was; a second call undoes the first (name,
    colour, description, sort order and [isActive] are back).  An id of 24
    hexadecimal digits finds the category stored under these digits in lower
    case as well; when no category has it the answer is [null].  Any other id
    that no category has makes the call throw, as the id cannot be cast, and
    so does a store that is down.  Nothing changes in these three cases. *)
Theorem toggleCategoryStatus_flips {V : Type} (id : string) (w : World.t V) :
  let switched (key : string) (c : Category.t) :=
    fst (CategoryService.toggleCategoryStatus id w)
    = Ret (Some (CategoryService.with_isActive (negb (Category.isActive c)) c))
    /\ Mongo.categories (World.mongo (snd (CategoryService.toggleCategoryStatus id w)))
       = <[key := CategoryService.with_isActive (negb (Category.isActive c)) c]>
           (Mongo.categories (World.mongo w))
    /\ fst (CategoryService.toggleCategoryStatus id
              (snd (CategoryService.toggleCategoryStatus id w)))
       = Ret (Some c)
    /\ Mongo.categories
         (World.mongo (snd (CategoryService.toggleCategoryStatus id
                              (snd (CategoryService.toggleCategoryStatus id w)))))
       = Mongo.categories (World.mongo w) in
  (Mongo.categories (World.mongo w) !! id = None -> Mongo.isObjectId id = false ->
   exists message, CategoryService.toggleCategoryStatus id w = (Throw message, w))
  /\ (Mongo.connected (World.mongo w) = false ->
      exists message, CategoryService.toggleCategoryStatus id w = (Throw message, w))
  /\ (Mongo.connected (World.mongo w) = true ->
      Mongo.categories (World.mongo w) !! id = None -> Mongo.isObjectId id = true ->
      Mongo.categories (World.mongo w) !! Mongo.objectIdText id = None ->
      CategoryService.toggleCategoryStatus id w = (Ret None, w))
  /\ (forall c,
        Mongo.connected (World.mongo w) = true ->
        Mongo.categories (World.mongo w) !! id = Some c ->
        switched id c)
  /\ (forall c,
        Mongo.connected (World.mongo w) = true ->
        Mongo.categories (World.mongo w) !! id = None -> Mongo.isObjectId id = true ->
        Mongo.categories (World.mongo w) !! Mongo.objectIdText id = Some c ->
        switched (Mongo.objectIdText id) c).
Proof.
  intros switched.
  assert (Hswitch : forall key c,
            Mongo.connected (World.mongo w) = true ->
            Mongo.Category_id id (World.mongo w) = key ->
            Mongo.categories (World.mongo w) !! key = Some c ->
            switched key c).
  { intros key c Hup Hkey Hc. subst switched. cbv beta.
    set (c' := CategoryService.with_isActive (negb (Category.isActive c)) c).
    assert (Hfind : forall (db : Mongo.t) x,
              Mongo.connected db = true -> Mongo.Category_id id db = key ->
              Mongo.categories db !! key = Some x ->
              Mongo.Category_findById id db = Ret (Some x)).
    { intros db x Hdb Hk Hx. rewrite Category_findById_cases.
      unfold Mongo.Category_id in Hk.
      destruct (Mongo.categories db !! id) as [y|] eqn:Hy.
      - rewrite Hdb. rewrite <- Hk, Hy in Hx. now rewrite Hx.
      - destruct (Mongo.isObjectId id); [rewrite Hdb, Hk; now rewrite Hx |].
        rewrite <- Hk, Hy in Hx. discriminate Hx. }
    assert (Hrun : CategoryService.toggleCategoryStatus id w
                   = (Ret (Some c'), CategoryService.saved key c' w)).
    { apply toggle_found; [exact Hup | exact Hkey |].
      unfold Eff.ask_mongo. now rewrite (Hfind _ c Hup Hkey Hc). }
    assert (Hmongo : World.mongo (CategoryService.saved key c' w)
                     = Mongo.mk true (Mongo.dramas (World.mongo w))
                         (<[key := c']> (Mongo.categories (World.mongo w)))
                         (Mongo.preferences (World.mongo w)) (Mongo.users (World.mongo w))
                         (Mongo.sessions (World.mongo w))).
    { unfold CategoryService.saved. rewrite cleared_mongo. cbn [World.mongo].
      rewrite Hup. reflexivity. }
    assert (Hkey' : Mongo.Category_id id (World.mongo (CategoryService.saved key c' w)) = key).
    { rewrite Hmongo. unfold Mongo.Category_id in *. cbn [Mongo.categories].
      destruct (Mongo.categories (World.mongo w) !! id) as [y|] eqn:Hy.
      - rewrite <- Hkey. now rewrite lookup_insert_eq.
      - destruct (Mongo.isObjectId id) eqn:Hid.
        + destruct (decide (key = id)) as [Heq|Hne].
          * rewrite Heq. now rewrite lookup_insert_eq.
          * rewrite lookup_insert_ne, Hy by exact Hne. exact Hkey.
        + rewrite <- Hkey. now rewrite lookup_insert_eq. }
    assert (Hback : CategoryService.with_isActive (negb (Category.isActive c')) c' = c).
    { subst c'. destruct c as [i n col d s a]. unfold CategoryService.with_isActive.
      cbn. now rewrite negb_involutive. }
    assert (Hrun' : CategoryService.toggleCategoryStatus id (CategoryService.saved key c' w)
                    = (Ret (Some c), CategoryService.saved key c
                                       (CategoryService.saved key c' w))).
    { rewrite (toggle_found id key c' (CategoryService.saved key c' w)).
      - now rewrite Hback.
      - now rewrite Hmongo.
      - exact Hkey'.
      - unfold Eff.ask_mongo. rewrite (Hfind _ c'); [reflexivity | now rewrite Hmongo
          | exact Hkey' | rewrite Hmongo; cbn [Mongo.categories]; apply lookup_insert_eq]. }
    rewrite Hrun. cbn [fst snd]. rewrite Hrun'. cbn [fst snd]. rewrite Hmongo.
    repeat split.
    unfold CategoryService.saved at 1. rewrite cleared_mongo. cbn [World.mongo].
    rewrite Hmongo. cbn [Mongo.categories].
    rewrite insert_insert_eq. now apply insert_id. }
  split; [| split; [| split; [| split]]].
  - intros Hnone Hid. rewrite toggleCategoryStatus_run, Hnone, Hid. eexists. reflexivity.
  - intros Hdown. rewrite toggleCategoryStatus_run, Hdown.
    destruct (Mongo.categories (World.mongo w) !! id); [eexists; reflexivity |].
    destruct (Mongo.isObjectId id); eexists; reflexivity.
  - intros Hup Hnone Hid Hlow.
    rewrite toggleCategoryStatus_run, Hup, Hnone, Hid, Hlow. reflexivity.
  - intros c Hup Hc. apply Hswitch; [exact Hup | now apply (Category_id_stored id c) | exact Hc].
  - intros c Hup Hnone Hid Hc. apply Hswitch; [exact Hup | | exact Hc].
    unfold Mongo.Category_id. now rewrite Hnone, Hid.
Qed.

(** X22.  The lists of categories after a write.  When the cache was
    reachable during a [toggleCategoryStatus] or a [deleteCategory] that
    succeeded, [getActiveCategories] and [getAllCategories] then answer from
    the store, not from a list cached before, whether the cache is reachable
    at that time or not; so the category switched is listed as active exactly
    when it now is, and the category deleted is gone.  When the cache was
    not reachable during the write, [clearCache] deleted nothing: once the
    cache is back, a list it still holds is answered as it was, and the store
    is asked otherwise.  What the store answers is the categories asked for,
    each once, in ascending sort order. *)
Theorem category_lists_follow_the_writes
    (now : Z) (id : string) (w : World.t (list Category.t)) (up : bool) :
  let served (key : string) (fresh : list Category.t) : list Category.t :=
    if Redis.isReady (World.cache w) then fresh
    else match (if up then Redis.lookup now key (World.cache w) else None) with
         | Some older => older
         | None => fresh
         end in
  (forall c,
     fst (CategoryService.toggleCategoryStatus id w) = Ret (Some c) ->
     let after := World.link up (snd (CategoryService.toggleCategoryStatus id w)) in
     fst (CategoryService.getActiveCategories now after)
     = Ret (served CategoryService.CACHE_KEYS_ACTIVE_CATEGORIES
              (CategoryService.activeCategories (World.mongo after)))
     /\ fst (CategoryService.getAllCategories now after)
        = Ret (served CategoryService.CACHE_KEYS_ALL_CATEGORIES
                 (CategoryService.allCategories (World.mongo after)))
     /\ (In c (CategoryService.activeCategories (World.mongo after))
         <-> Category.isActive c = true))
  /\ (fst (CategoryService.deleteCategory id w) = Ret true ->
      let after := World.link up (snd (CategoryService.deleteCategory id w)) in
      fst (CategoryService.getActiveCategories now after)
      = Ret (served CategoryService.CACHE_KEYS_ACTIVE_CATEGORIES
               (CategoryService.activeCategories (World.mongo after)))
      /\ fst (CategoryService.getAllCategories now after)
         = Ret (served CategoryService.CACHE_KEYS_ALL_CATEGORIES
                  (CategoryService.allCategories (World.mongo after)))
      /\ Mongo.categories (World.mongo after)
         = delete (Mongo.Category_id id (World.mongo w)) (Mongo.categories (World.mongo w))
      /\ Mongo.categories (World.mongo after) !! id = None)
  /\ (forall db,
        Permutation (CategoryService.activeCategories db)
          (List.filter Category.isActive (map snd (map_to_list (Mongo.categories db))))
        /\ StronglySorted (fun a b => (Category.sortOrder a <= Category.sortOrder b)%Z)
             (CategoryService.activeCategories db)).
Proof.
  intros served.
  assert (Hfresh : forall w0 : World.t (list Category.t),
            Mongo.connected (World.mongo w0) = true ->
            World.cache w0 = World.cache w ->
            fst (CategoryService.getActiveCategories now
                   (World.link up (CategoryService.cleared w0)))
            = Ret (served CategoryService.CACHE_KEYS_ACTIVE_CATEGORIES
                     (CategoryService.activeCategories (World.mongo w0)))
            /\ fst (CategoryService.getAllCategories now
                      (World.link up (CategoryService.cleared w0)))
               = Ret (served CategoryService.CACHE_KEYS_ALL_CATEGORIES
                        (CategoryService.allCategories (World.mongo w0)))).
  { intros w0 Hup0 Hcache. rewrite getActiveCategories_answer, getAllCategories_answer.
    rewrite !list_after_clear by (cbn; tauto).
    cbn [World.link World.mongo]. rewrite cleared_mongo, Hup0, Hcache. subst served.
    cbv beta.
    destruct (Redis.isReady (World.cache w)); [split; reflexivity |].
    destruct up; [| split; reflexivity].
    destruct (Redis.lookup now CategoryService.CACHE_KEYS_ACTIVE_CATEGORIES _),
             (Redis.lookup now CategoryService.CACHE_KEYS_ALL_CATEGORIES _);
      split; reflexivity. }
  split; [| split].
  - intros c Hc. destruct (toggleCategoryStatus_Some id c w Hc) as [Hup ->].
    set (key := Mongo.Category_id id (World.mongo w)).
    unfold CategoryService.saved. cbv zeta.
    match goal with
    | |- context [CategoryService.cleared ?w0] =>
        destruct (Hfresh w0 Hup eq_refl) as [Ha Hb]
    end.
    rewrite Ha, Hb. cbn [World.link World.mongo]. rewrite cleared_mongo. cbn [World.mongo].
    repeat split.
    + intros Hin.
      apply (Permutation_in _ (Permutation_sym (sort_by_perm _ _))) in Hin.
      apply filter_In in Hin. tauto.
    + intros Hact. apply (Permutation_in _ (sort_by_perm _ _)).
      apply filter_In. split; [| exact Hact].
      apply in_map_iff. exists (key, c). split; [reflexivity |].
      apply list_elem_of_In, elem_of_map_to_list. cbn [Mongo.categories].
      apply lookup_insert_eq.
  - intros Htrue. destruct (deleteCategory_true id w Htrue) as [Hup ->].
    assert (Hup' : Mongo.connected
                     (World.mongo (CategoryService.without_category
                                     (Mongo.Category_id id (World.mongo w)) w)) = true)
      by exact Hup.
    destruct (Hfresh _ Hup' eq_refl) as [Ha Hb]. cbv zeta.
    rewrite Ha, Hb. cbn [World.link World.mongo]. rewrite cleared_mongo. repeat split.
    cbn [World.mongo CategoryService.without_category Mongo.categories].
    unfold Mongo.Category_id.
    destruct (Mongo.categories (World.mongo w) !! id) as [c|] eqn:Hc.
    + apply lookup_delete_eq.
    + destruct (Mongo.isObjectId id); [| apply lookup_delete_eq].
      apply lookup_delete_None. now right.
  - intros db. split; [symmetry; apply sort_by_perm | apply sort_by_sortOrder].
Qed.

(** ** The stored preference *)

Section PreferenceFacts.
Import JS UserPreferenceModel.
Local Open Scope Q_scope.

Lemma findIndex_has_key name l :
  findIndex (has_key name) l = None <-> ~ In name (map Weighted.key l).
Proof.
  induction l as [|e l IH]; cbn [findIndex map In]; [tauto |].
  unfold has_key at 1. destruct (String.eqb (Weighted.key e) name) eqn:He.
  - apply String.eqb_eq in He. split; [discriminate | intros H; exfalso; apply H; now left].
  - apply String.eqb_neq in He.
    destruct (findIndex (has_key name) l) as [i|]; cbn [option_map].
    + split; [discriminate |]. intros H. exfalso. apply H. right.
      destruct (List.in_dec string_dec name (map Weighted.key l)) as [Hin|Hout]; [exact Hin |].
      apply IH in Hout. discriminate Hout.
    + split; [| reflexivity]. intros _ [Heq|Hin]; [congruence |].
      now apply (proj1 IH).
Qed.

(** The entry of a trimmed name holds the clamped weight after the
    update. *)
Lemma stored_put name weight l :
  trim name = name ->
  RecommendationService.storedWeight (putWeight name weight l) name
  = Math_min 1 (Math_max 0 weight).
Proof.
  intros Htrim. unfold putWeight. rewrite Htrim.
  induction l as [|e l IH]; cbn [findIndex].
  - cbn [app RecommendationService.storedWeight Weighted.key Weighted.weight].
    destruct (decide (name = name)); [reflexivity | congruence].
  - unfold has_key at 1. destruct (String.eqb (Weighted.key e) name) eqn:He.
    + cbn [alter list_alter RecommendationService.storedWeight set_weight Weighted.key
           Weighted.weight].
      apply String.eqb_eq in He.
      destruct (decide (Weighted.key e = name)); [reflexivity | congruence].
    + apply String.eqb_neq in He.
      destruct (findIndex (has_key name) l) as [i|]; cbn [option_map].
      * cbn [alter list_alter RecommendationService.storedWeight].
        destruct (decide (Weighted.key e = name)); [congruence | exact IH].
      * cbn [app RecommendationService.storedWeight].
        destruct (decide (Weighted.key e = name)); [congruence | exact IH].
Qed.

Lemma putWeight_length_present name weight l :
  In name (map Weighted.key l) -> length (putWeight name weight l) = length l.
Proof.
  unfold putWeight. intros H. destruct (findIndex (has_key name) l) eqn:E.
  - apply length_alter.
  - exfalso. apply findIndex_has_key in E. contradiction.
Qed.

Lemma putWeight_length_le name weight l :
  (length (putWeight name weight l) <= S (length l))%nat.
Proof.
  unfold putWeight. destruct (findIndex (has_key name) l).
  - rewrite length_alter. lia.
  - rewrite length_app. cbn. lia.
Qed.

Lemma keepTop_fits n l : (length l <= n)%nat -> keepTop n l = l.
Proof.
  intros H. unfold keepTop. destruct (n <? length l)%nat eqn:E; [| reflexivity].
  apply Nat.ltb_lt in E. lia.
Qed.

(** The average session of [updateViewingTime]. *)
Lemma averageSession_value total :
  total / Math_max 1 (total / 30) == Qmin total 30.
Proof.
  unfold Math_max.
  assert (Hdiv : (total / 30 == total * (1 # 30))%Q) by (unfold Qdiv; reflexivity).
  destruct (Qmax_cases 1 (total / 30)) as [[E Hc]|[E Hc]]; rewrite E.
  - rewrite Hdiv in Hc. rewrite Q.min_l by lra. unfold Qdiv.
    change (/ 1)%Q with 1%Q. ring.
  - rewrite Hdiv in Hc. rewrite Q.min_r by lra.
    assert (Hnz : ~ (total == 0)%Q) by lra. field. exact Hnz.
Qed.

End PreferenceFacts.


(** X24.  What a preference update writes is what the personalized scorer
    reads, for a name without white space at its ends: after
    [updateCategoryPreference (name, weight)] on a record with at most 10
    categories, of which [name] is one or which has room for one more, the
    weight stored for [name] is the given weight clamped to [0, 1],
    whatever weight was stored before; and likewise for
    [updateTagPreference] and 20 tags.  (A name with white space at an end
    is pushed trimmed, so it is not found under the name given.) *)
Theorem preference_update_is_read_back
    (now : Z) (name : string) (weight : Q) (p : UserPreference.t) :
  JS.trim name = name ->
  ((length (UserPreference.categories p) <= 10)%nat ->
   (In name (map Weighted.key (UserPreference.categories p))
    \/ (length (UserPreference.categories p) < 10)%nat) ->
   RecommendationService.storedWeight
     (UserPreference.categories
        (UserPreferenceModel.updateCategoryPreference now name weight p)) name
   = JS.Math_min 1 (JS.Math_max 0 weight))
  /\ ((length (UserPreference.tags p) <= 20)%nat ->
      (In name (map Weighted.key (UserPreference.tags p))
       \/ (length (UserPreference.tags p) < 20)%nat) ->
      RecommendationService.storedWeight
        (UserPreference.tags (UserPreferenceModel.updateTagPreference now name weight p)) name
      = JS.Math_min 1 (JS.Math_max 0 weight)).
Proof.
  intros Htrim.
  unfold UserPreferenceModel.updateCategoryPreference, UserPreferenceModel.updateTagPreference,
    UserPreferenceModel.with_lastUpdated, UserPreferenceModel.with_categories,
    UserPreferenceModel.with_tags.
  cbn [UserPreference.categories UserPreference.tags].
  split; intros Hlen Hroom.
  - rewrite keepTop_fits; [now apply stored_put |].
    destruct Hroom as [Hin|Hlt].
    + rewrite putWeight_length_present by exact Hin. exact Hlen.
    + pose proof (putWeight_length_le name weight (UserPreference.categories p)). lia.
  - rewrite keepTop_fits; [now apply stored_put |].
    destruct Hroom as [Hin|Hlt].
    + rewrite putWeight_length_present by exact Hin. exact Hlen.
    + pose proof (putWeight_length_le name weight (UserPreference.tags p)). lia.
Qed.

Lemma preference_update_is_read_back_witness :
  RecommendationService.storedWeight
    (UserPreference.categories
       (UserPreferenceModel.updateCategoryPreference 1 "c3" (3 # 2) Fixtures.preference))
    "c3"
  = JS.Math_min 1 (JS.Math_max 0 (3 # 2))
  /\ (RecommendationService.storedWeight
        (UserPreference.categories
           (UserPreferenceModel.updateCategoryPreference 1 " c3 " (3 # 2)
              Fixtures.preference))
        " c3 " == 0)%Q.
Proof.
  split; [| vm_compute; reflexivity].
  apply (proj1 (preference_update_is_read_back 1 "c3" (3 # 2) Fixtures.preference
                  ltac:(vm_compute; reflexivity))).
  - vm_compute. lia.
  - left. vm_compute. tauto.
Defined.

Section PreferencePersisted.
Import JS Eff UserPreferenceModel.

Lemma fold_updateTagPreference_userId now weight tags : forall p,
  UserPreference.userId
    (fold_left (fun p tag => updateTagPreference now tag weight p) tags p)
  = UserPreference.userId p.
Proof.
  induction tags as [|tag tags IH]; intros p; cbn [fold_left]; [reflexivity |].
  rewrite IH. reflexivity.
Qed.

Lemma applyDrama_userId now drama action p :
  UserPreference.userId (applyDrama now drama action p) = UserPreference.userId p.
Proof.
  unfold applyDrama.
  set (p1 := match Drama.category drama with
             | EmptyString => p
             | String _ _ => _
             end).
  assert (H1 : UserPreference.userId p1 = UserPreference.userId p).
  { subst p1. destruct (Drama.category drama); reflexivity. }
  set (p2 := match Drama.tags drama with Some _ => _ | None => p1 end).
  assert (H2 : UserPreference.userId p2 = UserPreference.userId p).
  { subst p2. destruct (Drama.tags drama); [| exact H1].
    rewrite fold_updateTagPreference_userId. exact H1. }
  destruct (Drama.cast drama); [| exact H2]. exact H2.
Qed.

End PreferencePersisted.

(** X25.  [updatePreferenceFromDrama] returns what it stored: in a store
    whose preference records carry the user id they are found under, the
    record it returned is the one a later [getOrCreateUserPreference] for
    the same user answers, and that call writes nothing. *)
Theorem updated_preference_is_persisted {V : Type}
    (now later : Z) (userId : string) (drama : Drama.t) (action : UserPreferenceModel.Action)
    (w w' : World.t V) (preference : UserPreference.t) :
  (forall p, Mongo.preferences (World.mongo w) !! userId = Some p ->
             UserPreference.userId p = userId) ->
  UserPreferenceModel.updatePreferenceFromDrama now userId drama action w
  = (Ret preference, w') ->
  UserPreferenceModel.getOrCreateUserPreference later userId w' = (Ret preference, w').
Proof.
  intros Hkey. rewrite updatePreferenceFromDrama_run.
  destruct (Mongo.connected (World.mongo w)) eqn:Hup; [| discriminate].
  destruct (Mongo.preferences (World.mongo w) !! userId) as [p|] eqn:Hp;
    intros H; injection H as <- <-.
  - rewrite getOrCreate_connected by exact Hup.
    unfold UserPreferenceModel.stored. cbn [World.mongo Mongo.preferences].
    rewrite applyDrama_userId, (Hkey p eq_refl), lookup_insert_eq. reflexivity.
  - rewrite getOrCreate_connected by exact Hup.
    unfold UserPreferenceModel.stored. cbn [World.mongo Mongo.preferences].
    rewrite applyDrama_userId. cbn [UserPreferenceModel.fresh UserPreference.userId].
    rewrite lookup_insert_eq. reflexivity.
Qed.

Lemma updated_preference_is_persisted_witness :
  UserPreferenceModel.getOrCreateUserPreference 2 "u1"
    (snd (UserPreferenceModel.updatePreferenceFromDrama 1 "u1" Samples.seed
            UserPreferenceModel.like Fixtures.world))
  = (Ret (UserPreferenceModel.applyDrama 1 Samples.seed UserPreferenceModel.like
            (UserPreferenceModel.fresh 1 "u1")),
     snd (UserPreferenceModel.updatePreferenceFromDrama 1 "u1" Samples.seed
            UserPreferenceModel.like Fixtures.world)).
Proof.
  apply (updated_preference_is_persisted 1 2 "u1" Samples.seed UserPreferenceModel.like
           Fixtures.world).
  - intros p H. cbn in H. rewrite lookup_empty in H. discriminate H.
  - rewrite updatePreferenceFromDrama_run. reflexivity.
Defined.

(** ** Registration and login *)

Section Accounts.
Import JS Eff AuthService.

Lemma find_user_None (p : User.t -> bool) (users : gmap string User.t) :
  List.find (fun kv : string * User.t => p (snd kv)) (map_to_list users) = None
  <-> forall id u, users !! id = Some u -> p u = false.
Proof.
  split.
  - intros H id u Hu.
    apply (find_none _ _ H (id, u)). apply list_elem_of_In, elem_of_map_to_list. exact Hu.
  - intros H. destruct (List.find _ _) as [[id u]|] eqn:E; [| reflexivity].
    apply find_some in E. destruct E as [Hin Hp]. cbn [snd] in Hp.
    apply list_elem_of_In, elem_of_map_to_list in Hin. rewrite (H id u Hin) in Hp.
    discriminate Hp.
Qed.

Lemma findOne_username_None username db :
  Mongo.connected db = true ->
  (Mongo.User_findOne_username username db = Ret None <-> ~ username_taken username db).
Proof.
  intros Hup. unfold Mongo.User_findOne_username, username_taken. rewrite Hup. split.
  - intros H (id & u & Hu & Hname). injection H as H.
    rewrite (find_user_None (fun u => String.eqb (User.username u) username)) in H.
    specialize (H id u Hu). rewrite Hname, String.eqb_refl in H. discriminate H.
  - intros H. f_equal.
    apply (find_user_None (fun u => String.eqb (User.username u) username)).
    intros id u Hu. destruct (String.eqb_spec (User.username u) username); [| reflexivity].
    exfalso. apply H. now exists id, u.
Qed.

Lemma findOne_email_None email db :
  Mongo.connected db = true ->
  (Mongo.User_findOne_email email db = Ret None <-> ~ email_taken email db).
Proof.
  intros Hup. unfold Mongo.User_findOne_email, email_taken. rewrite Hup. split.
  - intros H (id & u & Hu & Hname). injection H as H.
    rewrite (find_user_None (fun u => String.eqb (User.email u) email)) in H.
    specialize (H id u Hu). rewrite Hname, String.eqb_refl in H. discriminate H.
  - intros H. f_equal.
    apply (find_user_None (fun u => String.eqb (User.email u) email)).
    intros id u Hu. destruct (String.eqb_spec (User.email u) email); [| reflexivity].
    exfalso. apply H. now exists id, u.
Qed.

End Accounts.

(** X26.  [register] opens no second account: when the two passwords
    differ it throws before it reads the store; when the username, or else
    the email, is that of a stored account it throws the message for it;
    in all three cases nothing is written; and a registration that succeeds
    was for a username and an email that no stored account had. *)
Theorem register_refuses_duplicates
    (lib : AuthService.Libraries) (env : AuthService.Env) (now : Z)
    (createUser : AuthService.RegisterData -> Mongo.t -> outcome (string * User.t * Mongo.t))
    (data : AuthService.RegisterData) (w : World.t string) :
  (AuthService.reg_password data <> AuthService.reg_confirmPassword data ->
   AuthService.register lib env now createUser data w = (Throw AuthService.MSG_CONFIRM, w))
  /\ (AuthService.reg_password data = AuthService.reg_confirmPassword data ->
      Mongo.connected (World.mongo w) = true ->
      AuthService.username_taken (AuthService.reg_username data) (World.mongo w) ->
      AuthService.register lib env now createUser data w
      = (Throw AuthService.MSG_USERNAME_TAKEN, w))
  /\ (AuthService.reg_password data = AuthService.reg_confirmPassword data ->
      Mongo.connected (World.mongo w) = true ->
      ~ AuthService.username_taken (AuthService.reg_username data) (World.mongo w) ->
      AuthService.email_taken (AuthService.reg_email data) (World.mongo w) ->
      AuthService.register lib env now createUser data w
      = (Throw AuthService.MSG_EMAIL_TAKEN, w))
  /\ (forall result w',
        AuthService.register lib env now createUser data w = (Ret result, w') ->
        AuthService.reg_password data = AuthService.reg_confirmPassword data
        /\ ~ AuthService.username_taken (AuthService.reg_username data) (World.mongo w)
        /\ ~ AuthService.email_taken (AuthService.reg_email data) (World.mongo w)).
Proof.
  unfold AuthService.register. run_eff.
  destruct (String.eqb_spec (AuthService.reg_password data)
              (AuthService.reg_confirmPassword data)) as [Hsame|Hdiff]; cbn [negb].
  2: { split; [reflexivity | repeat split; try contradiction; discriminate]. }
  split; [contradiction |].
  destruct (Mongo.connected (World.mongo w)) eqn:Hup.
  2: { unfold Mongo.User_findOne_username. rewrite Hup.
       repeat split; try discriminate. }
  pose proof (findOne_username_None (AuthService.reg_username data) _ Hup) as Hu.
  pose proof (findOne_email_None (AuthService.reg_email data) _ Hup) as He.
  destruct (Mongo.User_findOne_username _ _) as [[existing|]|e] eqn:Hfu.
  - assert (Htaken : ~ ~ AuthService.username_taken (AuthService.reg_username data)
                          (World.mongo w)).
    { intros H. apply Hu in H. discriminate H. }
    repeat split; try reflexivity; try discriminate. intros _ _ H. contradiction.
  - assert (Hfree : ~ AuthService.username_taken (AuthService.reg_username data)
                        (World.mongo w)) by (apply Hu; reflexivity).
    split; [intros _ _ H; contradiction |].
    destruct (Mongo.User_findOne_email _ _) as [[existing|]|e] eqn:Hfe.
    + split; [reflexivity | discriminate].
    + assert (Hfree' : ~ AuthService.email_taken (AuthService.reg_email data)
                           (World.mongo w)) by (apply He; reflexivity).
      split; [intros _ _ _ H; contradiction |].
      intros result w' _. repeat split; assumption.
    + unfold Mongo.User_findOne_email in Hfe. rewrite Hup in Hfe. discriminate Hfe.
  - unfold Mongo.User_findOne_username in Hfu. rewrite Hup in Hfu. discriminate Hfu.
Qed.

Section LoginSuccess.
Import JS Eff AuthService.

(** With the cache down the counter of failed logins is neither read nor
    written. *)
Lemma checkLoginAttempts_down now email (w : World.t string) :
  Redis.isReady (World.cache w) = false -> checkLoginAttempts now email w = (Ret tt, w).
Proof. intros H. unfold checkLoginAttempts. run_eff. rewrite H. reflexivity. Qed.

Lemma recordFailedLogin_down now email (w : World.t string) :
  Redis.isReady (World.cache w) = false -> recordFailedLogin now email w = (Ret tt, w).
Proof. intros H. unfold recordFailedLogin. run_eff. rewrite H. reflexivity. Qed.

Lemma clearFailedLogins_down email (w : World.t string) :
  Redis.isReady (World.cache w) = false -> clearFailedLogins email w = (Ret tt, w).
Proof. intros H. unfold clearFailedLogins. run_eff. rewrite H. reflexivity. Qed.

(** The three helpers never fail for a reason of their own. *)
Lemma checkLoginAttempts_outcome now email (w : World.t string) :
  checkLoginAttempts now email w = (Ret tt, w)
  \/ checkLoginAttempts now email w = (Throw MSG_LOCKOUT, w).
Proof.
  destruct (Redis.isReady (World.cache w)) eqn:Hready.
  - rewrite checkLoginAttempts_run by exact Hready.
    destruct (locked email now (World.cache w)); [now right | now left].
  - left. now apply checkLoginAttempts_down.
Qed.

Lemma recordFailedLogin_outcome now email (w : World.t string) :
  exists r, recordFailedLogin now email w = (Ret tt, World.mk (World.mongo w) r).
Proof.
  destruct (Redis.isReady (World.cache w)) eqn:Hready.
  - rewrite recordFailedLogin_run by exact Hready. eexists. reflexivity.
  - rewrite recordFailedLogin_down by exact Hready. exists (World.cache w).
    destruct w; reflexivity.
Qed.

Lemma clearFailedLogins_outcome email (w : World.t string) :
  clearFailedLogins email w
  = (Ret tt,
     World.mk (World.mongo w)
       (if Redis.isReady (World.cache w) then cleared email (World.cache w)
        else World.cache w)).
Proof.
  destruct (Redis.isReady (World.cache w)) eqn:Hready.
  - now apply clearFailedLogins_run.
  - rewrite clearFailedLogins_down by exact Hready. destruct w; reflexivity.
Qed.

End LoginSuccess.

(** X27.  A login that succeeds was for a stored account that is active
    and whose password matched; it hands out the tokens generated for that
    account and the account without its password hash, opens exactly one
    new session, active, holding the refresh token handed out and ending 30
    days later, records the time of the login, and, when the cache is up,
    removes the counter of failed logins of the email. *)
Theorem login_success_opens_one_session
    (lib : AuthService.Libraries) (env : AuthService.Env) (now : Z)
    (data : AuthService.LoginData) (ipAddress userAgent : option string)
    (w w' : World.t string) (result : AuthService.AuthResult) :
  AuthService.login lib env now data ipAddress userAgent w = (Ret result, w') ->
  exists id u,
    Mongo.User_findOne_email (AuthService.email data) (World.mongo w) = Ret (Some (id, u))
    /\ User.is_active u = true
    /\ AuthService.comparePassword lib u (AuthService.password data) = true
    /\ AuthService.accessToken result = AuthService.generateAuthToken lib id u
    /\ AuthService.refreshToken result = AuthService.generateRefreshToken lib id u
    /\ AuthService.user result
       = AuthService.toSafeObject (User.set_lastLoginAt (now * 1000) u)
    /\ User.password (AuthService.user result) = EmptyString
    /\ Mongo.sessions (World.mongo w')
       = UserSession.mk id (AuthService.randomUUID lib) (AuthService.refreshToken result)
           ipAddress userAgent true (now * 1000 + 30 * 24 * 60 * 60 * 1000)
         :: Mongo.sessions (World.mongo w)
    /\ Mongo.users (World.mongo w')
       = <[id := User.set_lastLoginAt (now * 1000) u]> (Mongo.users (World.mongo w))
    /\ (Redis.isReady (World.cache w) = true ->
        Redis.entries (World.cache w') !! AuthService.failedLoginKey (AuthService.email data)
        = None).
Proof.
  unfold AuthService.login. run_eff.
  destruct (checkLoginAttempts_outcome now (AuthService.email data) w) as [-> | ->];
    [| discriminate].
  destruct (Mongo.User_findOne_email (AuthService.email data) (World.mongo w))
    as [[[id u]|]|e] eqn:Hfind; run_eff.
  2: { destruct (recordFailedLogin_outcome now (AuthService.email data) w) as [r ->].
       discriminate. }
  2: discriminate.
  destruct (User.is_active u) eqn:Hact; cbn [negb]; [| discriminate].
  destruct (AuthService.comparePassword lib u (AuthService.password data)) eqn:Hpw;
    cbn [negb]; run_eff.
  2: { destruct (recordFailedLogin_outcome now (AuthService.email data) w) as [r ->].
       discriminate. }
  rewrite clearFailedLogins_outcome.
  unfold AuthService.createUserSession, Mongo.UserSession_create, Mongo.User_save. run_eff.
  cbn [World.mongo World.cache].
  unfold Mongo.User_findOne_email in Hfind.
  destruct (Mongo.connected (World.mongo w)) eqn:Hup; [| discriminate Hfind].
  cbn [World.mongo World.cache Mongo.connected]. rewrite ?Hup.
  intros H. injection H as <- <-.
  exists id, u. cbn. repeat split; try assumption; try reflexivity.
  intros Hready. rewrite Hready. unfold AuthService.cleared. cbn [Redis.entries].
  apply lookup_delete_eq.
Qed.

Lemma login_success_opens_one_session_witness :
  length (Mongo.sessions
            (World.mongo
               (snd (AuthService.login AuthFixtures.lib SessionFixtures.env 0
                       (AuthService.mkLogin "alice@example.com" "secret" false) None None
                       AuthFixtures.clean))))
  = 1%nat.
Proof.
  destruct (login_success_opens_one_session AuthFixtures.lib SessionFixtures.env 0
              (AuthService.mkLogin "alice@example.com" "secret" false) None None
              AuthFixtures.clean
              (snd (AuthService.login AuthFixtures.lib SessionFixtures.env 0
                      (AuthService.mkLogin "alice@example.com" "secret" false) None None
                      AuthFixtures.clean))
              (AuthService.mkAuth
                 (AuthService.toSafeObject (User.set_lastLoginAt 0 AuthFixtures.alice))
                 "access-u1" "refresh-u1" (Some 60%nat)))
    as (id & u & _ & _ & _ & _ & _ & _ & _ & -> & _).
  - vm_compute. reflexivity.
  - reflexivity.
Defined.
